(** * asset-handoffer: the handoff pipeline, embedded and verified

    A shallow embedding of [parsers.py], [core/path_generator.py],
    [core/git_repo.py] and [core/processor.py].

    Python values are modelled as the code has them: [str] as [string],
    [pathlib.Path] as its [parts] tuple, the dictionary returned by
    [Match.groupdict()] as a [gmap string (option string)] (a key bound to
    [None] is a group that exists but did not participate), the set
    [groupindex.keys()] as a [gset string].  Code that raises is a
    computation in a state-and-exception monad over a [World]: the
    filesystem, the state of the outside of the process (remote repository,
    network), the list of [git] invocations and the lines printed.

    What the code calls but does not define is taken as given:
    - the regular-expression engine ([re.compile], [Pattern.groupindex],
      [Pattern.match]) and the part of [str.format] beyond plain [{name}]
      fields are the fields of the class [PyLib];
    - the [git] executable run by [subprocess.run] is the class [Host].
    General theorems hold for every instance; concrete runs use the
    instances [re_fragment] (a backtracking matcher for a fragment of
    Python's pattern syntax) and [scripted_host]. *)

From Stdlib Require Import Ascii String List Bool Arith Lia.
From stdpp Require Import base option strings list gmap.

Open Scope string_scope.
Open Scope list_scope.

(** ** Exceptions ([exceptions.py] and the built-in ones the code meets)

    The payload of an exception of the repository is the value its message
    interpolates; the fixed text of the message is left out. *)

(** The reason of an [OSError]; [ShutilError] is [shutil.Error]. *)
Inductive errno : Type :=
  | ENOENT | EEXIST | ENOTDIR | EISDIR | EINVAL | ENOTEMPTY | EBUSY
  | ShutilError | EOTHER (what : string).

#[local] Instance errno_eq_dec : EqDecision errno.
Proof. solve_decision. Defined.

Inductive exception : Type :=
  | ReError                                   (* re.error *)
  | ConfigError (detail : string)
  | ParseError (detail : string)
  | ProcessError (detail : string)
  | GitError (detail : string)
  | KeyError (key : string)
  | IndexError
  | ValueError
  | OSError (code : errno)                    (* FileNotFoundError, shutil.Error, ... *)
  | CalledProcessError (returncode : nat) (out err : string)
  | OtherError (cls : string).

(** [isinstance(e, cls)] for the classes named in an [except] clause. *)
Definition is_ParseError (e : exception) : bool :=
  match e with ParseError _ => true | _ => false end.
Definition is_ProcessError (e : exception) : bool :=
  match e with ProcessError _ => true | _ => false end.
Definition is_GitError (e : exception) : bool :=
  match e with GitError _ => true | _ => false end.
Definition is_ConfigError (e : exception) : bool :=
  match e with ConfigError _ => true | _ => false end.
Definition is_ValueError (e : exception) : bool :=
  match e with ValueError => true | _ => false end.
Definition is_CalledProcessError (e : exception) : bool :=
  match e with CalledProcessError _ _ _ => true | _ => false end.

(** A pure computation that may raise. *)
Abbreviation result A := (exception + A)%type.

(** ** Strings

    A string is a [str] of Python in UTF-8: a character of Python is one
    byte here when it is ASCII, and otherwise a lead byte followed by one
    to three continuation bytes.  An ASCII byte is never part of another
    character, so looking for an ASCII character, or replacing one by
    another, is the same on bytes and on characters; counting and slicing
    are not, and [len] and [head] below count characters. *)

Module Str.

Definition is_continuation (c : ascii) : bool :=
  let n := nat_of_ascii c in ((128 <=? n) && (n <? 192))%nat.

(** [len(s)] *)
Fixpoint len (s : string) : nat :=
  match s with
  | EmptyString => 0
  | String c r => (if is_continuation c then 0 else 1) + len r
  end.

(** [s[:n]]: the first [n] characters *)
Fixpoint head (n : nat) (s : string) : string :=
  match s with
  | EmptyString => EmptyString
  | String c r =>
      if is_continuation c then String c (head n r)
      else match n with
           | 0 => EmptyString
           | S n' => String c (head n' r)
           end
  end.

(** [s.replace(old, new)] for one-character [old] and [new]. *)
Fixpoint replace (old new : ascii) (s : string) : string :=
  match s with
  | EmptyString => EmptyString
  | String c r =>
      String (if Ascii.eqb c old then new else c) (replace old new r)
  end.

(** The first [n] bytes of [s]; the positions of the matcher, and of
    [rfind], are positions of bytes. *)
Fixpoint take (n : nat) (s : string) : string :=
  match n, s with
  | S n', String c r => String c (take n' r)
  | _, _ => EmptyString
  end.

(** [s] without its first [n] bytes *)
Fixpoint drop (n : nat) (s : string) : string :=
  match n, s with
  | S n', String _ r => drop n' r
  | _, _ => s
  end.

(** [c in s] *)
Fixpoint mem (c : ascii) (s : string) : bool :=
  match s with
  | EmptyString => false
  | String d r => Ascii.eqb c d || mem c r
  end.

(** [needle in hay] *)
Fixpoint contains (needle hay : string) : bool :=
  String.prefix needle hay ||
  match hay with
  | EmptyString => false
  | String _ r => contains needle r
  end.

(** [s.rfind(c)]: the last index of [c], counted from the first
    character of [s] being at index [i]. *)
Fixpoint rfind_from (i : nat) (c : ascii) (s : string) : option nat :=
  match s with
  | EmptyString => None
  | String d r =>
      match rfind_from (S i) c r with
      | Some j => Some j
      | None => if Ascii.eqb c d then Some i else None
      end
  end.
Definition rfind (c : ascii) (s : string) : option nat := rfind_from 0 c s.

Definition is_digit (c : ascii) : bool :=
  let n := nat_of_ascii c in ((48 <=? n) && (n <=? 57))%nat.
Definition is_alpha (c : ascii) : bool :=
  let n := nat_of_ascii c in
  (((65 <=? n) && (n <=? 90)) || ((97 <=? n) && (n <=? 122)))%nat.
(** [\w] on ASCII text. *)
Definition is_word (c : ascii) : bool :=
  is_alpha c || is_digit c || Ascii.eqb c "_".
Definition is_ascii (c : ascii) : bool := (nat_of_ascii c <? 128)%nat.
Definition is_space (c : ascii) : bool :=
  let n := nat_of_ascii c in
  ((n =? 32) || ((9 <=? n) && (n <=? 13)) || ((28 <=? n) && (n <=? 31)))%nat.

Fixpoint all (f : ascii -> bool) (s : string) : bool :=
  match s with
  | EmptyString => true
  | String c r => f c && all f r
  end.

(** [s.split(sep)] for a one-character separator: the pieces between
    the separators, empty pieces included. *)
Fixpoint split_acc (sep : ascii) (cur : string) (s : string) : list string :=
  match s with
  | EmptyString => [cur]
  | String c r =>
      if Ascii.eqb c sep then cur :: split_acc sep EmptyString r
      else split_acc sep (cur +:+ String c EmptyString) r
  end.
Definition split (sep : ascii) (s : string) : list string :=
  split_acc sep EmptyString s.

(** [sep.join(l)] *)
Fixpoint join (sep : string) (l : list string) : string :=
  match l with
  | [] => EmptyString
  | [x] => x
  | x :: r => x +:+ sep +:+ join sep r
  end.

(** Truthiness of an optional string: [None] and [''] are falsy. *)
Definition truthy (o : option string) : bool :=
  match o with
  | Some (String _ _) => true
  | _ => false
  end.

(** Two decimal digits and four, as [strftime] pads them. *)
Definition digit (n : nat) : string :=
  String (ascii_of_nat (48 + n mod 10)) EmptyString.
Definition pad2 (n : nat) : string := digit (n / 10) +:+ digit n.
Definition pad4 (n : nat) : string :=
  digit (n / 1000) +:+ digit (n / 100) +:+ digit (n / 10) +:+ digit n.

End Str.

(** ** Library behaviour taken as given

    [Pattern] is a compiled pattern object.  [re_compile] is the compiled
    pattern, or the exception [re.compile] raises: [re.error] for a
    pattern that is no regular expression, but also [OverflowError] for a
    repeat count that is too large and [RecursionError] for a pattern
    nested too deep.  [re_match p s] is [None] when
    [p.match(s)] returns no match, and otherwise the [groupdict()] of the
    match found.  [format_advanced] is the result of [str.format] on a
    template that has a replacement field with a conversion, a format
    specification, an attribute or index lookup or a nested field. *)

Class PyLib : Type := {
  Pattern : Type;
  re_compile : string -> result Pattern;
  re_groupindex : Pattern -> gset string;
  re_match : Pattern -> string -> option (gmap string (option string));
  format_advanced : string -> list (string * string) -> result string;
}.

(** What Python guarantees of [groupdict()]: one key per named group of
    the pattern. *)
Definition groupdict_keys_law (L : PyLib) : Prop :=
  forall (p : Pattern) (s : string) (g : gmap string (option string)),
    re_match p s = Some g -> dom g = re_groupindex p.

(** ** [str.format] with keyword arguments only

    The template is read from left to right, as [str.format] does: text
    is copied, [{{] and [}}] give one brace, [{name}] is the value of the
    keyword argument [name].  A name that is empty or a number asks for a
    positional argument, and none is passed: [IndexError].  A name that
    is no keyword: [KeyError].  A brace on its own: [ValueError]. *)

Module Format.

Inductive state : Type :=
  | Text
  | Field (name : string).

Fixpoint assoc (k : string) (kw : list (string * string)) : option string :=
  match kw with
  | [] => None
  | (k', v) :: r => if String.eqb k k' then Some v else assoc k r
  end.

Definition get_field (kw : list (string * string)) (name : string)
  : result string :=
  if Str.all Str.is_digit name then inl IndexError
  else match assoc name kw with
       | Some v => inr v
       | None => inl (KeyError name)
       end.

Definition starts_advanced (c : ascii) : bool :=
  Str.mem c "{!:.[".

Section WithLib.
Context {L : PyLib}.

Fixpoint run (whole : string) (kw : list (string * string))
         (st : state) (out : string) (s : string) : result string :=
  match st, s with
  | Text, EmptyString => inr out
  | Text, String "{" (String "{" r) => run whole kw Text (out +:+ "{") r
  | Text, String "{" r => run whole kw (Field "") out r
  | Text, String "}" (String "}" r) => run whole kw Text (out +:+ "}") r
  | Text, String "}" _ => inl ValueError
  | Text, String c r => run whole kw Text (out +:+ String c "") r
  | Field _, EmptyString => inl ValueError
  | Field name, String "}" r =>
      match get_field kw name with
      | inl e => inl e
      | inr v => run whole kw Text (out +:+ v) r
      end
  | Field name, String c r =>
      if starts_advanced c then format_advanced whole kw
      else run whole kw (Field (name +:+ String c "")) out r
  end.

(** [template.format(...)] with the keyword arguments [kw] *)
Definition format (template : string) (kw : list (string * string))
  : result string :=
  run template kw Text "" template.

End WithLib.

End Format.

(** ** [pathlib.PurePosixPath]

    A path is its [parts] tuple: for an absolute path the first part is the
    root ["/"] (or ["//"]).  Parsing a string drops empty segments and
    ["."] segments and keeps [".."]: pathlib does not resolve it. *)

Abbreviation path := (list string).

Module PurePath.

Definition is_root (part : string) : bool := String.prefix "/" part.

Definition is_absolute (p : path) : bool :=
  match p with
  | r :: _ => is_root r
  | [] => false
  end.

Definition root_of (s : string) : path :=
  if String.prefix "//" s && negb (String.prefix "///" s) then ["//"]
  else if String.prefix "/" s then ["/"]
  else [].

Definition keep_segment (x : string) : bool :=
  negb (String.eqb x "") && negb (String.eqb x ".").

(** [PurePosixPath(s)] *)
Definition of_string (s : string) : path :=
  root_of s ++ List.filter keep_segment (Str.split "/" s).

(** [p / q] for a path [q] *)
Definition join (p q : path) : path :=
  if is_absolute q then q else p ++ q.

(** [p / s] for a string [s] *)
Definition joinpath (p : path) (s : string) : path := join p (of_string s).

(** [p.name] *)
Definition name (p : path) : string :=
  match List.rev p with
  | [] => ""
  | x :: _ => if is_root x then "" else x
  end.

(** [p.parent] *)
Definition parent (p : path) : path :=
  match List.rev p with
  | [] => p
  | x :: _ => if is_root x then p else removelast p
  end.

(** [p.suffix]: from the last dot of the name, unless that dot is the
    first or the last character. *)
Definition suffix (p : path) : string :=
  let n := name p in
  match Str.rfind "." n with
  | Some i => if ((0 <? i) && (i <? String.length n - 1))%nat
              then Str.drop i n else ""
  | None => ""
  end.

(** [p.stem] *)
Definition stem (p : path) : string :=
  let n := name p in
  match Str.rfind "." n with
  | Some i => if ((0 <? i) && (i <? String.length n - 1))%nat
              then Str.take i n else n
  | None => n
  end.

Fixpoint strip_prefix (pre p : path) : option path :=
  match pre, p with
  | [], _ => Some p
  | x :: pre', y :: p' => if String.eqb x y then strip_prefix pre' p' else None
  | _ :: _, [] => None
  end.

(** [p.relative_to(other)]: a comparison of parts, nothing is resolved.
    [ValueError] when the parts of [other] are not a prefix of the parts
    of [p]. *)
Definition relative_to (p other : path) : result path :=
  match other with
  | [] => if is_absolute p then inl ValueError else inr p
  | _ => match strip_prefix other p with
         | Some rest => inr rest
         | None => inl ValueError
         end
  end.

(** [p.is_relative_to(other)] *)
Definition is_relative_to (p other : path) : bool :=
  match relative_to p other with
  | inr _ => true
  | inl _ => false
  end.

(** [str(p)] *)
Definition to_string (p : path) : string :=
  match p with
  | [] => "."
  | r :: rest => if is_root r then r +:+ Str.join "/" rest
                 else Str.join "/" p
  end.

(** Where the operating system finds the path when every directory on
    the way exists and none is a symbolic link: each [".."] removes the
    segment before it ([os.path.normpath]).  Only the statement of the
    path-traversal guard uses it; the code does not. *)
Fixpoint normalize_acc (acc : path) (p : path) : path :=
  match p with
  | [] => List.rev acc
  | x :: r =>
      if String.eqb x ".." then
        match acc with
        | [] => normalize_acc [x] r
        | y :: acc' =>
            if is_root y then normalize_acc acc r
            else if String.eqb y ".." then normalize_acc (x :: acc) r
            else normalize_acc acc' r
        end
      else normalize_acc (x :: acc) r
  end.
Definition normalize (p : path) : path := normalize_acc [] p.

(** [p] names a location inside [root] (or [root] itself). *)
Definition inside (root p : path) : bool :=
  match strip_prefix (normalize root) (normalize p) with
  | Some _ => true
  | None => false
  end.

End PurePath.

(** ** A regular-expression engine for a fragment of Python's syntax

    Literals, [.], escapes, character sets, [^] and [$], groups (named,
    numbered and non-capturing), alternation, and the repetitions [*], [+]
    and [?], greedy or lazy.  The matcher backtracks the way [re] does:
    the first alternative first, the longest repetition first (the
    shortest, for a lazy one).  [\w], [\d] and [\s] are the ASCII classes,
    which is what they are on ASCII text.  An iteration of a repetition
    that consumes nothing is its last.  Counted repetitions [{m,n}],
    back-references, look-around, flags and the other escapes are outside
    of the fragment: [compile] refuses them. *)

Module ReFragment.

Inductive char_class : Type := Word | Digit | Space.

Inductive cset_item : Type :=
  | CChar (c : ascii)
  | CRange (lo hi : ascii)
  | CClass (neg : bool) (cls : char_class).

Inductive regex : Type :=
  | Empty
  | Chr (c : ascii)
  | Any
  | CSet (neg : bool) (items : list cset_item)
  | Seq (r1 r2 : regex)
  | Alt (r1 r2 : regex)
  | Star (greedy : bool) (r : regex)
  | Group (name : option string) (r : regex)
  | Bol
  | Eol.

(** *** [re.compile]: a recursive-descent parser *)

Definition class_escape (c : ascii) : option cset_item :=
  if Ascii.eqb c "w" then Some (CClass false Word)
  else if Ascii.eqb c "W" then Some (CClass true Word)
  else if Ascii.eqb c "d" then Some (CClass false Digit)
  else if Ascii.eqb c "D" then Some (CClass true Digit)
  else if Ascii.eqb c "s" then Some (CClass false Space)
  else if Ascii.eqb c "S" then Some (CClass true Space)
  else None.

(** An escaped character that stands for itself or for a control
    character; a letter or digit with no meaning here is refused. *)
Definition char_escape (c : ascii) : option ascii :=
  if Ascii.eqb c "n" then Some (ascii_of_nat 10)
  else if Ascii.eqb c "t" then Some (ascii_of_nat 9)
  else if Ascii.eqb c "r" then Some (ascii_of_nat 13)
  else if Str.is_alpha c || Str.is_digit c then None
  else Some c.

Definition escape_item (c : ascii) : option cset_item :=
  match class_escape c with
  | Some i => Some i
  | None => option_map CChar (char_escape c)
  end.

(** The items of a character set, up to the closing bracket.  A range
    goes from one character to another, each written as it is or escaped;
    a class such as [\w] is no end of a range, and the ends are in
    order. *)
Fixpoint p_items (acc : list cset_item) (s : string)
  : option (list cset_item * string) :=
  let range (lo hi : option ascii) : option cset_item :=
    match lo, hi with
    | Some a, Some b =>
        if (nat_of_ascii a <=? nat_of_ascii b)%nat
        then Some (CRange a b) else None
    | _, _ => None
    end in
  match s with
  | EmptyString => None
  | String "]" r => Some (List.rev acc, r)
  | String "\" EmptyString => None
  | String "\" (String c (String "-" (String "]" r))) =>
      match escape_item c with
      | Some i => Some (List.rev (CChar "-" :: i :: acc), r)
      | None => None
      end
  | String "\" (String _ (String "-" (String "\" EmptyString))) => None
  | String "\" (String c (String "-" (String "\" (String e r)))) =>
      match range (char_escape c) (char_escape e) with
      | Some i => p_items (i :: acc) r
      | None => None
      end
  | String "\" (String c (String "-" (String b r))) =>
      match range (char_escape c) (Some b) with
      | Some i => p_items (i :: acc) r
      | None => None
      end
  | String "\" (String c r) =>
      match escape_item c with
      | Some i => p_items (i :: acc) r
      | None => None
      end
  | String a (String "-" (String "]" r)) =>
      Some (List.rev (CChar "-" :: CChar a :: acc), r)
  | String _ (String "-" (String "\" EmptyString)) => None
  | String a (String "-" (String "\" (String e r))) =>
      match range (Some a) (char_escape e) with
      | Some i => p_items (i :: acc) r
      | None => None
      end
  | String a (String "-" (String b r)) =>
      match range (Some a) (Some b) with
      | Some i => p_items (i :: acc) r
      | None => None
      end
  | String a r => p_items (CChar a :: acc) r
  end.

(** A closing bracket that comes first stands for itself. *)
Definition p_set_body (neg : bool) (s : string) : option (regex * string) :=
  let items :=
    match s with
    | String "]" r => p_items [] (String "\" (String "]" r))
    | _ => p_items [] s
    end in
  match items with
  | Some (items, rest) => Some (CSet neg items, rest)
  | None => None
  end.

Definition p_set (s : string) : option (regex * string) :=
  match s with
  | String "^" r => p_set_body true r
  | _ => p_set_body false s
  end.

(** The name of a group, up to [>]. *)
Fixpoint p_name (acc : string) (s : string) : option (string * string) :=
  match s with
  | EmptyString => None
  | String ">" r => Some (acc, r)
  | String c r => p_name (acc +:+ String c "") r
  end.

Definition is_identifier (n : string) : bool :=
  match n with
  | EmptyString => false
  | String c _ => negb (Str.is_digit c) && Str.all Str.is_word n
  end.

Definition is_repeat (c : ascii) : bool := Str.mem c "*+?{".

Definition repeatable (r : regex) : bool :=
  match r with
  | Bol | Eol => false
  | _ => true
  end.

(** A repetition mark after the atom [a], if there is one. *)
Definition p_quant (a : regex) (s : string) : option (regex * string) :=
  let lazy_then (mk : bool -> regex) (r : string) :=
    let '(greedy, r') :=
      match r with
      | String "?" r' => (false, r')
      | _ => (true, r)
      end in
    match r' with
    | String c _ =>
        if is_repeat c then None else Some (mk greedy, r')
    | EmptyString => Some (mk greedy, r')
    end in
  match s with
  | String "*" r =>
      if repeatable a then lazy_then (fun g => Star g a) r else None
  | String "+" r =>
      if repeatable a then lazy_then (fun g => Seq a (Star g a)) r else None
  | String "?" r =>
      if repeatable a
      then lazy_then (fun g => if g then Alt a Empty else Alt Empty a) r
      else None
  | String "{" _ => None
  | _ => Some (a, s)
  end.

(** The names of the named groups, in the order they open; a group under
    [+] is there twice, as [a+] is read as [aa*]. *)
Fixpoint names (r : regex) : list string :=
  match r with
  | Seq a b | Alt a b => names a ++ names b
  | Star _ a => names a
  | Group (Some n) a => n :: names a
  | Group None a => names a
  | _ => []
  end.

(** No name of [a] is a name of [b]: a name is given to one group only. *)
Definition apart (a b : regex) : bool :=
  forallb (fun n => negb (existsb (String.eqb n) (names b))) (names a).

Definition expect_close (x : option (regex * string)) (mk : regex -> regex)
  : option (regex * string) :=
  match x with
  | Some (r, String ")" rest) => Some (mk r, rest)
  | _ => None
  end.

Fixpoint p_alt (fuel : nat) (s : string) : option (regex * string) :=
  match fuel with
  | 0 => None
  | S n =>
      match p_seq n s with
      | Some (r1, String "|" rest) =>
          match p_alt n rest with
          | Some (r2, rest') =>
              if apart r1 r2 then Some (Alt r1 r2, rest') else None
          | None => None
          end
      | other => other
      end
  end
with p_seq (fuel : nat) (s : string) : option (regex * string) :=
  match fuel with
  | 0 => None
  | S n =>
      match s with
      | EmptyString => Some (Empty, s)
      | String "|" _ => Some (Empty, s)
      | String ")" _ => Some (Empty, s)
      | _ =>
          match p_atom n s with
          | Some (a, rest) =>
              match p_quant a rest with
              | Some (aq, rest2) =>
                  match p_seq n rest2 with
                  | Some (r, rest3) =>
                      if apart aq r then Some (Seq aq r, rest3) else None
                  | None => None
                  end
              | None => None
              end
          | None => None
          end
      end
  end
with p_atom (fuel : nat) (s : string) : option (regex * string) :=
  match fuel with
  | 0 => None
  | S n =>
      match s with
      | EmptyString => None
      | String "(" (String "?" (String "P" (String "<" r))) =>
          match p_name "" r with
          | Some (nm, body) =>
              if is_identifier nm
              then match p_alt n body with
                   | Some (r, String ")" rest) =>
                       if existsb (String.eqb nm) (names r) then None
                       else Some (Group (Some nm) r, rest)
                   | _ => None
                   end
              else None
          | None => None
          end
      | String "(" (String "?" (String ":" r)) =>
          expect_close (p_alt n r) (fun x => x)
      | String "(" (String "?" _) => None
      | String "(" r => expect_close (p_alt n r) (Group None)
      | String "[" r => p_set r
      | String "\" (String c r) =>
          match class_escape c with
          | Some i => Some (CSet false [i], r)
          | None => option_map (fun d => (Chr d, r)) (char_escape c)
          end
      | String "\" EmptyString => None
      | String "." r => Some (Any, r)
      | String "^" r => Some (Bol, r)
      | String "$" r => Some (Eol, r)
      | String c r => if is_repeat c then None else Some (Chr c, r)
      end
  end.

(** [re.compile(pattern)]; [None] is [re.error]: a syntax error, a group
    name used twice, or syntax outside the fragment. *)
Definition compile (pattern : string) : option regex :=
  match p_alt (3 * String.length pattern + 8) pattern with
  | Some (r, EmptyString) => Some r
  | _ => None
  end.

(** *** [Pattern.match]: a backtracking matcher

    [run r pos s g k]: match [r] against [s], the input from position
    [pos] on, with the groups [g] captured so far, and go on with [k];
    [None] makes the caller take its next choice. *)

Definition in_class (cls : char_class) (c : ascii) : bool :=
  match cls with
  | Word => Str.is_word c
  | Digit => Str.is_digit c
  | Space => Str.is_space c
  end.

Definition in_item (c : ascii) (i : cset_item) : bool :=
  match i with
  | CChar d => Ascii.eqb c d
  | CRange lo hi =>
      ((nat_of_ascii lo <=? nat_of_ascii c) &&
       (nat_of_ascii c <=? nat_of_ascii hi))%nat
  | CClass neg cls => xorb neg (in_class cls c)
  end.

Definition in_set (neg : bool) (items : list cset_item) (c : ascii) : bool :=
  xorb neg (existsb (in_item c) items).

Definition newline : ascii := ascii_of_nat 10.

Definition capture (name : option string) (text : string)
           (g : gmap string (option string)) : gmap string (option string) :=
  match name with
  | Some n => <[n := Some text]> g
  | None => g
  end.

(** A repetition of [body], at most [n] more times.  An iteration that
    consumes nothing is the last one: what it captured stays, and the
    rest of the pattern follows.  Every other iteration consumes a
    character, so one more than the length of the input is enough. *)
Definition star_loop
           (body : nat -> string -> gmap string (option string)
                   -> (nat -> string -> gmap string (option string)
                       -> option (gmap string (option string)))
                   -> option (gmap string (option string)))
           (greedy : bool)
           (k : nat -> string -> gmap string (option string)
                -> option (gmap string (option string)))
  : nat -> nat -> string -> gmap string (option string)
    -> option (gmap string (option string)) :=
  fix loop (n : nat) (pos : nat) (s : string)
           (g : gmap string (option string)) {struct n} :=
    match n with
    | 0 => k pos s g
    | S n' =>
        let more :=
          body pos s g
               (fun pos' s' g' =>
                  if (pos' =? pos)%nat then k pos' s' g'
                  else loop n' pos' s' g') in
        if greedy then
          match more with
          | Some x => Some x
          | None => k pos s g
          end
        else
          match k pos s g with
          | Some x => Some x
          | None => more
          end
    end.

Fixpoint run (r : regex) (pos : nat) (s : string)
         (g : gmap string (option string))
         (k : nat -> string -> gmap string (option string)
              -> option (gmap string (option string)))
         {struct r} : option (gmap string (option string)) :=
  match r with
  | Empty => k pos s g
  | Chr c =>
      match s with
      | String d s' => if Ascii.eqb c d then k (S pos) s' g else None
      | EmptyString => None
      end
  | Any =>
      match s with
      | String d s' => if Ascii.eqb d newline then None else k (S pos) s' g
      | EmptyString => None
      end
  | CSet neg items =>
      match s with
      | String d s' => if in_set neg items d then k (S pos) s' g else None
      | EmptyString => None
      end
  | Seq a b => run a pos s g (fun pos' s' g' => run b pos' s' g' k)
  | Alt a b =>
      match run a pos s g k with
      | Some x => Some x
      | None => run b pos s g k
      end
  | Star greedy a => star_loop (run a) greedy k (S (String.length s)) pos s g
  | Group name a =>
      run a pos s g
          (fun pos' s' g' => k pos' s' (capture name (Str.take (pos' - pos) s) g'))
  | Bol => if (pos =? 0)%nat then k pos s g else None
  | Eol =>
      match s with
      | EmptyString => k pos s g
      | String d EmptyString => if Ascii.eqb d newline then k pos s g else None
      | _ => None
      end
  end.

(** Every named group starts out as [None]. *)
Definition no_groups (r : regex) : gmap string (option string) :=
  list_to_map ((fun n => (n, None)) <$> names r).

(** [p.match(s)]: a match that starts at the first character and may
    end anywhere. *)
Definition match_ (r : regex) (s : string)
  : option (gmap string (option string)) :=
  run r 0 s (no_groups r) (fun _ _ g => Some g).

(** [p.fullmatch(s)]: a match of the whole of [s]; what a pattern
    anchored at both ends accepts. *)
Definition fullmatch (r : regex) (s : string)
  : option (gmap string (option string)) :=
  run r 0 s (no_groups r)
      (fun _ s' g => match s' with EmptyString => Some g | _ => None end).

(** A continuation that hands on only dictionaries with the keys [D]. *)
Definition keeps_keys (D : gset string)
           (k : nat -> string -> gmap string (option string)
                -> option (gmap string (option string))) : Prop :=
  forall pos s g gf, dom g = D -> k pos s g = Some gf -> dom gf = D.

(** *** What a match is

    [matches r pos s pos' s']: the pattern [r] matches the piece of the
    input between position [pos], where [s] is still to read, and
    position [pos'], where [s'] is left.  Which of several matches the
    engine finds, and what the groups hold, is not said here. *)
Inductive matches : regex -> nat -> string -> nat -> string -> Prop :=
  | m_empty pos s : matches Empty pos s pos s
  | m_chr c pos s : matches (Chr c) pos (String c s) (S pos) s
  | m_any d pos s :
      Ascii.eqb d newline = false -> matches Any pos (String d s) (S pos) s
  | m_set neg items d pos s :
      in_set neg items d = true ->
      matches (CSet neg items) pos (String d s) (S pos) s
  | m_seq a b pos s pos1 s1 pos2 s2 :
      matches a pos s pos1 s1 -> matches b pos1 s1 pos2 s2 ->
      matches (Seq a b) pos s pos2 s2
  | m_alt_l a b pos s pos' s' :
      matches a pos s pos' s' -> matches (Alt a b) pos s pos' s'
  | m_alt_r a b pos s pos' s' :
      matches b pos s pos' s' -> matches (Alt a b) pos s pos' s'
  | m_star_stop greedy a pos s : matches (Star greedy a) pos s pos s
  | m_star_more greedy a pos s pos1 s1 pos2 s2 :
      matches a pos s pos1 s1 -> pos1 <> pos ->
      matches (Star greedy a) pos1 s1 pos2 s2 ->
      matches (Star greedy a) pos s pos2 s2
  | m_group name a pos s pos' s' :
      matches a pos s pos' s' -> matches (Group name a) pos s pos' s'
  | m_bol s : matches Bol 0 s 0 s
  | m_eol_end pos : matches Eol pos "" pos ""
  | m_eol_newline pos :
      matches Eol pos (String newline "") pos (String newline "").

(** The pattern has an end anchor somewhere. *)
Fixpoint has_eol (r : regex) : bool :=
  match r with
  | Eol => true
  | Seq a b | Alt a b => has_eol a || has_eol b
  | Star _ a | Group _ a => has_eol a
  | _ => false
  end.

(** The pattern ends in an end anchor: every match of it ends at [$]. *)
Fixpoint ends_with_eol (r : regex) : bool :=
  match r with
  | Eol => true
  | Seq a Empty => ends_with_eol a
  | Seq _ b => ends_with_eol b
  | Alt a b => ends_with_eol a && ends_with_eol b
  | Group _ a => ends_with_eol a
  | _ => false
  end.

(** The pattern names ASCII characters only.  On ASCII patterns and
    ASCII text the classes above are Python's. *)
Definition ascii_item (i : cset_item) : bool :=
  match i with
  | CChar c => Str.is_ascii c
  | CRange lo hi => Str.is_ascii lo && Str.is_ascii hi
  | CClass _ _ => true
  end.

Fixpoint ascii_only (r : regex) : bool :=
  match r with
  | Chr c => Str.is_ascii c
  | CSet _ items => forallb ascii_item items
  | Seq a b | Alt a b => ascii_only a && ascii_only b
  | Star _ a | Group _ a => ascii_only a
  | _ => true
  end.

(** The continuations of [run], and those whose success does not depend
    on the groups. *)
Definition cont : Type :=
  nat -> string -> gmap string (option string)
  -> option (gmap string (option string)).

Definition blind (k : cont) : Prop :=
  forall pos s g1 g2, is_Some (k pos s g1) -> is_Some (k pos s g2).

(** The engine finds a match of [r] exactly when there is one. *)
Definition run_spec (r : regex) : Prop :=
  forall pos s g k,
    blind k ->
    (is_Some (run r pos s g k) <->
     exists pos' s', matches r pos s pos' s' /\ is_Some (k pos' s' g)).

End ReFragment.

(** The fragment as an instance of the library.  Templates with advanced
    replacement fields are outside it. *)
#[local] Instance re_fragment : PyLib := {|
  Pattern := ReFragment.regex;
  re_compile := fun pattern =>
    match ReFragment.compile pattern with
    | Some r => inr r
    | None => inl ReError
    end;
  re_groupindex := fun r => list_to_set (ReFragment.names r);
  re_match := ReFragment.match_;
  format_advanced := fun _ _ => inl (OtherError "NotImplementedError");
|}.


(** ** [parsers.py] *)

Record ParsedFilename : Type := {
  module : string;
  category : string;
  feature : string;
  variant : option string;
  extension : option string;   (* annotated [str]; holds what [get] returned *)
  original_name : string;
}.

Module FilenameParser.

(** The parser object; [P] is the type of compiled patterns. *)
Record t (P : Type) : Type := { pattern : P }.
Arguments pattern {P} _.

Section WithLib.
Context {L : PyLib}.

Definition required_groups : gset string :=
  {[ "module"; "category"; "feature" ]}.

(** [FilenameParser.__init__] *)
Definition init (pattern : string) : result (t Pattern) :=
  match re_compile pattern with
  | inl ReError => inl (ParseError "无效的正则表达式")
  | inl e => inl e
  | inr p =>
      if bool_decide (required_groups ⊆ re_groupindex p)
      then inr {| pattern := p |}
      else inl (ParseError "正则表达式缺少必需的命名组")
  end.

(** [groups.get(key)] *)
Definition get (groups : gmap string (option string)) (key : string)
  : option string :=
  default None (groups !! key).

(** [groups.get('ext', groups.get('extension', ''))] *)
Definition get_extension (groups : gmap string (option string))
  : option string :=
  default (default (Some "") (groups !! "extension")) (groups !! "ext").

(** [FilenameParser.parse] *)
Definition parse (self : t Pattern) (filename : string)
  : result ParsedFilename :=
  match re_match (pattern self) filename with
  | None => inl (ParseError ("文件名不匹配格式：" +:+ filename))
  | Some groups =>
      let module := get groups "module" in
      let category := get groups "category" in
      let feature := get groups "feature" in
      let variant := get groups "variant" in
      let extension := get_extension groups in
      match module, category, feature with
      | Some (String m0 m), Some (String c0 c), Some (String f0 f) =>
          inr {| module := String m0 m;
                 category := String c0 c;
                 feature := String f0 f;
                 variant := variant;
                 extension := extension;
                 original_name := filename |}
      | _, _, _ => inl (ParseError ("文件名缺少必需组件：" +:+ filename))
      end
  end.

End WithLib.
End FilenameParser.

(** ** [core/path_generator.py] *)

Module PathGenerator.

Record t : Type := { path_template : string; asset_root : string }.

Definition init (path_template asset_root : string) : t :=
  {| path_template := path_template; asset_root := asset_root |}.

Definition fields (parsed : ParsedFilename) : list (string * string) :=
  [("module", module parsed);
   ("category", category parsed);
   ("feature", feature parsed)].

(** [PathGenerator.generate] *)
Definition generate {L : PyLib} (self : t) (parsed : ParsedFilename)
           (repo_base : path) : result path :=
  match Format.format (path_template self) (fields parsed) with
  | inl e => inl e
  | inr rel_dir =>
      let full_dir :=
        PurePath.joinpath (PurePath.joinpath repo_base (asset_root self))
                          rel_dir in
      let full_path := PurePath.joinpath full_dir (original_name parsed) in
      inr full_path
  end.

(** [unsafe_chars]: less-than, greater-than, colon, double quote, bar,
    question mark, star, backslash and slash, in the order the loop
    visits them. *)
Definition unsafe_chars : list ascii :=
  ["<"; ">"; ":"; ascii_of_nat 34; "|"; "?"; "*"; "\"; "/"]%char.

(** [PathGenerator.sanitize_path_component] *)
Definition sanitize_path_component (component : string) : string :=
  let component :=
    fold_left (fun acc char => Str.replace char "_" acc) unsafe_chars
              component in
  if (100 <? Str.len component)%nat
  then Str.head 100 component
  else component.

End PathGenerator.

(** ** [core/config.py]: the settings the pipeline reads *)

Module Config.

Record t : Type := {
  workspace_base : path;
  commit_template : option string;   (* [git.commit_template], if set *)
  path_template : string;
  asset_root : string;
  naming_pattern : string;
  naming_example : string;
}.

Definition inbox (c : t) : path := PurePath.joinpath (workspace_base c) "inbox".
Definition repo (c : t) : path := PurePath.joinpath (workspace_base c) ".repo".
Definition failed (c : t) : path := PurePath.joinpath (workspace_base c) "failed".
Definition logs (c : t) : path := PurePath.joinpath (workspace_base c) "logs".

Definition git_commit_template (c : t) : string :=
  default "Update {category}: {feature}" (commit_template c).

End Config.

(** [constants.py] *)
Definition LF : string := String (ascii_of_nat 10) "".
Definition DEFAULT_COMMIT_TEMPLATE : string :=
  "feat(assets): Add {category}" +:+ LF +:+ LF +:+
  "Feature: {feature}" +:+ LF +:+
  "Files: {file_count}" +:+ LF +:+ LF +:+
  "{file_list}".

(** ** [core/config.py]: the configuration as [yaml.safe_load] reads it

    The values of a YAML document.  Of a float, a date or a set the code
    can only ask whether it is true; the keys of a mapping that are no
    strings are left out, no lookup of the code can find them. *)

Unset Elimination Schemes.
Inductive yaml : Type :=
  | YNone
  | YBool (b : bool)
  | YInt (n : Z)
  | YStr (s : string)
  | YBytes (b : string)
  | YList (items : list yaml)
  | YDict (entries : list (string * yaml))
  | YOther (truth : bool).
Set Elimination Schemes.

Module ConfigFile.

(** The value a dictionary binds to a key. *)
Fixpoint entry (entries : list (string * yaml)) (key : string) : option yaml :=
  match entries with
  | [] => None
  | (k, v) :: rest => if String.eqb key k then Some v else entry rest key
  end.

(** [bool(v)] *)
Definition truthy (v : yaml) : bool :=
  match v with
  | YNone => false
  | YBool b => b
  | YInt n => negb (n =? 0)%Z
  | YStr s => negb (String.eqb s "")
  | YBytes b => negb (String.eqb b "")
  | YList items => match items with [] => false | _ => true end
  | YDict entries => match entries with [] => false | _ => true end
  | YOther truth => truth
  end.

(** [v.get(key, default)]: only a dictionary has [get]. *)
Definition get (v : yaml) (key : string) (default : yaml) : result yaml :=
  match v with
  | YDict entries =>
      inr (match entry entries key with Some x => x | None => default end)
  | _ => inl (OtherError "AttributeError")
  end.

(** [v[key]] for a string [key] *)
Definition subscript (v : yaml) (key : string) : result yaml :=
  match v with
  | YDict entries =>
      match entry entries key with
      | Some x => inr x
      | None => inl (KeyError key)
      end
  | _ => inl (OtherError "TypeError")
  end.

(** The loop of [Config._get_nested]. *)
Fixpoint walk (value : yaml) (keys : list string) : yaml :=
  match keys with
  | [] => value
  | key :: rest =>
      match value with
      | YDict entries =>
          walk (match entry entries key with Some x => x | None => YNone end) rest
      | _ => YNone
      end
  end.

(** [Config._get_nested] *)
Definition _get_nested (data : yaml) (key_path : string) : yaml :=
  walk data (Str.split "." key_path).

(** [required_fields], in the order the dictionary is written. *)
Definition required_fields : list (string * string) :=
  [("project.name", "项目名称");
   ("git.repository", "Git仓库地址");
   ("path_template", "路径模板");
   ("naming.pattern", "命名规则")].

(** The loop of [Config._validate_basic] over the required fields. *)
Fixpoint check_required (data : yaml) (fields : list (string * string))
  : result unit :=
  match fields with
  | [] => inr tt
  | (field, desc) :: rest =>
      if negb (truthy (_get_nested data field))
      then inl (ConfigError ("配置缺少必需字段：" +:+ desc +:+
                             " (" +:+ field +:+ ")"))
      else check_required data rest
  end.

(** The properties of [Config]. *)
Definition project_name (data : yaml) : result yaml :=
  match subscript data "project" with
  | inl e => inl e
  | inr project => subscript project "name"
  end.

Definition git_url (data : yaml) : result yaml :=
  match subscript data "git" with
  | inl e => inl e
  | inr git => subscript git "repository"
  end.

Definition git_branch (data : yaml) : result yaml :=
  match get data "git" (YDict []) with
  | inl e => inl e
  | inr git => get git "branch" (YStr "main")
  end.

Definition git_commit_template (data : yaml) : result yaml :=
  match get data "git" (YDict []) with
  | inl e => inl e
  | inr git => get git "commit_template" (YStr "Update {category}: {feature}")
  end.

Definition path_template (data : yaml) : result yaml :=
  subscript data "path_template".

Definition asset_root (data : yaml) : result yaml :=
  match subscript data "project" with
  | inl e => inl e
  | inr project => get project "asset_root" (YStr "Assets/GameRes/")
  end.

Definition naming_pattern (data : yaml) : result yaml :=
  match subscript data "naming" with
  | inl e => inl e
  | inr naming => subscript naming "pattern"
  end.

Definition naming_example (data : yaml) : result yaml :=
  match subscript data "naming" with
  | inl e => inl e
  | inr naming => get naming "example" (YStr "")
  end.

Definition language (data : yaml) : result yaml :=
  get data "language" (YStr "zh-CN").

(** The test of the repository address: [startswith] of two prefixes. *)
Definition supported (url : string) : bool :=
  String.prefix "https://github.com" url || String.prefix "https://gitee.com" url.

(** [Config._validate_basic].  [startswith] with a string argument
    answers on a string, raises [TypeError] on a byte string, and is
    missing on every other value. *)
Definition _validate_basic (data : yaml) : result unit :=
  match check_required data required_fields with
  | inl e => inl e
  | inr _ =>
      match git_url data with
      | inl e => inl e
      | inr (YStr url) =>
          if negb (supported url)
          then inl (ConfigError ("不支持的Git仓库地址：" +:+ url))
          else inr tt
      | inr (YBytes _) => inl (OtherError "TypeError")
      | inr _ => inl (OtherError "AttributeError")
      end
  end.

Section WithResolve.

(** [Path.resolve()]: the absolute path the operating system gives for a
    path, with the current directory and the links it knows. *)
Variable resolve : path -> path.

(** [Config._resolve_paths]: the base of the workspace.  [Path(base)]
    takes a string only. *)
Definition _resolve_paths (data : yaml) (config_file : path) : result path :=
  match get data "workspace" (YDict []) with
  | inl e => inl e
  | inr workspace =>
      match get workspace "base" (YStr "./") with
      | inl e => inl e
      | inr (YStr base) =>
          if negb (PurePath.is_absolute (PurePath.of_string base))
          then inr (resolve (PurePath.join (PurePath.parent config_file)
                                           (PurePath.of_string base)))
          else inr (PurePath.of_string base)
      | inr _ => inl (OtherError "TypeError")
      end
  end.

(** The object [Config(config_dict, config_file)] builds. *)
Record t : Type := {
  data : yaml;
  config_file : path;
  workspace_base : path;
}.

(** [Config.__init__] *)
Definition init (config_dict : yaml) (config_file : path) : result t :=
  match _resolve_paths config_dict config_file with
  | inl e => inl e
  | inr base =>
      match _validate_basic config_dict with
      | inl e => inl e
      | inr _ => inr {| data := config_dict; config_file := config_file;
                        workspace_base := base |}
      end
  end.

End WithResolve.

End ConfigFile.

(** ** The filesystem

    A finite map from paths to nodes.  The current directory (the empty
    path) and the root always exist.  Paths are looked up by their parts:
    a [".."] segment is a name like any other here, and there are no
    symbolic links, permissions or devices.  The map agrees with the
    operating system on the paths that are [canonical] (absolute, with no
    [".."], [""] or ["."] segment); what is proved of a move or of a
    [mkdir] is stated for such paths where it depends on it. *)

Inductive node : Type :=
  | File (content : string)
  | Dir.

#[local] Instance node_eq_dec : EqDecision node.
Proof. solve_decision. Defined.

Abbreviation FS := (gmap path node).

Module Fs.

Definition fixed (p : path) : bool :=
  match p with
  | [] => true
  | [r] => PurePath.is_root r
  | _ => false
  end.

Definition lookup (fs : FS) (p : path) : option node :=
  if fixed p then Some Dir else fs !! p.

(** [os.path.exists], [os.path.isdir] *)
Definition exists_ (fs : FS) (p : path) : bool :=
  match lookup fs p with Some _ => true | None => false end.
Definition is_dir (fs : FS) (p : path) : bool :=
  match lookup fs p with Some Dir => true | _ => false end.

Definition path_eqb (p q : path) : bool := bool_decide (p = q).

(** [os.mkdir] *)
Definition os_mkdir (fs : FS) (p : path) : (errno + FS) :=
  match lookup fs p with
  | Some _ => inl EEXIST
  | None =>
      match lookup fs (PurePath.parent p) with
      | Some Dir => inr (<[p := Dir]> fs)
      | Some (File _) => inl ENOTDIR
      | None => inl ENOENT
      end
  end.

(** [Path.mkdir(parents=False, exist_ok=True)] *)
Definition mkdir_exist_ok (fs : FS) (p : path) : (errno + FS) :=
  match os_mkdir fs p with
  | inr fs' => inr fs'
  | inl ENOENT => inl ENOENT
  | inl e => if is_dir fs p then inr fs else inl e
  end.

(** [Path.mkdir(parents=True, exist_ok=True)], as pathlib writes it: try
    [os.mkdir]; when the parent is missing, make the parent the same
    way and try once more; any other error is forgiven when the path
    is a directory already.  The fuel is the length of the path. *)
Fixpoint mkdir_parents_fuel (fuel : nat) (fs : FS) (p : path) : (errno + FS) :=
  match os_mkdir fs p with
  | inr fs' => inr fs'
  | inl ENOENT =>
      if path_eqb (PurePath.parent p) p then inl ENOENT
      else
        match fuel with
        | 0 => inl ENOENT
        | S n =>
            match mkdir_parents_fuel n fs (PurePath.parent p) with
            | inl e => inl e
            | inr fs1 => mkdir_exist_ok fs1 p
            end
        end
  | inl e => if is_dir fs p then inr fs else inl e
  end.

Definition mkdir_parents (fs : FS) (p : path) : (errno + FS) :=
  mkdir_parents_fuel (length p) fs p.

Definition below (p k : path) : bool :=
  match PurePath.strip_prefix p k with
  | Some (_ :: _) => true
  | _ => false
  end.

Definition has_children (fs : FS) (p : path) : bool :=
  existsb (fun kv => below p (fst kv)) (map_to_list fs).

(** The tree at [src] re-rooted at [dst]. *)
Definition rekey (src dst : path) (k : path) : path :=
  match PurePath.strip_prefix src k with
  | Some rest => dst ++ rest
  | None => k
  end.
Definition move_tree (fs : FS) (src dst : path) : FS :=
  list_to_map ((fun kv => (rekey src dst (fst kv), snd kv)) <$> map_to_list fs).

(** [os.rename] (POSIX [rename]) *)
Definition os_rename (fs : FS) (src dst : path) : (errno + FS) :=
  match lookup fs src with
  | None => inl ENOENT
  | Some (File c) =>
      if path_eqb src dst then inr fs
      else
        match lookup fs dst with
        | Some Dir => inl EISDIR
        | _ =>
            match lookup fs (PurePath.parent dst) with
            | Some Dir => inr (<[dst := File c]> (delete src fs))
            | Some (File _) => inl ENOTDIR
            | None => inl ENOENT
            end
        end
  | Some Dir =>
      if path_eqb src dst then inr fs
      else if fixed src then inl EBUSY
      else if below src dst then inl EINVAL
      else
        match lookup fs dst with
        | Some (File _) => inl ENOTDIR
        | Some Dir =>
            if has_children fs dst then inl ENOTEMPTY
            else inr (move_tree (delete dst fs) src dst)
        | None =>
            match lookup fs (PurePath.parent dst) with
            | Some Dir => inr (move_tree fs src dst)
            | Some (File _) => inl ENOTDIR
            | None => inl ENOENT
            end
        end
  end.

(** What [shutil.move] does when [os.rename] fails.  A file is copied
    and removed, which fails where the rename did.  A directory is
    copied with [copytree], which first makes the destination and its
    missing parents, and is then removed. *)
Definition move_fallback (fs : FS) (src real_dst : path) (e : errno)
  : (errno + FS) :=
  match lookup fs src with
  | Some Dir =>
      if below src real_dst || path_eqb src real_dst then inl ShutilError
      else if exists_ fs real_dst then inl EEXIST
      else
        match mkdir_parents fs (PurePath.parent real_dst) with
        | inl e' => inl e'
        | inr fs1 =>
            match os_rename fs1 src real_dst with
            | inl e' => inl e'
            | inr fs2 => inr fs2
            end
        end
  | _ => inl e
  end.

(** [shutil.move(src, dst)] *)
Definition shutil_move (fs : FS) (src dst : path) : (errno + FS) :=
  let go (real_dst : path) :=
    match os_rename fs src real_dst with
    | inr fs' => inr fs'
    | inl e => move_fallback fs src real_dst e
    end in
  if is_dir fs dst then
    if path_eqb src dst then os_rename fs src dst
    else
      let real_dst := PurePath.joinpath dst (PurePath.name src) in
      if exists_ fs real_dst then inl ShutilError else go real_dst
  else go dst.

End Fs.

(** ** The outside of the process

    [subprocess.run(argv, cwd=...)] runs an executable.  What it answers,
    what it does to the files and how the rest of the world (the remote
    repository, the network) changes is not the code's to decide: it is a
    function of the host.  Its answer is a finished process, or the
    exception [subprocess.run] raises before any exit status exists (the
    executable or the directory is missing). *)

Record CompletedProcess : Type := {
  returncode : nat;
  stdout : string;
  stderr : string;
}.

Class Host : Type := {
  Outside : Type;
  subprocess_run :
    list string -> path -> FS -> Outside -> result CompletedProcess * FS * Outside;
}.

(** [datetime.now()] *)
Record datetime : Type := {
  year : nat; month : nat; day : nat;
  hour : nat; minute : nat; second : nat;
}.

(** [d.strftime("%Y%m%d_%H%M%S")] *)
Definition strftime (d : datetime) : string :=
  Str.pad4 (year d) +:+ Str.pad2 (month d) +:+ Str.pad2 (day d) +:+ "_" +:+
  Str.pad2 (hour d) +:+ Str.pad2 (minute d) +:+ Str.pad2 (second d).

(** What [process] prints, one constructor per [print] of the source. *)
Inductive report : Type :=
  | Succeeded (name : string)               (* 成功：{file_path.name} *)
  | Target (rel : path)                     (* 目标：{target_path.relative_to(...)} *)
  | ProcessFailed (e : exception)           (* 错误：处理失败：{e} *)
  | UnknownError (e : exception)            (* 错误：未知错误：{e} *)
  | MovedBackToInbox (e : exception)        (* 警告：Git操作失败，文件已移回inbox：{error} *)
  | GitFailed (e : exception)               (* 错误：Git操作失败：{error} *)
  | CannotRecover (e : exception)           (* 错误：严重错误：无法恢复文件 - {e} *)
  | MovedToFailed (failed_path : path)      (* 文件已移至失败目录：{failed_path} *)
  | CannotMoveToFailed (e : exception)      (* 警告：无法移动到失败目录：{e} *)
  | Processing (i n : nat) (name : string). (* [{i}/{len(files)}] 处理：{file_path.name} *)

(** The world a computation runs in; [O] is the host's type of outsides. *)
Record WorldOf (O : Type) : Type := {
  fs : FS;
  outside : O;
  now : datetime;
  git_calls : list (list string);   (* the arguments of every [git] run, oldest first *)
  printed : list report;            (* oldest first *)
}.
Arguments fs {O} _.
Arguments outside {O} _.
Arguments now {O} _.
Arguments git_calls {O} _.
Arguments printed {O} _.

Abbreviation World := (WorldOf Outside).

(** ** Computations that read and change the world and may raise *)

Definition M {H : Host} (A : Type) : Type := World -> result A * World.

Definition ret {H : Host} {A} (a : A) : M A := fun w => (inr a, w).

Definition raise {H : Host} {A} (e : exception) : M A := fun w => (inl e, w).

Definition bind {H : Host} {A B} (m : M A) (k : A -> M B) : M B :=
  fun w =>
    match m w with
    | (inr a, w') => k a w'
    | (inl e, w') => (inl e, w')
    end.

(** [try: body  except ...: handler]: the handler answers [None] for an
    exception no clause names, which then goes on to the caller. *)
Definition try_except {H : Host} {A} (body : M A)
           (handler : exception -> option (M A)) : M A :=
  fun w =>
    match body w with
    | (inr a, w') => (inr a, w')
    | (inl e, w') =>
        match handler e with
        | Some h => h w'
        | None => (inl e, w')
        end
    end.

(** A pure computation, run where it stands. *)
Definition lift {H : Host} {A} (r : result A) : M A :=
  fun w => (r, w).

Declare Scope py_scope.
Delimit Scope py_scope with py.
Notation "'let*' x ':=' m 'in' k" := (bind m (fun x => k))
  (at level 10, x name, m at level 100, k at level 200) : py_scope.
Notation "m ';;;' k" := (bind m (fun _ => k))
  (at level 100, k at level 200, right associativity) : py_scope.
Open Scope py_scope.

(** [print] adds a line to what was printed.  The model's [print] always
    returns: the terminal is taken to show every text.  The builtin can
    raise ([UnicodeEncodeError] for a name the terminal's encoding does
    not have, [OSError] for a closed stream); such a terminal is outside
    of the model, and so is what [process] does when a [print] inside one
    of its handlers raises. *)
Definition print {H : Host} (r : report) : M unit :=
  fun w =>
    (inr tt, {| fs := fs w; outside := outside w; now := now w;
                git_calls := git_calls w; printed := printed w ++ [r] |}).

Definition datetime_now {H : Host} : M datetime := fun w => (inr (now w), w).

(** A filesystem call: the files change, or [OSError] is raised. *)
Definition fs_call {H : Host} (f : FS -> errno + FS) : M unit :=
  fun w =>
    match f (fs w) with
    | inr fs' =>
        (inr tt, {| fs := fs'; outside := outside w; now := now w;
                    git_calls := git_calls w; printed := printed w |})
    | inl e => (inl (OSError e), w)
    end.

(** [p.exists()] *)
Definition path_exists {H : Host} (p : path) : M bool :=
  fun w => (inr (Fs.exists_ (fs w) p), w).

(** [p.mkdir(parents=True, exist_ok=True)] *)
Definition mkdir {H : Host} (p : path) : M unit :=
  fs_call (fun fs => Fs.mkdir_parents fs p).

(** [shutil.move(str(src), str(dst))] *)
Definition shutil_move {H : Host} (src dst : path) : M unit :=
  fs_call (fun fs => Fs.shutil_move fs src dst).

(** [Config.ensure_dirs] *)
Definition ensure_dirs {H : Host} (c : Config.t) : M unit :=
  mkdir (Config.inbox c) ;;;
  mkdir (Config.failed c) ;;;
  mkdir (Config.logs c).

(** ** [core/git_repo.py] *)

Module GitRepo.
Section WithHost.
Context {H : Host}.

Record t : Type := { repo_path : path }.

Definition init (repo_path : path) : t := {| repo_path := repo_path |}.

(** [GitRepo.exists] *)
Definition exists_ (self : t) : M bool :=
  path_exists (PurePath.joinpath (repo_path self) ".git").

(** [GitRepo._run_git]: [subprocess.run(['git'] + args, cwd=...,
    check=True, capture_output=True, text=True)].  With [check=True]
    an exit status other than zero is [CalledProcessError]. *)
Definition _run_git (self : t) (args : list string) : M CompletedProcess :=
  fun w =>
    let '(r, fs', outside') :=
      subprocess_run ("git" :: args) (repo_path self) (fs w) (outside w) in
    let w' := {| fs := fs'; outside := outside'; now := now w;
                 git_calls := git_calls w ++ [args];
                 printed := printed w |} in
    match r with
    | inl e => (inl e, w')
    | inr p =>
        if (returncode p =? 0)%nat then (inr p, w')
        else (inl (CalledProcessError (returncode p) (stdout p) (stderr p)), w')
    end.

(** [except subprocess.CalledProcessError as e: raise GitError(f"...{e.stderr}")] *)
Definition on_called_process_error {A} (prefix : string) (e : exception)
  : option (M A) :=
  match e with
  | CalledProcessError _ _ err => Some (raise (GitError (prefix +:+ err)))
  | _ => None
  end.

(** [GitRepo.pull] *)
Definition pull (self : t) : M unit :=
  try_except (_run_git self ["pull"] ;;; ret tt)
             (on_called_process_error "Pull失败：").

(** [GitRepo.add] *)
Definition add (self : t) (file_path : path) : M unit :=
  try_except
    (let* rel_path := lift (PurePath.relative_to file_path (repo_path self)) in
     _run_git self ["add"; PurePath.to_string rel_path] ;;;
     ret tt)
    (fun e =>
       if is_ValueError e
       then Some (raise (GitError ("文件不在仓库中：" +:+
                                   PurePath.to_string file_path)))
       else on_called_process_error "Add失败：" e).

(** [GitRepo.commit] *)
Definition commit (self : t) (message : string) : M unit :=
  try_except
    (_run_git self ["commit"; "-m"; message] ;;; ret tt)
    (fun e =>
       match e with
       | CalledProcessError _ _ err =>
           if Str.contains "nothing to commit" err
           then Some (ret tt)
           else Some (raise (GitError ("Commit失败：" +:+ err)))
       | _ => None
       end).

(** [GitRepo.push]; [if branch:] is false for [None] and for ['']. *)
Definition push (self : t) (branch : option string) : M unit :=
  try_except
    (match branch with
     | Some (String c b) =>
         _run_git self ["push"; "origin"; String c b] ;;; ret tt
     | _ => _run_git self ["push"] ;;; ret tt
     end)
    (on_called_process_error "Push失败：").

(** [GitRepo.remove] *)
Definition remove (self : t) (file_path : path) : M unit :=
  try_except
    (let* rel_path := lift (PurePath.relative_to file_path (repo_path self)) in
     _run_git self ["rm"; PurePath.to_string rel_path] ;;;
     ret tt)
    (fun e =>
       if is_ValueError e
       then Some (raise (GitError ("文件不在仓库中：" +:+
                                   PurePath.to_string file_path)))
       else on_called_process_error "Remove失败：" e).

(** [GitRepo.status] *)
Definition status (self : t) : M string :=
  try_except
    (let* result := _run_git self ["status"; "--short"] in
     ret (stdout result))
    (on_called_process_error "Status失败：").

(** [subprocess.run(['git'] + args, check=True, capture_output=True,
    text=True)] with no [cwd]: the command runs in the current directory,
    the empty path. *)
Definition run_here (args : list string) : M CompletedProcess :=
  fun w =>
    let '(r, fs', outside') :=
      subprocess_run ("git" :: args) [] (fs w) (outside w) in
    let w' := {| fs := fs'; outside := outside'; now := now w;
                 git_calls := git_calls w ++ [args];
                 printed := printed w |} in
    match r with
    | inl e => (inl e, w')
    | inr p =>
        if (returncode p =? 0)%nat then (inr p, w')
        else (inl (CalledProcessError (returncode p) (stdout p) (stderr p)), w')
    end.

(** [GitRepo.clone] *)
Definition clone (self : t) (git_url : string) (branch : string) : M unit :=
  let* there := exists_ self in
  if there then
    raise (GitError ("仓库已存在：" +:+ PurePath.to_string (repo_path self)))
  else
    try_except
      (run_here ["clone"; "-b"; branch; "--single-branch"; git_url;
                 PurePath.to_string (repo_path self)] ;;;
       ret tt)
      (on_called_process_error "Clone失败：").

End WithHost.
End GitRepo.

(** [str(e)] for an exception of the repository: its message. *)
Definition message (e : exception) : string :=
  match e with
  | ConfigError m | ParseError m | ProcessError m | GitError m => m
  | _ => ""
  end.

(** ** [core/processor.py] *)

Module FileProcessor.

Record t (P : Type) : Type := {
  config : Config.t;
  parser : FilenameParser.t P;
  path_gen : PathGenerator.t;
  repo : GitRepo.t;
}.
Arguments config {P} _.
Arguments parser {P} _.
Arguments path_gen {P} _.
Arguments repo {P} _.

Section WithHost.
Context {L : PyLib} {H : Host}.

(** [FileProcessor.__init__] *)
Definition init (config : Config.t) : result (t Pattern) :=
  match FilenameParser.init (Config.naming_pattern config) with
  | inl e => inl e
  | inr parser =>
      inr {| config := config;
             parser := parser;
             path_gen := PathGenerator.init (Config.path_template config)
                                            (Config.asset_root config);
             repo := GitRepo.init (Config.repo config) |}
  end.

(** [FileProcessor._move_to_failed] *)
Definition _move_to_failed (self : t Pattern) (file_path : path) : M unit :=
  try_except
    (mkdir (Config.failed (config self)) ;;;
     let failed_path :=
       PurePath.joinpath (Config.failed (config self)) (PurePath.name file_path) in
     let* taken := path_exists failed_path in
     let* failed_path :=
       if taken then
         let* now := datetime_now in
         let timestamp := strftime now in
         let stem := PurePath.stem file_path in
         let suffix := PurePath.suffix file_path in
         ret (PurePath.joinpath (Config.failed (config self))
                                (stem +:+ "_" +:+ timestamp +:+ suffix))
       else ret failed_path in
     shutil_move file_path failed_path ;;;
     print (MovedToFailed failed_path))
    (fun e => Some (print (CannotMoveToFailed e))).

(** [FileProcessor._handle_git_failure] *)
Definition _handle_git_failure (self : t Pattern) (target_path original_path : path)
           (error : exception) : M unit :=
  try_except
    (let* inbox_there := path_exists (PurePath.parent original_path) in
     if inbox_there then
       shutil_move target_path original_path ;;;
       print (MovedBackToInbox error)
     else
       _move_to_failed self target_path ;;;
       print (GitFailed error))
    (fun e => Some (print (CannotRecover e))).

(** The message of a commit: [git_commit_template.format(module=...,
    category=..., feature=...)]. *)
Definition commit_message (self : t Pattern) (parsed : ParsedFilename) : result string :=
  Format.format (Config.git_commit_template (config self))
                (PathGenerator.fields parsed).

(** Step 5 of [process], the body of the inner [try]. *)
Definition git_steps (self : t Pattern) (parsed : ParsedFilename) (target_path : path)
  : M unit :=
  GitRepo.pull (repo self) ;;;
  GitRepo.add (repo self) target_path ;;;
  let* commit_msg := lift (commit_message self parsed) in
  GitRepo.commit (repo self) commit_msg ;;;
  GitRepo.push (repo self) None.

(** Steps 1 to 4 of [process]: check the repository, parse the name,
    make the target path and move the file there. *)
Definition relocate (self : t Pattern) (file_path : path) : M (ParsedFilename * path) :=
  let* repo_there := GitRepo.exists_ (repo self) in
  if negb repo_there then
    raise (ProcessError "本地仓库不存在，请先运行 setup 命令初始化工作区")
  else
    let* parsed :=
      try_except
        (lift (FilenameParser.parse (parser self) (PurePath.name file_path)))
        (fun e =>
           if is_ParseError e
           then Some (raise (ProcessError
                               ("文件名格式错误：" +:+ message e +:+ LF +:+
                                "正确格式：" +:+
                                Config.naming_example (config self))))
           else None) in
    let* target_path :=
      lift (PathGenerator.generate (path_gen self) parsed
                                   (Config.repo (config self))) in
    mkdir (PurePath.parent target_path) ;;;
    shutil_move file_path target_path ;;;
    ret (parsed, target_path).

(** [FileProcessor.process] *)
Definition process (self : t Pattern) (file_path : path) : M bool :=
  try_except
    (let* moved := relocate self file_path in
     let parsed := fst moved in
     let target_path := snd moved in
     let* git_failed :=
       try_except
         (git_steps self parsed target_path ;;; ret false)
         (fun e =>
            if is_GitError e
            then Some (_handle_git_failure self target_path file_path e ;;;
                       ret true)
            else None) in
     if git_failed then ret false
     else
       print (Succeeded (PurePath.name file_path)) ;;;
       let* rel := lift (PurePath.relative_to target_path
                                              (Config.repo (config self))) in
       print (Target rel) ;;;
       ret true)
    (fun e =>
       if is_ProcessError e then
         Some (print (ProcessFailed e) ;;;
               _move_to_failed self file_path ;;;
               ret false)
       else
         Some (print (UnknownError e) ;;;
               _move_to_failed self file_path ;;;
               ret false)).

(** [FileProcessor.process_batch]: the loop, with the counters and the
    index of the file as its state. *)
Fixpoint process_loop (self : t Pattern) (total i : nat) (files : list path)
         (success failed : nat) : M (nat * nat) :=
  match files with
  | [] => ret (success, failed)
  | file_path :: rest =>
      print (Processing i total (PurePath.name file_path)) ;;;
      let* ok := process self file_path in
      if ok then process_loop self total (S i) rest (S success) failed
      else process_loop self total (S i) rest success (S failed)
  end.

Definition process_batch (self : t Pattern) (files : list path) : M (nat * nat) :=
  process_loop self (length files) 1 files 0 0.

End WithHost.
End FileProcessor.

(** ** A host that answers as scripted

    The outside is the list of answers still to give: each [git] run takes
    the next one, the exit status and output it reports and the files it
    writes ([Some]) or removes ([None]).  When the script is used up every
    run succeeds silently. *)

Record scripted_run : Type := {
  answer : result CompletedProcess;
  changes : list (path * option node);
}.

Definition apply_change (files : FS) (change : path * option node) : FS :=
  match snd change with
  | Some n => <[fst change := n]> files
  | None => delete (fst change) files
  end.

Definition exit_ok : CompletedProcess :=
  {| returncode := 0; stdout := ""; stderr := "" |}.

Definition succeeds : scripted_run :=
  {| answer := inr exit_ok; changes := [] |}.

Definition fails_with (code : nat) (out err : string) : scripted_run :=
  {| answer := inr {| returncode := code; stdout := out; stderr := err |};
     changes := [] |}.

(** What a scripted run wrote on its standard error. *)
Definition stderr_of (r : scripted_run) : string :=
  match answer r with
  | inr p => stderr p
  | inl _ => ""
  end.

(** What [git] 2.39 answers to [git add ../outside.txt] in [/ws/.repo]:
    exit status 128 and this line on its standard error. *)
Definition git_says_outside : scripted_run :=
  fails_with 128 ""
    ("fatal: ../outside.txt: '../outside.txt' is outside repository at '/ws/.repo'"
     +:+ LF).

#[local] Instance scripted_host : Host := {|
  Outside := list scripted_run;
  subprocess_run := fun _ _ files script =>
    match script with
    | [] => (inr exit_ok, files, [])
    | r :: rest => (answer r, fold_left apply_change (changes r) files, rest)
    end;
|}.

(** The parser of a pattern, in the fragment; a pattern that does not
    construct one gives a parser that matches the empty name only. *)
Definition parser_of (pattern : string) : FilenameParser.t ReFragment.regex :=
  match FilenameParser.init pattern with
  | inr p => p
  | inl _ => {| FilenameParser.pattern := ReFragment.Empty |}
  end.

(** ** A workspace to run the pipeline in: the configuration of the
    specification's scenario, one file in the inbox, a cloned repository. *)

Module Scenario.

Definition naming_pattern : string :=
  "^(?P<module>\w+)_(?P<category>\w+)_(?P<feature>[\w-]+)\.(?P<ext>\w+)$".

Definition cfg (commit_template : option string) : Config.t :=
  {| Config.workspace_base := ["/"; "ws"];
     Config.commit_template := commit_template;
     Config.path_template := "{module}/{category}/{feature}/";
     Config.asset_root := "Assets/GameRes/";
     Config.naming_pattern := naming_pattern;
     Config.naming_example := "GameRes_Character_Hero.fbx" |}.

Definition hero : string := "GameRes_Character_Hero.fbx".
Definition inbox_file : path := ["/"; "ws"; "inbox"; hero].
Definition failed_file : path := ["/"; "ws"; "failed"; hero].
Definition target_file : path :=
  ["/"; "ws"; ".repo"; "Assets"; "GameRes"; "GameRes"; "Character"; "Hero"; hero].

(** What the pattern reads in the name of the file. *)
Definition parsed_hero : ParsedFilename :=
  {| module := "GameRes"; category := "Character"; feature := "Hero";
     variant := None; extension := Some "fbx"; original_name := hero |}.

(** The workspace before [setup] has cloned anything. *)
Definition files_without_repo : FS :=
  <[ inbox_file := File "mesh" ]>
    (<[ ["/"; "ws"; "inbox"] := Dir ]> (<[ ["/"; "ws"] := Dir ]> ∅)).

(** The workspace after [setup]. *)
Definition files : FS :=
  <[ ["/"; "ws"; ".repo"; ".git"] := Dir ]>
    (<[ ["/"; "ws"; ".repo"] := Dir ]> files_without_repo).

Definition noon : datetime :=
  {| year := 2024; month := 5; day := 17; hour := 12; minute := 0; second := 0 |}.

Definition world (fs : FS) (script : list scripted_run)
  : WorldOf (list scripted_run) :=
  {| fs := fs; outside := script; now := noon; git_calls := []; printed := [] |}.

(** The processor [FileProcessor(config)] builds for a configuration whose
    pattern compiles. *)
Definition processor (c : Config.t) : FileProcessor.t ReFragment.regex :=
  {| FileProcessor.config := c;
     FileProcessor.parser := parser_of (Config.naming_pattern c);
     FileProcessor.path_gen :=
       PathGenerator.init (Config.path_template c) (Config.asset_root c);
     FileProcessor.repo := GitRepo.init (Config.repo c) |}.

(** [FileProcessor(config).process(file_path)]: the answer and the world
    it leaves. *)
Definition run (c : Config.t) (file_path : path)
           (w : WorldOf (list scripted_run))
  : result bool * WorldOf (list scripted_run) :=
  FileProcessor.process (processor c) file_path w.

End Scenario.


(** The working copy of the scenario with the directories of the target
    made. *)
Definition scenario_files_with_target_dir : FS :=
  <[ ["/"; "ws"; ".repo"; "Assets"; "GameRes"; "GameRes"; "Character"; "Hero"] := Dir ]>
    (<[ ["/"; "ws"; ".repo"; "Assets"; "GameRes"; "GameRes"; "Character"] := Dir ]>
       (<[ ["/"; "ws"; ".repo"; "Assets"; "GameRes"; "GameRes"] := Dir ]>
          (<[ ["/"; "ws"; ".repo"; "Assets"; "GameRes"] := Dir ]>
             (<[ ["/"; "ws"; ".repo"; "Assets"] := Dir ]> Scenario.files)))).

(** The scenario's file handed over to the working copy, and a new file
    of the same name dropped in the inbox meanwhile. *)
Definition scenario_files_redropped : FS :=
  <[ Scenario.inbox_file := File "newer" ]>
    (<[ Scenario.target_file := File "mesh" ]>
       (delete Scenario.inbox_file scenario_files_with_target_dir)).

(** The workspace after two failures of the scenario's file within the
    second: the failed directory holds the name and the timestamped
    name. *)
Definition scenario_files_after_failures : FS :=
  <[ ["/"; "ws"; "failed"; "GameRes_Character_Hero_20240517_120000.fbx"]
     := File "second" ]>
    (<[ Scenario.failed_file := File "first" ]>
       (<[ ["/"; "ws"; "failed"] := Dir ]> Scenario.files)).

(** What the handlers of [process] do with an exception that reaches
    them: report it, call the Failure Sink on the path [process] was
    given, and answer [False].  This is the world they leave. *)
Definition after_failure {L : PyLib} {H : Host}
           (self : FileProcessor.t Pattern) (file_path : path)
           (e : exception) (w : World) : World :=
  snd (FileProcessor._move_to_failed
         self file_path
         (snd (print (if is_ProcessError e then ProcessFailed e
                      else UnknownError e) w))).

(** [files'] has everything [files] has, unchanged, and what it has more
    is directories. *)
Definition grows (files files' : FS) : Prop :=
  forall q, match Fs.lookup files q with
            | Some n => Fs.lookup files' q = Some n
            | None => Fs.lookup files' q = None \/ Fs.lookup files' q = Some Dir
            end.

(** Roots stand at the head of a path only, as in every path made from
    strings. *)
Definition well_formed (p : path) : bool :=
  forallb (fun x => negb (PurePath.is_root x)) (tail p).

(** No regular file stands where a directory of the path [p] should: at
    [p] or at any of its ancestors. *)
Definition clear_way (files : FS) (p : path) : bool :=
  forallb (fun k => match Fs.lookup files (firstn k p) with
                    | Some (File _) => false
                    | _ => true
                    end)
          (seq 0 (S (length p))).

Definition no_file_above (files : FS) (p : path) : Prop :=
  forall q rest c, p = q ++ rest -> Fs.lookup files q <> Some (File c).

(** A string that is one segment of a path: not empty, not a dot, no
    slash in it. *)
Definition plain (x : string) : bool :=
  negb (String.eqb x "") && negb (String.eqb x ".") && negb (Str.mem "/" x).

(** A path the operating system reads part by part as it is written:
    from the root, through plain segments, none of them [..].  For such
    paths, in a filesystem without links, two paths name the same file
    only when their parts are the same, as in the map of files here. *)
Definition canonical (p : path) : bool :=
  match p with
  | root :: segments =>
      String.eqb root "/" &&
      forallb (fun x => plain x && negb (String.eqb x "..")) segments
  | [] => false
  end.

(** What a method of [GitRepo] may do: run [git] at most once, in the
    working copy, and raise nothing but [GitError], or the exception
    [subprocess.run] itself raised for that run (the executable or the
    directory is missing) when it is no [CalledProcessError]. *)
Definition one_git_run {H : Host} {A} (self : GitRepo.t) (m : M A) : Prop :=
  forall w,
    (git_calls (snd (m w)) = git_calls w \/
     exists args, git_calls (snd (m w)) = git_calls w ++ [args]) /\
    forall e,
      fst (m w) = inl e ->
      is_GitError e = true \/
      exists args,
        git_calls (snd (m w)) = git_calls w ++ [args] /\
        fst (fst (subprocess_run ("git" :: args) (GitRepo.repo_path self)
                                 (fs w) (outside w))) = inl e /\
        is_CalledProcessError e = false.

(** A handler in the style of the adapter: what it catches it turns into
    [GitError] or into a return, without touching anything; it lets no
    [CalledProcessError] through. *)
Definition converts {H : Host} {A} (handler : exception -> option (M A)) : Prop :=
  forall e,
    match handler e with
    | Some h => forall w, snd (h w) = w /\
                          forall e', fst (h w) = inl e' -> is_GitError e' = true
    | None => is_CalledProcessError e = false
    end.

(** What a configuration that passes [_validate_basic] holds. *)
Definition valid_shape (data : yaml) (name template pattern : yaml)
           (url : string) (d project git naming : list (string * yaml)) : Prop :=
  data = YDict d /\
  ConfigFile.entry d "project" = Some (YDict project) /\
  ConfigFile.entry project "name" = Some name /\
  ConfigFile.truthy name = true /\
  ConfigFile.entry d "git" = Some (YDict git) /\
  ConfigFile.entry git "repository" = Some (YStr url) /\
  ConfigFile.supported url = true /\
  ConfigFile.entry d "path_template" = Some template /\
  ConfigFile.truthy template = true /\
  ConfigFile.entry d "naming" = Some (YDict naming) /\
  ConfigFile.entry naming "pattern" = Some pattern /\
  ConfigFile.truthy pattern = true.

(** A configuration in the shape of the shipped template. *)
Definition example_config : yaml :=
  YDict [("project", YDict [("name", YStr "Demo")]);
         ("git", YDict [("repository", YStr "https://github.com/org/repo.git")]);
         ("path_template", YStr "{module}/{category}/{feature}/");
         ("naming", YDict [("pattern", YStr Scenario.naming_pattern)])].

(** The announcement [process_batch] prints before it tries a file. *)
Definition is_Processing (r : report) : bool :=
  match r with
  | Processing _ _ _ => true
  | _ => false
  end.

(** A computation that only adds to what was printed, and announces no
    file. *)
Definition prints_no_announcement {H : Host} {A} (m : M A) : Prop :=
  forall w, exists extra,
    printed (snd (m w)) = printed w ++ extra /\
    List.filter is_Processing extra = [].

(** A run of the loop of [process_batch] over [files], the first of them
    being number [i] of [total]: each file is announced, then [process]
    is called on it, in the world the announcement left, and answers;
    the next file starts in the world that call left.  [steps] keeps, for
    each file, the answer of [process] and what it printed. *)
Inductive batch_run {L : PyLib} {H : Host}
          (self : FileProcessor.t Pattern) (total : nat)
  : nat -> list path -> World -> list (bool * list report) -> World -> Prop :=
  | batch_end i w : batch_run self total i [] w [] w
  | batch_next i file_path rest w ok said w1 steps w2 :
      FileProcessor.process
        self file_path
        (snd (print (Processing i total (PurePath.name file_path)) w))
      = (inr ok, w1) ->
      printed w1
      = (printed w ++ [Processing i total (PurePath.name file_path)]) ++ said ->
      batch_run self total (S i) rest w1 steps w2 ->
      batch_run self total i (file_path :: rest) w ((ok, said) :: steps) w2.

(** What such a run prints: for each file its announcement, then what
    [process] printed for it. *)
Fixpoint transcript (total i : nat) (files : list path)
         (steps : list (bool * list report)) : list report :=
  match files, steps with
  | file_path :: rest, (_, said) :: steps' =>
      Processing i total (PurePath.name file_path)
      :: said ++ transcript total (S i) rest steps'
  | _, _ => []
  end.

(** The answers [True] and the answers [False] of a run. *)
Definition successes (steps : list (bool * list report)) : nat :=
  length (List.filter fst steps).
Definition failures (steps : list (bool * list report)) : nat :=
  length (List.filter (fun st => negb (fst st)) steps).

(** A computation that runs no [git] and leaves the outside alone. *)
Definition quiet {H : Host} {A} (m : M A) : Prop :=
  forall w, git_calls (snd (m w)) = git_calls w /\ outside (snd (m w)) = outside w.

(** * Properties *)

(** ** The regular-expression fragment keeps Python's promise about
    [groupdict()] *)

Section FragmentGroupdict.

Variable D : gset string.

Let keeps_keys := ReFragment.keeps_keys D.

Lemma capture_keys (name : option string) (text : string)
      (g : gmap string (option string)) :
  (forall n, name = Some n -> n ∈ D) ->
  dom g = D -> dom (ReFragment.capture name text g) = D.
Proof.
  intros Hin Hg. destruct name as [n|]; simpl; [|done].
  rewrite dom_insert_L, Hg.
  apply subseteq_union_1_L, singleton_subseteq_l, Hin; reflexivity.
Qed.

Lemma star_loop_keys body greedy k :
  (forall pos s g k' gf,
      dom g = D -> keeps_keys k' -> body pos s g k' = Some gf -> dom gf = D) ->
  keeps_keys k ->
  forall n, keeps_keys (fun pos s g => ReFragment.star_loop body greedy k n pos s g).
Proof.
  intros Hbody Hk n. induction n as [|n IH]; intros pos s g gf Hg; simpl.
  - apply Hk, Hg.
  - assert (Hmore : forall x,
               body pos s g
                    (fun pos' s' g' =>
                       if (pos' =? pos)%nat then k pos' s' g'
                       else ReFragment.star_loop body greedy k n pos' s' g')
               = Some x -> dom x = D).
    { intros x Hx. eapply Hbody; [exact Hg| |exact Hx].
      intros pos' s' g' gf' Hg'. destruct (pos' =? pos)%nat; [apply Hk, Hg'|].
      apply IH, Hg'. }
    destruct greedy.
    + destruct (body pos s g _) as [x|] eqn:E.
      * intros [= <-]. apply Hmore; reflexivity.
      * apply Hk, Hg.
    + destruct (k pos s g) as [x|] eqn:E.
      * intros [= <-]. eapply Hk; eauto.
      * apply Hmore.
Qed.

Lemma run_keys (r : ReFragment.regex) :
  (forall n, n ∈ ReFragment.names r -> n ∈ D) ->
  forall pos s g k gf,
    dom g = D -> keeps_keys k -> ReFragment.run r pos s g k = Some gf ->
    dom gf = D.
Proof.
  induction r as [|c| |neg items|a IHa b IHb|a IHa b IHb|greedy a IHa|name a IHa| |];
    intros Hn pos s g k gf Hg Hk; cbn [ReFragment.run].
  - apply Hk, Hg.
  - destruct s as [|d s']; [discriminate|].
    destruct (Ascii.eqb c d); [apply Hk, Hg|discriminate].
  - destruct s as [|d s']; [discriminate|].
    destruct (Ascii.eqb d ReFragment.newline); [discriminate|apply Hk, Hg].
  - destruct s as [|d s']; [discriminate|].
    destruct (ReFragment.in_set neg items d); [apply Hk, Hg|discriminate].
  - simpl in Hn. apply IHa; [intros n ?; apply Hn, elem_of_app; by left|exact Hg|].
    intros pos' s' g' gf' Hg'.
    apply IHb; [intros n ?; apply Hn, elem_of_app; by right|exact Hg'|exact Hk].
  - simpl in Hn. destruct (ReFragment.run a pos s g k) as [x|] eqn:E.
    + intros [= <-].
      eapply IHa; [intros n ?; apply Hn, elem_of_app; by left|exact Hg|exact Hk|exact E].
    + apply IHb; [intros n ?; apply Hn, elem_of_app; by right|exact Hg|exact Hk].
  - simpl in Hn.
    apply (star_loop_keys (ReFragment.run a) greedy k); [|exact Hk|exact Hg].
    intros pos' s' g' k' gf' Hg' Hk'. apply IHa; [exact Hn|exact Hg'|exact Hk'].
  - apply IHa.
    + intros n ?. apply Hn. destruct name; simpl; [by apply list_elem_of_further|done].
    + exact Hg.
    + intros pos' s' g' gf' Hg' Hrun. eapply Hk; [|exact Hrun].
      apply capture_keys; [|exact Hg'].
      intros n ->. apply Hn. simpl. apply list_elem_of_here.
  - destruct (pos =? 0)%nat; [apply Hk, Hg|discriminate].
  - destruct s as [|d [|d' s']]; [apply Hk, Hg| |discriminate].
    destruct (Ascii.eqb d ReFragment.newline); [apply Hk, Hg|discriminate].
Qed.

End FragmentGroupdict.

Lemma no_groups_keys (r : ReFragment.regex) :
  dom (ReFragment.no_groups r) = list_to_set (ReFragment.names r).
Proof.
  unfold ReFragment.no_groups. rewrite dom_list_to_map_L.
  f_equal. induction (ReFragment.names r) as [|n l IH]; simpl; [done|by f_equal].
Qed.

Lemma re_fragment_groupdict_keys : groupdict_keys_law re_fragment.
Proof.
  intros r s g Hm. simpl in *. unfold ReFragment.match_ in Hm.
  eapply (run_keys (list_to_set (ReFragment.names r)) r); [| |shelve|exact Hm].
  - intros n Hn. by apply elem_of_list_to_set.
  - apply no_groups_keys.
  Unshelve. intros pos s' g' gf Hg' [= <-]. exact Hg'.
Qed.

(** A decidable statement about closed terms, settled by evaluation. *)
Ltac by_decision :=
  match goal with
  | |- ?P => apply (@bool_decide_unpack P _); vm_compute; exact I
  end.

Lemma pair_with_snd {A B} (x : A * B) (a : A) : fst x = a -> x = (a, snd x).
Proof. destruct x. simpl. congruence. Qed.

(** ** The engine of the fragment finds the matches that start at the
    first character *)

Section Semantics.
Import ReFragment.

Lemma matches_consumes r pos s pos' s' :
  matches r pos s pos' s' ->
  pos <= pos' /\ String.length s = (pos' - pos) + String.length s'.
Proof.
  induction 1; simpl; try lia.
Qed.

Lemma drop_drop (i j : nat) (s : string) :
  Str.drop j (Str.drop i s) = Str.drop (i + j) s.
Proof.
  revert s. induction i as [|i IH]; intros s.
  - by destruct s.
  - destruct s as [|c s]; [by destruct j|]. apply IH.
Qed.

(** What a match leaves is the input without the piece it matched. *)
Lemma matches_suffix r pos s pos' s' :
  matches r pos s pos' s' -> s' = Str.drop (pos' - pos) s.
Proof.
  induction 1; try (rewrite Nat.sub_diag; by destruct s);
    try (replace (S pos - pos) with 1 by lia; reflexivity);
    try assumption.
  - repeat match goal with
           | Hm : matches _ _ _ _ _ |- _ =>
               apply matches_consumes in Hm as [? _]
           end.
    subst. rewrite drop_drop. f_equal. lia.
  - repeat match goal with
           | Hm : matches _ _ _ _ _ |- _ =>
               apply matches_consumes in Hm as [? _]
           end.
    subst. rewrite drop_drop. f_equal. lia.
  - rewrite Nat.sub_diag. reflexivity.
  - rewrite Nat.sub_diag. reflexivity.
Qed.

Lemma is_Some_or {A} (x y : option A) :
  is_Some (match x with Some a => Some a | None => y end)
  <-> is_Some x \/ is_Some y.
Proof.
  destruct x as [a|]; split; eauto.
  - intros [[? [=]]|?]; done.
Qed.

Lemma run_spec_blind r (k : cont) :
  run_spec r -> blind k -> blind (fun pos s g => run r pos s g k).
Proof.
  intros Hr Hk pos s g1 g2 H1.
  apply (Hr pos s g1 k Hk) in H1 as (pos' & s' & Hm & Hs).
  apply (Hr pos s g2 k Hk). exists pos', s'. split; [exact Hm|].
  by apply (Hk pos' s' g1).
Qed.

Lemma star_loop_blind a greedy (k : cont) :
  run_spec a -> blind k ->
  forall n, blind (star_loop (run a) greedy k n).
Proof.
  intros Ha Hk n. induction n as [|n IH]; intros pos s g1 g2; simpl.
  - apply Hk.
  - set (c := fun pos' s' g' =>
                if (pos' =? pos)%nat then k pos' s' g'
                else star_loop (run a) greedy k n pos' s' g').
    assert (Hc : blind c).
    { intros p t h1 h2. unfold c. destruct (p =? pos)%nat; [apply Hk|].
      apply IH. }
    pose proof (run_spec_blind a c Ha Hc pos s g1 g2) as Hmore.
    pose proof (Hk pos s g1 g2) as Hstop.
    destruct greedy.
    + rewrite !is_Some_or. intros [?|?]; auto.
    + rewrite !is_Some_or. intros [?|?]; auto.
Qed.

Lemma star_loop_spec a greedy (k : cont) :
  run_spec a -> blind k ->
  forall n pos s g,
    String.length s <= n ->
    (is_Some (star_loop (run a) greedy k n pos s g) <->
     exists pos' s', matches (Star greedy a) pos s pos' s' /\
                     is_Some (k pos' s' g)).
Proof.
  intros Ha Hk n. induction n as [|n IH]; intros pos s g Hlen; simpl.
  - split.
    + intros H. exists pos, s. split; [constructor|exact H].
    + intros (pos' & s' & Hm & H). inversion Hm; subst; [exact H|].
      match goal with
      | Hb : matches a _ _ _ _ |- _ =>
          apply matches_consumes in Hb as [? ?]
      end.
      lia.
  - set (c := fun pos' s' g' =>
                if (pos' =? pos)%nat then k pos' s' g'
                else star_loop (run a) greedy k n pos' s' g').
    assert (Hc : blind c).
    { intros p t h1 h2. unfold c. destruct (p =? pos)%nat; [apply Hk|].
      apply (star_loop_blind a greedy k Ha Hk n). }
    assert (Hgoal :
      is_Some (run a pos s g c) \/ is_Some (k pos s g) <->
      exists pos' s', matches (Star greedy a) pos s pos' s' /\
                      is_Some (k pos' s' g)).
    { rewrite (Ha pos s g c Hc). split.
      - intros [(pos1 & s1 & Hm & H)|H].
        + unfold c in H. destruct (pos1 =? pos)%nat eqn:E.
          * apply Nat.eqb_eq in E as ->.
            apply matches_suffix in Hm as Hs. rewrite Nat.sub_diag in Hs.
            simpl in Hs. subst s1.
            exists pos, s. split; [constructor|exact H].
          * apply Nat.eqb_neq in E.
            pose proof (matches_consumes _ _ _ _ _ Hm) as [? ?].
            apply IH in H as (pos' & s' & Hs & H); [|lia].
            exists pos', s'. split; [|exact H]. by eapply m_star_more.
        + exists pos, s. split; [constructor|exact H].
      - intros (pos' & s' & Hm & H). inversion Hm; subst.
        + by right.
        + left.
          match goal with
          | Hb : matches a pos s ?p1 ?t1, Hne : ?p1 <> pos,
            Hs : matches (Star greedy a) ?p1 ?t1 pos' s' |- _ =>
              exists p1, t1; split; [exact Hb|]; unfold c;
              apply Nat.eqb_neq in Hne as E; rewrite E;
              pose proof (matches_consumes _ _ _ _ _ Hb) as [? ?];
              apply IH; [lia|]; by exists pos', s'
          end. }
    destruct greedy; rewrite is_Some_or; [exact Hgoal|].
    rewrite <- Hgoal. tauto.
Qed.

Lemma run_matches r : run_spec r.
Proof.
  induction r as [|c| |neg items|a IHa b IHb|a IHa b IHb|greedy a IHa
                  |name a IHa| |]; intros pos s g k Hk; cbn [run].
  - split.
    + intros H. exists pos, s. split; [constructor|exact H].
    + intros (pos' & s' & Hm & H). by inversion Hm; subst.
  - destruct s as [|d s].
    + split; [by intros [? [=]]|]. intros (? & ? & Hm & _). inversion Hm.
    + destruct (Ascii.eqb c d) eqn:E.
      * apply Ascii.eqb_eq in E as ->. split.
        -- intros H. exists (S pos), s. split; [constructor|exact H].
        -- intros (pos' & s' & Hm & H). by inversion Hm; subst.
      * split; [by intros [? [=]]|]. intros (? & ? & Hm & _).
        inversion Hm; subst. by rewrite Ascii.eqb_refl in E.
  - destruct s as [|d s].
    + split; [by intros [? [=]]|]. intros (? & ? & Hm & _). inversion Hm.
    + destruct (Ascii.eqb d newline) eqn:E.
      * split; [by intros [? [=]]|]. intros (? & ? & Hm & _).
        inversion Hm; subst. congruence.
      * split.
        -- intros H. exists (S pos), s. split; [by constructor|exact H].
        -- intros (pos' & s' & Hm & H). by inversion Hm; subst.
  - destruct s as [|d s].
    + split; [by intros [? [=]]|]. intros (? & ? & Hm & _). inversion Hm.
    + destruct (in_set neg items d) eqn:E.
      * split.
        -- intros H. exists (S pos), s. split; [by constructor|exact H].
        -- intros (pos' & s' & Hm & H). by inversion Hm; subst.
      * split; [by intros [? [=]]|]. intros (? & ? & Hm & _).
        inversion Hm; subst. congruence.
  - rewrite (IHa pos s g _ (run_spec_blind b k IHb Hk)). split.
    + intros (pos1 & s1 & Hm1 & H).
      apply (IHb pos1 s1 g k Hk) in H as (pos2 & s2 & Hm2 & H).
      exists pos2, s2. split; [|exact H]. by eapply m_seq.
    + intros (pos2 & s2 & Hm & H). inversion Hm; subst.
      eexists _, _. split; [eassumption|].
      apply (IHb _ _ g k Hk). eauto.
  - rewrite is_Some_or, (IHa pos s g k Hk), (IHb pos s g k Hk). split.
    + intros [(pos' & s' & Hm & H)|(pos' & s' & Hm & H)];
        exists pos', s'; (split; [|exact H]);
        [by apply m_alt_l|by apply m_alt_r].
    + intros (pos' & s' & Hm & H). inversion Hm; subst; eauto.
  - apply star_loop_spec; [exact IHa|exact Hk|lia].
  - assert (Hc : blind (fun pos' s' g' =>
                          k pos' s' (capture name (Str.take (pos' - pos) s) g'))).
    { intros p t h1 h2. apply Hk. }
    rewrite (IHa pos s g _ Hc). split.
    + intros (pos' & s' & Hm & H). exists pos', s'.
      split; [by constructor|]. by apply (Hk _ _ _ g) in H.
    + intros (pos' & s' & Hm & H). inversion Hm; subst.
      exists pos', s'. split; [assumption|]. by apply (Hk _ _ g).
  - destruct (pos =? 0)%nat eqn:E.
    + apply Nat.eqb_eq in E as ->. split.
      * intros H. exists 0, s. split; [constructor|exact H].
      * intros (pos' & s' & Hm & H). by inversion Hm; subst.
    + split; [by intros [? [=]]|]. intros (? & ? & Hm & _).
      inversion Hm; subst. discriminate.
  - destruct s as [|d [|e s]].
    + split.
      * intros H. exists pos, "". split; [constructor|exact H].
      * intros (pos' & s' & Hm & H). by inversion Hm; subst.
    + destruct (Ascii.eqb d newline) eqn:E.
      * apply Ascii.eqb_eq in E as ->. split.
        -- intros H. eexists _, _. split; [apply m_eol_newline|exact H].
        -- intros (pos' & s' & Hm & H). by inversion Hm; subst.
      * split; [by intros [? [=]]|]. intros (? & ? & Hm & _).
        inversion Hm; subst. by rewrite Ascii.eqb_refl in E.
    + split; [by intros [? [=]]|]. intros (? & ? & Hm & _). inversion Hm.
Qed.

(** [Pattern.match] finds a match exactly when one exists that starts at
    the first character; it may end anywhere. *)
Lemma match_iff_matches_from_start (r : regex) (s : string) :
  is_Some (match_ r s) <-> exists n rest, matches r 0 s n rest.
Proof.
  unfold match_.
  assert (Hk : blind (fun _ _ g => Some g)) by (by intros ? ? ? ? _).
  rewrite (run_matches r 0 s (no_groups r) _ Hk). split.
  - intros (n & rest & Hm & _). eauto.
  - intros (n & rest & Hm). eauto.
Qed.

(** [Pattern.fullmatch] finds a match exactly when one exists of the
    whole of the string. *)
Lemma fullmatch_iff_matches_all (r : regex) (s : string) :
  is_Some (fullmatch r s) <-> exists n, matches r 0 s n "".
Proof.
  unfold fullmatch.
  assert (Hk : blind (fun (_ : nat) (s' : string)
                          (g : gmap string (option string)) =>
                        match s' with EmptyString => Some g | _ => None end)).
  { intros ? t ? ? H. by destruct t. }
  rewrite (run_matches r 0 s (no_groups r) _ Hk). split.
  - intros (n & rest & Hm & H). destruct rest; [eauto|by destruct H].
  - intros (n & Hm). exists n, "". eauto.
Qed.

Lemma matches_ends_at_eol r pos s pos' s' :
  ends_with_eol r = true -> matches r pos s pos' s' ->
  s' = "" \/ s' = String newline "".
Proof.
  intros He Hm. induction Hm; simpl in He; try discriminate; auto.
  - destruct b; auto.
    inversion Hm2; subst. auto.
  - apply andb_true_iff in He as [? ?]. auto.
  - apply andb_true_iff in He as [? ?]. auto.
Qed.

Lemma matches_extend r pos s pos' s' (t : string) :
  has_eol r = false ->
  matches r pos s pos' s' -> matches r pos (s +:+ t) pos' (s' +:+ t).
Proof.
  intros He Hm. induction Hm; simpl in He;
    try apply orb_false_elim in He as [He1 He2];
    try discriminate;
    try (by constructor).
  - eapply m_seq; eauto.
  - apply m_alt_l; auto.
  - apply m_alt_r; auto.
  - eapply m_star_more; eauto.
  - constructor. auto.
Qed.

End Semantics.

(** ** The filename parser *)




(** What [parse] answers, for every engine: it raises [ParseError]
    exactly when [pattern.match] finds nothing or one of [module],
    [category], [feature] is empty or took no part in the match; it
    raises nothing else; otherwise it returns the three captured texts,
    none of them empty, and the filename. *)
Lemma parse_outcome
        (L : PyLib) (self : FilenameParser.t Pattern) (filename : string) :
  ((exists d, FilenameParser.parse self filename = inl (ParseError d)) <->
   (re_match (FilenameParser.pattern self) filename = None \/
    exists g, re_match (FilenameParser.pattern self) filename = Some g /\
              Str.truthy (FilenameParser.get g "module") &&
              Str.truthy (FilenameParser.get g "category") &&
              Str.truthy (FilenameParser.get g "feature") = false)) /\
  (forall e, FilenameParser.parse self filename = inl e -> is_ParseError e = true) /\
  (forall parsed, FilenameParser.parse self filename = inr parsed ->
     module parsed <> "" /\ category parsed <> "" /\ feature parsed <> "" /\
     original_name parsed = filename /\
     exists g, re_match (FilenameParser.pattern self) filename = Some g /\
               FilenameParser.get g "module" = Some (module parsed) /\
               FilenameParser.get g "category" = Some (category parsed) /\
               FilenameParser.get g "feature" = Some (feature parsed)).
Proof.
  unfold FilenameParser.parse.
  destruct (re_match (FilenameParser.pattern self) filename) as [g|] eqn:Hm.
  - destruct (FilenameParser.get g "module") as [[|m0 m]|] eqn:H1;
      destruct (FilenameParser.get g "category") as [[|c0 c]|] eqn:H2;
      destruct (FilenameParser.get g "feature") as [[|f0 f]|] eqn:H3;
      (split; [split|split]);
      try (intros _; right; exists g; split; [reflexivity|];
           rewrite H1, H2, H3; reflexivity);
      try (intros _; eexists; reflexivity);
      try (intros e [= <-]; reflexivity);
      try (intros parsed [=]; fail).
    + intros [d Hd]. discriminate Hd.
    + intros [Hn|(g' & Hg' & Hf)]; [discriminate Hn|].
      injection Hg' as <-. rewrite H1, H2, H3 in Hf. discriminate Hf.
    + intros parsed Hp. injection Hp as <-. simpl.
      repeat (split; [done|]). exists g. by rewrite H1, H2, H3.
  - split; [split|split].
    + intros _. by left.
    + intros _. by eexists.
    + by intros e [= <-].
    + intros parsed [=].
Qed.




(** C10: [parse] may return an extension that is [None].  For every
    engine that keeps Python's promise about the keys of [groupdict()],
    and every match in which the three required groups are not empty,
    [parse] returns; when the pattern defines a group [ext], the extension
    is what that group gave, [None] when it took no part in the match;
    when it defines [extension] and not [ext], likewise for [extension];
    the default [''] is returned when the pattern defines neither. *)
Theorem parse_extension_of_groupdict
        (L : PyLib) (self : FilenameParser.t Pattern) (filename : string)
        (g : gmap string (option string)) :
  groupdict_keys_law L ->
  re_match (FilenameParser.pattern self) filename = Some g ->
  Str.truthy (FilenameParser.get g "module") &&
  Str.truthy (FilenameParser.get g "category") &&
  Str.truthy (FilenameParser.get g "feature") = true ->
  exists parsed,
    FilenameParser.parse self filename = inr parsed /\
    ("ext" ∈ re_groupindex (FilenameParser.pattern self) ->
     g !! "ext" = Some (extension parsed)) /\
    ("ext" ∉ re_groupindex (FilenameParser.pattern self) ->
     "extension" ∈ re_groupindex (FilenameParser.pattern self) ->
     g !! "extension" = Some (extension parsed)) /\
    ("ext" ∉ re_groupindex (FilenameParser.pattern self) ->
     "extension" ∉ re_groupindex (FilenameParser.pattern self) ->
     extension parsed = Some "") /\
    (g !! "ext" = Some None -> extension parsed = None).
Proof.
  intros Hlaw Hm Ht. specialize (Hlaw _ _ _ Hm).
  unfold FilenameParser.parse. rewrite Hm.
  destruct (FilenameParser.get g "module") as [[|m0 m]|]; try discriminate Ht.
  destruct (FilenameParser.get g "category") as [[|c0 c]|]; try discriminate Ht.
  destruct (FilenameParser.get g "feature") as [[|f0 f]|]; try discriminate Ht.
  eexists. split; [reflexivity|]. simpl. unfold FilenameParser.get_extension.
  rewrite <- Hlaw, !elem_of_dom. repeat split.
  - intros [v Hv]. by rewrite Hv.
  - intros Hne [v Hv]. rewrite Hv.
    destruct (g !! "ext") as [x|] eqn:Hx; [|done].
    exfalso. apply Hne. by exists x.
  - intros Hne Hne'.
    destruct (g !! "ext") as [x|] eqn:Hx; [exfalso; apply Hne; by exists x|].
    destruct (g !! "extension") as [y|] eqn:Hy; [exfalso; apply Hne'; by exists y|].
    reflexivity.
  - intros Hv. by rewrite Hv.
Qed.

(** A name without extension, under a pattern whose [ext] group is
    optional: the extension of the result is [None]. *)
Lemma parse_extension_None_witness :
  exists parsed,
    FilenameParser.parse
      (parser_of "^(?P<module>\w+)_(?P<category>\w+)_(?P<feature>[\w-]+)(\.(?P<ext>\w+))?$")
      "a_b_c" = inr parsed /\
    extension parsed = None.
Proof.
  destruct (parse_extension_of_groupdict
              re_fragment
              (parser_of "^(?P<module>\w+)_(?P<category>\w+)_(?P<feature>[\w-]+)(\.(?P<ext>\w+))?$")
              "a_b_c"
              (<["module" := Some "a"]>
                 (<["category" := Some "b"]>
                    (<["feature" := Some "c"]> (<["ext" := None]> ∅)))))
    as (parsed & Hp & _ & _ & _ & Hnone).
  - apply re_fragment_groupdict_keys.
  - by_decision.
  - vm_compute. reflexivity.
  - exists parsed. split; [exact Hp|]. apply Hnone. vm_compute. reflexivity.
Defined.

(** ** The path generator *)

Lemma mem_replace_old (old new : ascii) (s : string) :
  new <> old -> Str.mem old (Str.replace old new s) = false.
Proof.
  intros Hne. induction s as [|c s IH]; simpl; [reflexivity|].
  rewrite IH, orb_false_r. destruct (Ascii.eqb c old) eqn:E.
  - apply Ascii.eqb_neq. congruence.
  - rewrite Ascii.eqb_sym. exact E.
Qed.

Lemma mem_replace_other (ch old new : ascii) (s : string) :
  ch <> new -> Str.mem ch s = false -> Str.mem ch (Str.replace old new s) = false.
Proof.
  intros Hne. induction s as [|c s IH]; simpl; [reflexivity|].
  intros [Hc Hs]%orb_false_elim. rewrite (IH Hs), orb_false_r.
  destruct (Ascii.eqb c old); [by apply Ascii.eqb_neq|exact Hc].
Qed.

Lemma mem_head (ch : ascii) (n : nat) (s : string) :
  Str.mem ch s = false -> Str.mem ch (Str.head n s) = false.
Proof.
  revert n. induction s as [|c s IH]; intros n; [reflexivity|].
  change (Str.mem ch (String c s)) with (Ascii.eqb ch c || Str.mem ch s).
  intros [Hc Hs]%orb_false_elim.
  change (Str.head n (String c s))
    with (if Str.is_continuation c then String c (Str.head n s)
          else match n with
               | 0 => EmptyString
               | S n' => String c (Str.head n' s)
               end).
  destruct (Str.is_continuation c); [|destruct n; [reflexivity|]].
  - change (Ascii.eqb ch c || Str.mem ch (Str.head n s) = false).
    by rewrite Hc, (IH _ Hs).
  - change (Ascii.eqb ch c || Str.mem ch (Str.head n s) = false).
    by rewrite Hc, (IH _ Hs).
Qed.

Lemma len_head (n : nat) (s : string) :
  Str.len (Str.head n s) = Nat.min n (Str.len s).
Proof.
  revert n. induction s as [|c s IH]; intros n; [simpl; lia|].
  simpl. destruct (Str.is_continuation c) eqn:E; simpl.
  - rewrite E. by rewrite IH.
  - destruct n; [reflexivity|]. simpl. rewrite E, IH. reflexivity.
Qed.

(** The sanitizer does what its docstring says: no unsafe character is
    left, and at most 100 characters. *)
Lemma sanitize_path_component_safe (component : string) :
  Str.len (PathGenerator.sanitize_path_component component) <= 100 /\
  forall ch, In ch PathGenerator.unsafe_chars ->
             Str.mem ch (PathGenerator.sanitize_path_component component) = false.
Proof.
  unfold PathGenerator.sanitize_path_component.
  set (cleaned := fold_left _ _ _).
  assert (Hclean : forall ch, In ch PathGenerator.unsafe_chars ->
                              Str.mem ch cleaned = false).
  { intros ch Hin. subst cleaned. simpl in *.
    repeat (destruct Hin as [<-|Hin];
            [repeat first [ apply mem_replace_old; discriminate
                          | apply mem_replace_other; [discriminate|] ]|]).
    destruct Hin. }
  destruct (100 <? Str.len cleaned)%nat eqn:Hlen; split.
  - rewrite len_head. lia.
  - intros ch Hin. apply mem_head, Hclean, Hin.
  - apply Nat.ltb_ge in Hlen. exact Hlen.
  - exact Hclean.
Qed.

(** C5: the path generator does not call the sanitizer.  A module name
    with a colon, which the sanitizer would turn into ["a_b"], reaches the
    target path as it was parsed. *)
Theorem generate_interpolates_unsanitized :
  exists parsed,
    FilenameParser.parse
      (parser_of "^(?P<module>[^_]+)_(?P<category>\w+)_(?P<feature>[\w-]+)\.(?P<ext>\w+)$")
      "a:b_Character_Hero.fbx" = inr parsed /\
    module parsed = "a:b" /\
    PathGenerator.sanitize_path_component (module parsed) = "a_b" /\
    PathGenerator.generate
      (PathGenerator.init "{module}/{category}/{feature}/" "Assets/GameRes/")
      parsed ["/"; "ws"; ".repo"]
    = inr ["/"; "ws"; ".repo"; "Assets"; "GameRes"; "a:b"; "Character"; "Hero";
           "a:b_Character_Hero.fbx"].
Proof.
  eexists. split; [vm_compute; reflexivity|].
  repeat split; vm_compute; reflexivity.
Qed.

(** ** The commit message *)

(** C9: the substitution [process] performs passes [module], [category]
    and [feature] only.  For every parsed filename the template of
    [constants.py], and any template that names [file_count] or
    [file_list], raises [KeyError] instead of giving a message. *)
Theorem commit_template_placeholders_raise_KeyError
        (L : PyLib) (parsed : ParsedFilename) :
  Format.format DEFAULT_COMMIT_TEMPLATE (PathGenerator.fields parsed)
  = inl (KeyError "file_count") /\
  Format.format "{category}: {feature} ({file_count})" (PathGenerator.fields parsed)
  = inl (KeyError "file_count") /\
  Format.format "{category}: {file_list}" (PathGenerator.fields parsed)
  = inl (KeyError "file_list") /\
  forall self : FileProcessor.t Pattern,
    Config.commit_template (FileProcessor.config self) = Some DEFAULT_COMMIT_TEMPLATE ->
    FileProcessor.commit_message self parsed = inl (KeyError "file_count").
Proof.
  repeat split; try reflexivity.
  intros self Ht. unfold FileProcessor.commit_message, Config.git_commit_template.
  rewrite Ht. reflexivity.
Qed.

(** ** The repository adapter *)

(** What [commit] answers is decided by the exit status of [git commit]
    and by what it wrote on its standard error; its standard output is
    not looked at. *)
Lemma commit_outcome (H : Host) (self : GitRepo.t) (msg : string) (w : World)
      (p : CompletedProcess) (fs' : FS) (outside' : Outside) :
  subprocess_run ["git"; "commit"; "-m"; msg] (GitRepo.repo_path self)
                 (fs w) (outside w) = (inr p, fs', outside') ->
  fst (GitRepo.commit self msg w) =
  if (returncode p =? 0)%nat then inr tt
  else if Str.contains "nothing to commit" (stderr p) then inr tt
       else inl (GitError ("Commit失败：" +:+ stderr p)).
Proof.
  intros Hrun.
  unfold GitRepo.commit, try_except, bind, GitRepo._run_git. simpl.
  rewrite Hrun.
  destruct (returncode p =? 0)%nat; simpl; [reflexivity|].
  destruct (Str.contains "nothing to commit" (stderr p)); reflexivity.
Qed.

(** C7: [git commit] with nothing staged exits with status 1, says so on
    its standard output and leaves its standard error empty.  [commit]
    looks for the words on the standard error, so it raises [GitError];
    [process] then takes the file back to the inbox and reports failure. *)
Theorem commit_nothing_to_commit_raises_GitError :
  fst (GitRepo.commit
         (GitRepo.init ["/"; "ws"; ".repo"]) "Update Character: Hero"
         (Scenario.world
            Scenario.files
            [fails_with 1 ("On branch main" +:+ LF +:+
                           "nothing to commit, working tree clean" +:+ LF) ""]))
  = inl (GitError "Commit失败：") /\
  match Scenario.run
          (Scenario.cfg None) Scenario.inbox_file
          (Scenario.world
             Scenario.files
             [succeeds; succeeds;
              fails_with 1 ("On branch main" +:+ LF +:+
                            "nothing to commit, working tree clean" +:+ LF) ""])
  with
  | (r, w') =>
      r = inr false /\
      fs w' !! Scenario.inbox_file = Some (File "mesh") /\
      fs w' !! Scenario.target_file = None /\
      git_calls w' =
        [["pull"];
         ["add"; "Assets/GameRes/GameRes/Character/Hero/GameRes_Character_Hero.fbx"];
         ["commit"; "-m"; "Update Character: Hero"]] /\
      printed w' = [MovedBackToInbox (GitError "Commit失败：")]
  end.
Proof.
  split; [vm_compute; reflexivity|].
  vm_compute. repeat split; reflexivity.
Qed.

Lemma strip_prefix_app (pre rest : path) :
  PurePath.strip_prefix pre (pre ++ rest) = Some rest.
Proof.
  induction pre as [|x pre IH]; simpl; [reflexivity|].
  by rewrite String.eqb_refl.
Qed.

Lemma relative_to_app (pre rest : path) :
  pre <> [] -> PurePath.relative_to (pre ++ rest) pre = inr rest.
Proof.
  intros Hne. unfold PurePath.relative_to. destruct pre as [|x pre]; [done|].
  by rewrite strip_prefix_app.
Qed.

(** The guard of [add] and [remove] compares the parts of the two paths
    and resolves nothing.  For every path whose parts do not begin with
    the parts of the repository root, [add] and [remove] raise [GitError]
    and leave the world as it was: no [git] is run.  For every other path
    [git] is run on the rest of the parts, [..] included. *)
Lemma guard_compares_parts
      (H : Host) (self : GitRepo.t) (file_path : path) (w : World) :
  (PurePath.is_relative_to file_path (GitRepo.repo_path self) = false ->
   GitRepo.add self file_path w
   = (inl (GitError ("文件不在仓库中：" +:+ PurePath.to_string file_path)), w) /\
   GitRepo.remove self file_path w
   = (inl (GitError ("文件不在仓库中：" +:+ PurePath.to_string file_path)), w)) /\
  (forall rel,
     PurePath.relative_to file_path (GitRepo.repo_path self) = inr rel ->
     git_calls (snd (GitRepo.add self file_path w))
     = git_calls w ++ [["add"; PurePath.to_string rel]] /\
     git_calls (snd (GitRepo.remove self file_path w))
     = git_calls w ++ [["rm"; PurePath.to_string rel]]).
Proof.
  split.
  - unfold PurePath.is_relative_to. intros Hrel.
    assert (He : PurePath.relative_to file_path (GitRepo.repo_path self)
                 = inl ValueError).
    { unfold PurePath.relative_to in *.
      destruct (GitRepo.repo_path self);
        [destruct (PurePath.is_absolute file_path)|
         destruct (PurePath.strip_prefix _ _)]; done. }
    unfold GitRepo.add, GitRepo.remove, try_except, bind, lift, raise.
    rewrite He. simpl. done.
  - intros rel Hrel.
    unfold GitRepo.add, GitRepo.remove, try_except, bind, lift, GitRepo._run_git.
    rewrite Hrel. simpl.
    split.
    + destruct (subprocess_run _ _ _ _) as [[[e|p] fs'] o']; simpl.
      * destruct e; simpl; reflexivity.
      * destruct (returncode p =? 0)%nat; simpl; reflexivity.
    + destruct (subprocess_run _ _ _ _) as [[[e|p] fs'] o']; simpl.
      * destruct e; simpl; reflexivity.
      * destruct (returncode p =? 0)%nat; simpl; reflexivity.
Qed.

(** C8: the guard lets a path that leaves the repository through [..] go
    by.  For every repository path, every host and every world, [add] and
    [remove] of a path made of the parts of the repository root, then
    [..], then anything, run [git] on [../...]: the guard does not raise.
    [/ws/.repo/../outside.txt] is such a path, and it is outside
    [/ws/.repo].  What [add] and [remove] then answer is [git]'s business:
    with the answer [git] 2.39 gives they raise [GitError] with [git]'s
    message, after the run; with a [git] that accepts the path they
    return. *)
Theorem add_remove_guard_compares_parts
        (H : Host) (r : string) (rs rest : path) (w : World) :
  (git_calls (snd (GitRepo.add (GitRepo.init (r :: rs))
                               ((r :: rs) ++ ".." :: rest) w))
   = git_calls w ++ [["add"; PurePath.to_string (".." :: rest)]] /\
   git_calls (snd (GitRepo.remove (GitRepo.init (r :: rs))
                                  ((r :: rs) ++ ".." :: rest) w))
   = git_calls w ++ [["rm"; PurePath.to_string (".." :: rest)]]) /\
  PurePath.inside ["/"; "ws"; ".repo"] ["/"; "ws"; ".repo"; ".."; "outside.txt"]
  = false /\
  GitRepo.add (H := scripted_host) (GitRepo.init ["/"; "ws"; ".repo"])
              ["/"; "ws"; ".repo"; ".."; "outside.txt"]
              (Scenario.world Scenario.files [git_says_outside])
  = (inl (GitError ("Add失败：" +:+ stderr_of git_says_outside)),
     {| fs := Scenario.files; outside := []; now := Scenario.noon;
        git_calls := [["add"; "../outside.txt"]]; printed := [] |}) /\
  GitRepo.remove (H := scripted_host) (GitRepo.init ["/"; "ws"; ".repo"])
                 ["/"; "ws"; ".repo"; ".."; "outside.txt"]
                 (Scenario.world Scenario.files [git_says_outside])
  = (inl (GitError ("Remove失败：" +:+ stderr_of git_says_outside)),
     {| fs := Scenario.files; outside := []; now := Scenario.noon;
        git_calls := [["rm"; "../outside.txt"]]; printed := [] |}) /\
  GitRepo.add (H := scripted_host) (GitRepo.init ["/"; "ws"; ".repo"])
              ["/"; "ws"; ".repo"; ".."; "outside.txt"]
              (Scenario.world Scenario.files [])
  = (inr tt,
     {| fs := Scenario.files; outside := []; now := Scenario.noon;
        git_calls := [["add"; "../outside.txt"]]; printed := [] |}) /\
  GitRepo.remove (H := scripted_host) (GitRepo.init ["/"; "ws"; ".repo"])
                 ["/"; "ws"; ".repo"; ".."; "outside.txt"]
                 (Scenario.world Scenario.files [])
  = (inr tt,
     {| fs := Scenario.files; outside := []; now := Scenario.noon;
        git_calls := [["rm"; "../outside.txt"]]; printed := [] |}).
Proof.
  split.
  - apply (guard_compares_parts H (GitRepo.init (r :: rs))
                                ((r :: rs) ++ ".." :: rest) w).
    by apply (relative_to_app (r :: rs)).
  - repeat split; vm_compute; reflexivity.
Qed.

(** ** The orchestrator *)

Section Quiet.
Context {H : Host}.

Lemma quiet_ret {A} (a : A) : quiet (ret a).
Proof. intros w. split; reflexivity. Qed.

Lemma quiet_raise {A} (e : exception) : quiet (@raise H A e).
Proof. intros w. split; reflexivity. Qed.

Lemma quiet_lift {A} (r : result A) : quiet (lift r).
Proof. intros w. split; reflexivity. Qed.

Lemma quiet_print (r : report) : quiet (print r).
Proof. intros w. split; reflexivity. Qed.

Lemma quiet_datetime_now : quiet datetime_now.
Proof. intros w. split; reflexivity. Qed.

Lemma quiet_path_exists (p : path) : quiet (path_exists p).
Proof. intros w. split; reflexivity. Qed.

Lemma quiet_fs_call (f : FS -> errno + FS) : quiet (fs_call f).
Proof. intros w. unfold fs_call. destruct (f (fs w)); split; reflexivity. Qed.

Lemma quiet_bind {A B} (m : M A) (k : A -> M B) :
  quiet m -> (forall a, quiet (k a)) -> quiet (bind m k).
Proof.
  intros Hm Hk w. unfold bind. specialize (Hm w).
  destruct (m w) as [[e|a] w1]; simpl in *; [exact Hm|].
  destruct Hm as [Hg1 Ho1]. destruct (Hk a w1) as [Hg Ho]. split; congruence.
Qed.

Lemma quiet_try_except {A} (body : M A) (handler : exception -> option (M A)) :
  quiet body -> (forall e h, handler e = Some h -> quiet h) ->
  quiet (try_except body handler).
Proof.
  intros Hb Hh w. unfold try_except. specialize (Hb w).
  destruct (body w) as [[e|a] w1]; simpl in *; [|exact Hb].
  destruct (handler e) as [h|] eqn:E; simpl; [|exact Hb].
  destruct Hb as [Hg1 Ho1]. destruct (Hh e h E w1) as [Hg Ho]. split; congruence.
Qed.

End Quiet.

Create HintDb quiet.
#[local] Hint Resolve quiet_ret quiet_raise quiet_lift quiet_print
  quiet_datetime_now quiet_path_exists quiet_fs_call : quiet.

Section Orchestrator.
Context {L : PyLib} {H : Host}.
Implicit Types (self : FileProcessor.t Pattern) (w : World).

(** The Failure Sink runs no [git]. *)
Lemma move_to_failed_quiet self (file_path : path) :
  quiet (FileProcessor._move_to_failed self file_path).
Proof.
  unfold FileProcessor._move_to_failed, mkdir, shutil_move.
  apply quiet_try_except.
  - repeat (first [apply quiet_bind | intros ? | case_match]; auto with quiet).
  - intros e h [= <-]. auto with quiet.
Qed.

(** The Failure Sink returns, where [print] does: its handler catches
    every [Exception] of the move. *)
Lemma move_to_failed_returns self (file_path : path) w :
  fst (FileProcessor._move_to_failed self file_path w) = inr tt.
Proof.
  unfold FileProcessor._move_to_failed, try_except.
  destruct (bind _ _ w) as [[e|[]] w1]; reflexivity.
Qed.

(** So does the recovery after a failed [git] step. *)
Lemma handle_git_failure_returns self (target_path original_path : path)
      (error : exception) w :
  fst (FileProcessor._handle_git_failure self target_path original_path error w)
  = inr tt.
Proof.
  unfold FileProcessor._handle_git_failure, try_except.
  destruct (bind _ _ w) as [[e|[]] w1]; reflexivity.
Qed.

Lemma bind_returns {A B} (m : M A) (k : A -> M B) (a : A) w :
  fst (m w) = inr a -> bind m k w = k a (snd (m w)).
Proof. unfold bind. destruct (m w) as [[e|a'] w1]; simpl; congruence. Qed.

Lemma bind_raises {A B} (m : M A) (k : A -> M B) (e : exception) w :
  fst (m w) = inl e -> bind m k w = (inl e, snd (m w)).
Proof. unfold bind. destruct (m w) as [[e'|a'] w1]; simpl; congruence. Qed.

Lemma handler_answers_False self (file_path : path) (e : exception) w :
  bind (print (if is_ProcessError e then ProcessFailed e else UnknownError e))
       (fun _ => bind (FileProcessor._move_to_failed self file_path)
                      (fun _ => ret false)) w
  = (inr false, after_failure self file_path e w).
Proof.
  rewrite (bind_returns _ _ tt) by reflexivity.
  rewrite (bind_returns _ _ tt) by apply move_to_failed_returns.
  reflexivity.
Qed.

(** An exception before or at the move is handled by the outer [try]. *)
Lemma process_handles_relocate self (file_path : path) (e : exception) w w1 :
  FileProcessor.relocate self file_path w = (inl e, w1) ->
  FileProcessor.process self file_path w
  = (inr false, after_failure self file_path e w1).
Proof.
  intros Hr. unfold FileProcessor.process, try_except.
  rewrite (bind_raises _ _ e) by (rewrite Hr; reflexivity).
  rewrite Hr. simpl snd.
  destruct (is_ProcessError e) eqn:He.
  - rewrite <- (handler_answers_False self file_path e w1), He. reflexivity.
  - rewrite <- (handler_answers_False self file_path e w1), He. reflexivity.
Qed.

(** Moving a file to a free name in an existing directory. *)
Lemma shutil_move_file_to_free (files : FS) (src dst : path) (c : string) :
  Fs.lookup files src = Some (File c) ->
  Fs.lookup files dst = None ->
  Fs.is_dir files (PurePath.parent dst) = true ->
  Fs.shutil_move files src dst = inr (<[dst := File c]> (delete src files)).
Proof.
  intros Hsrc Hdst Hpar. unfold Fs.shutil_move, Fs.is_dir, Fs.os_rename in *.
  rewrite Hdst, Hsrc.
  unfold Fs.path_eqb. case_bool_decide as Heq; [congruence|].
  destruct (Fs.lookup files (PurePath.parent dst)) as [[|]|]; done.
Qed.

(** Making a directory that exists changes nothing. *)
Lemma mkdir_parents_existing (files : FS) (p : path) :
  Fs.is_dir files p = true -> Fs.mkdir_parents files p = inr files.
Proof.
  intros Hdir. unfold Fs.mkdir_parents.
  assert (Hmk : Fs.os_mkdir files p = inl EEXIST).
  { unfold Fs.os_mkdir, Fs.is_dir in *. destruct (Fs.lookup files p); done. }
  destruct (length p); simpl; rewrite Hmk, Hdir; reflexivity.
Qed.

(** Moving what is not there raises. *)
Lemma shutil_move_missing (files : FS) (src dst : path) :
  Fs.lookup files src = None -> exists e, Fs.shutil_move files src dst = inl e.
Proof.
  intros Hsrc. unfold Fs.shutil_move, Fs.os_rename, Fs.move_fallback.
  rewrite Hsrc.
  destruct (Fs.is_dir files dst); [|by eexists].
  destruct (Fs.path_eqb src dst); [by eexists|].
  destruct (Fs.exists_ files _); by eexists.
Qed.

(** The Failure Sink called on a path where no file is, in a workspace
    whose failed directory exists, leaves every file where it was. *)
Lemma move_to_failed_of_missing_file self (file_path : path) w :
  Fs.lookup (fs w) file_path = None ->
  Fs.is_dir (fs w) (Config.failed (FileProcessor.config self)) = true ->
  fs (snd (FileProcessor._move_to_failed self file_path w)) = fs w.
Proof.
  intros Hmiss Hdir.
  unfold FileProcessor._move_to_failed, try_except, mkdir, shutil_move,
    path_exists, datetime_now, print, ret.
  unfold bind at 1. unfold fs_call at 1.
  rewrite (mkdir_parents_existing _ _ Hdir).
  unfold bind at 1. simpl fs.
  destruct (Fs.exists_ (fs w) _).
  - unfold bind at 1. unfold bind at 1. unfold bind at 1. unfold fs_call. simpl fs.
    destruct (shutil_move_missing (fs w) file_path
                (PurePath.joinpath
                   (Config.failed (FileProcessor.config self))
                   (PurePath.stem file_path +:+ "_" +:+ strftime (now w) +:+
                    PurePath.suffix file_path)) Hmiss) as [e He].
    simpl. rewrite He. reflexivity.
  - unfold bind at 1. unfold bind at 1. unfold fs_call. simpl fs.
    destruct (shutil_move_missing (fs w) file_path
                (PurePath.joinpath
                   (Config.failed (FileProcessor.config self))
                   (PurePath.name file_path)) Hmiss) as [e He].
    simpl. rewrite He. reflexivity.
Qed.

(** The Failure Sink at work: the failed directory can be made, the file
    is there to move and its name is free in the failed directory. *)
Lemma move_to_failed_moves_file self (file_path : path) w (files : FS) (c : string) :
  Fs.mkdir_parents (fs w) (Config.failed (FileProcessor.config self)) = inr files ->
  Fs.lookup files file_path = Some (File c) ->
  Fs.lookup files (PurePath.joinpath (Config.failed (FileProcessor.config self))
                                     (PurePath.name file_path)) = None ->
  Fs.is_dir files
            (PurePath.parent
               (PurePath.joinpath (Config.failed (FileProcessor.config self))
                                  (PurePath.name file_path))) = true ->
  fs (snd (FileProcessor._move_to_failed self file_path w))
  = <[PurePath.joinpath (Config.failed (FileProcessor.config self))
                        (PurePath.name file_path) := File c]>
      (delete file_path files).
Proof.
  intros Hmk Hfile Hfree Hdir.
  unfold FileProcessor._move_to_failed, try_except, bind, mkdir, shutil_move,
    fs_call, path_exists, print, ret. simpl.
  rewrite Hmk. simpl. unfold Fs.exists_. rewrite Hfree. simpl.
  rewrite (shutil_move_file_to_free _ _ _ c Hfile Hfree Hdir). reflexivity.
Qed.

(** C2, amended: when the working copy is missing, or the name does not
    parse, the exception is a [ProcessError] raised with the world still
    as it was: nothing was made or moved at the target and no [git] was
    run.  The handler of [ProcessError] then reports it and calls the
    Failure Sink on the file, and [process] answers [False]; the world it
    leaves is the one the Failure Sink leaves, and still no [git] was
    run.  When the failed directory can be made and the name of the file
    is free in it, the file is then in the failed directory and no longer
    in the inbox. *)
Theorem process_pre_move_failure_goes_to_failure_sink self (file_path : path) w :
  Fs.exists_ (fs w)
             (PurePath.joinpath (GitRepo.repo_path (FileProcessor.repo self)) ".git")
  = false \/
  (exists d, FilenameParser.parse (FileProcessor.parser self)
                                  (PurePath.name file_path) = inl (ParseError d)) ->
  exists e,
    is_ProcessError e = true /\
    FileProcessor.relocate self file_path w = (inl e, w) /\
    FileProcessor.process self file_path w
    = (inr false,
       snd (FileProcessor._move_to_failed
              self file_path (snd (print (ProcessFailed e) w)))) /\
    git_calls (snd (FileProcessor.process self file_path w)) = git_calls w /\
    outside (snd (FileProcessor.process self file_path w)) = outside w /\
    (forall files c,
        Fs.mkdir_parents (fs w) (Config.failed (FileProcessor.config self))
        = inr files ->
        Fs.lookup files file_path = Some (File c) ->
        Fs.lookup files
                  (PurePath.joinpath (Config.failed (FileProcessor.config self))
                                     (PurePath.name file_path)) = None ->
        Fs.is_dir files
                  (PurePath.parent
                     (PurePath.joinpath (Config.failed (FileProcessor.config self))
                                        (PurePath.name file_path))) = true ->
        fs (snd (FileProcessor.process self file_path w))
        = <[PurePath.joinpath (Config.failed (FileProcessor.config self))
                              (PurePath.name file_path) := File c]>
            (delete file_path files)).
Proof.
  intros Hpre.
  assert (Hrel : exists e, is_ProcessError e = true /\
                           FileProcessor.relocate self file_path w = (inl e, w)).
  { unfold FileProcessor.relocate, GitRepo.exists_, path_exists.
    unfold bind at 1.
    destruct (Fs.exists_ (fs w) _) eqn:Hex; simpl.
    - destruct Hpre as [Hno|[d Hd]]; [discriminate|].
      unfold bind, try_except, lift, raise. rewrite Hd. simpl.
      eexists. split; [|reflexivity]. reflexivity.
    - eexists. split; [|reflexivity]. reflexivity. }
  destruct Hrel as (e & He & Hrel). exists e.
  pose proof (process_handles_relocate self file_path e w w Hrel) as Hp.
  unfold after_failure in Hp. rewrite He in Hp.
  split; [exact He|]. split; [exact Hrel|]. split; [exact Hp|].
  rewrite Hp.
  destruct (move_to_failed_quiet self file_path
              (snd (print (ProcessFailed e) w))) as [Hg Ho].
  split; [exact Hg|]. split; [exact Ho|].
  intros files c Hmk Hfile Hfree Hdir.
  apply (move_to_failed_moves_file self file_path _ files c); assumption.
Qed.

(** An exception after the move that is no [GitError] is handled by the
    outer [try]: the Failure Sink is called on the path [process] was
    given, where the file no longer is.  In a workspace whose failed
    directory exists this moves nothing: the file stays where the [git]
    steps left it. *)
Lemma process_unknown_error_after_move
      self (file_path : path) w w1 w2
      (parsed : ParsedFilename) (target_path : path) (e : exception) :
  FileProcessor.relocate self file_path w = (inr (parsed, target_path), w1) ->
  FileProcessor.git_steps self parsed target_path w1 = (inl e, w2) ->
  is_GitError e = false ->
  FileProcessor.process self file_path w
  = (inr false, after_failure self file_path e w2) /\
  (Fs.lookup (fs w2) file_path = None ->
   Fs.is_dir (fs w2) (Config.failed (FileProcessor.config self)) = true ->
   fs (after_failure self file_path e w2) = fs w2).
Proof.
  intros Hrel Hgit Hnot. split.
  - unfold FileProcessor.process. unfold try_except at 1.
    rewrite (bind_returns _ _ (parsed, target_path)) by (rewrite Hrel; reflexivity).
    rewrite Hrel. simpl fst. simpl snd.
    unfold bind at 1. unfold try_except at 1.
    rewrite (bind_raises _ _ e) by (rewrite Hgit; reflexivity).
    rewrite Hgit. simpl snd. rewrite Hnot.
    pose proof (handler_answers_False self file_path e w2) as Hh.
    destruct (is_ProcessError e); exact Hh.
  - intros Hmiss Hdir. unfold after_failure.
    etransitivity; [apply move_to_failed_of_missing_file; assumption|reflexivity].
Qed.

(** C6: what [process] does when the version-control stage fails after
    the move depends on the exception that comes out of it.  For a
    [GitError] it answers [False] after the recovery: if the parent of the
    original path exists it calls [shutil.move] from the target path back
    to the original path (and reports, should that call raise), otherwise
    it calls the Failure Sink on the target path; with the file at the
    target path, the move back puts it at its original path, and the
    Failure Sink puts it in the failed directory, and nothing is left at
    the target path.  For any other exception (the [git] executable cannot
    be started, the commit template names an unknown field) there is no
    recovery: the handler calls the Failure Sink on the original path,
    where the file no longer is, and in a workspace whose failed directory
    exists the file stays at the target path. *)
Theorem process_git_failure_recovers
        self (file_path : path) w w1 w2
        (parsed : ParsedFilename) (target_path : path) (e : exception) :
  FileProcessor.relocate self file_path w = (inr (parsed, target_path), w1) ->
  FileProcessor.git_steps self parsed target_path w1 = (inl e, w2) ->
  (is_GitError e = true ->
   exists w3,
     FileProcessor.process self file_path w = (inr false, w3) /\
     (Fs.exists_ (fs w2) (PurePath.parent file_path) = true ->
      match Fs.shutil_move (fs w2) target_path file_path with
      | inr files =>
          w3 = {| fs := files; outside := outside w2; now := now w2;
                  git_calls := git_calls w2;
                  printed := printed w2 ++ [MovedBackToInbox e] |}
      | inl code =>
          w3 = {| fs := fs w2; outside := outside w2; now := now w2;
                  git_calls := git_calls w2;
                  printed := printed w2 ++ [CannotRecover (OSError code)] |}
      end) /\
     (Fs.exists_ (fs w2) (PurePath.parent file_path) = false ->
      w3 = snd (print (GitFailed e)
                      (snd (FileProcessor._move_to_failed self target_path w2)))) /\
     (forall c,
         Fs.lookup (fs w2) target_path = Some (File c) ->
         Fs.lookup (fs w2) file_path = None ->
         Fs.is_dir (fs w2) (PurePath.parent file_path) = true ->
         fs w3 = <[file_path := File c]> (delete target_path (fs w2))) /\
     (forall files c,
         Fs.exists_ (fs w2) (PurePath.parent file_path) = false ->
         Fs.mkdir_parents (fs w2) (Config.failed (FileProcessor.config self))
         = inr files ->
         Fs.lookup files target_path = Some (File c) ->
         Fs.lookup files
                   (PurePath.joinpath (Config.failed (FileProcessor.config self))
                                      (PurePath.name target_path)) = None ->
         Fs.is_dir files
                   (PurePath.parent
                      (PurePath.joinpath (Config.failed (FileProcessor.config self))
                                         (PurePath.name target_path))) = true ->
         fs w3 = <[PurePath.joinpath (Config.failed (FileProcessor.config self))
                                     (PurePath.name target_path) := File c]>
                   (delete target_path files))) /\
  (is_GitError e = false ->
   FileProcessor.process self file_path w
   = (inr false,
      snd (FileProcessor._move_to_failed
             self file_path
             (snd (print (if is_ProcessError e then ProcessFailed e
                          else UnknownError e) w2)))) /\
   (Fs.lookup (fs w2) file_path = None ->
    Fs.is_dir (fs w2) (Config.failed (FileProcessor.config self)) = true ->
    fs (snd (FileProcessor.process self file_path w)) = fs w2)).
Proof.
  intros Hrel Hgit. split; intros He.
  - exists (snd (FileProcessor._handle_git_failure
                   self target_path file_path e w2)).
    assert (Hproc :
      FileProcessor.process self file_path w
      = (inr false,
         snd (FileProcessor._handle_git_failure
                self target_path file_path e w2))).
    { unfold FileProcessor.process. unfold try_except at 1.
      rewrite (bind_returns _ _ (parsed, target_path)) by (rewrite Hrel; reflexivity).
      rewrite Hrel. simpl fst. simpl snd.
      unfold bind at 1. unfold try_except at 1.
      rewrite (bind_raises _ _ e) by (rewrite Hgit; reflexivity).
      rewrite Hgit. simpl snd. rewrite He.
      rewrite (bind_returns _ _ tt) by apply handle_git_failure_returns.
      reflexivity. }
    split; [exact Hproc|].
    assert (Hthere :
      Fs.exists_ (fs w2) (PurePath.parent file_path) = true ->
      match Fs.shutil_move (fs w2) target_path file_path with
      | inr files =>
          snd (FileProcessor._handle_git_failure
                 self target_path file_path e w2)
          = {| fs := files; outside := outside w2; now := now w2;
               git_calls := git_calls w2;
               printed := printed w2 ++ [MovedBackToInbox e] |}
      | inl code =>
          snd (FileProcessor._handle_git_failure
                 self target_path file_path e w2)
          = {| fs := fs w2; outside := outside w2; now := now w2;
               git_calls := git_calls w2;
               printed := printed w2 ++ [CannotRecover (OSError code)] |}
      end).
    { intros Hex.
      unfold FileProcessor._handle_git_failure, try_except, bind, path_exists,
        shutil_move, fs_call, print.
      rewrite Hex.
      destruct (Fs.shutil_move (fs w2) target_path file_path); reflexivity. }
    assert (Hgone :
      Fs.exists_ (fs w2) (PurePath.parent file_path) = false ->
      snd (FileProcessor._handle_git_failure self target_path file_path e w2)
      = snd (print (GitFailed e)
                   (snd (FileProcessor._move_to_failed self target_path w2)))).
    { intros Hex.
      unfold FileProcessor._handle_git_failure, try_except, path_exists.
      unfold bind at 1. rewrite Hex.
      rewrite (bind_returns _ _ tt) by apply move_to_failed_returns.
      reflexivity. }
    split; [exact Hthere|]. split; [exact Hgone|]. split.
    + intros c Htarget Hfree Hdir.
      assert (Hex : Fs.exists_ (fs w2) (PurePath.parent file_path) = true).
      { unfold Fs.exists_, Fs.is_dir in *.
        destruct (Fs.lookup (fs w2) (PurePath.parent file_path)); done. }
      specialize (Hthere Hex).
      rewrite (shutil_move_file_to_free _ _ _ c Htarget Hfree Hdir) in Hthere.
      rewrite Hthere. reflexivity.
    + intros files c Hex Hmk Htarget Hfree Hdir.
      rewrite (Hgone Hex).
      etransitivity;
        [|apply (move_to_failed_moves_file self target_path w2 files c);
          assumption].
      reflexivity.
  - destruct (process_unknown_error_after_move
                self file_path w w1 w2 parsed target_path e Hrel Hgit He)
      as [Hp Hfs].
    unfold after_failure in Hp, Hfs. split; [exact Hp|].
    intros Hmiss Hdir. rewrite Hp. apply Hfs; assumption.
Qed.

(** Where [print] returns, [process] answers [True] or [False]. *)
Lemma process_returns self (file_path : path) w :
  exists b, fst (FileProcessor.process self file_path w) = inr b.
Proof.
  unfold FileProcessor.process. unfold try_except at 1.
  destruct (bind (FileProcessor.relocate self file_path) _ w) as [[e|b] w1].
  - exists false. destruct (is_ProcessError e) eqn:He.
    + pose proof (handler_answers_False self file_path e w1) as Hh.
      rewrite He in Hh. rewrite Hh. reflexivity.
    + pose proof (handler_answers_False self file_path e w1) as Hh.
      rewrite He in Hh. rewrite Hh. reflexivity.
  - exists b. reflexivity.
Qed.

End Orchestrator.

(** The scenario's processor is the one [FileProcessor(config)] builds. *)
Lemma scenario_processor_init (commit_template : option string) :
  FileProcessor.init (Scenario.cfg commit_template)
  = inr (Scenario.processor (Scenario.cfg commit_template)).
Proof. vm_compute. reflexivity. Qed.

(** The scenario of the specification: the name parses, the target path
    is the one it gives, and with every [git] step succeeding the file is
    handed off. *)
Example scenario_handoff :
  FilenameParser.parse (parser_of Scenario.naming_pattern) Scenario.hero
  = inr Scenario.parsed_hero /\
  PathGenerator.generate
    (PathGenerator.init "{module}/{category}/{feature}/" "Assets/GameRes/")
    Scenario.parsed_hero ["/"; "ws"; ".repo"]
  = inr Scenario.target_file /\
  match Scenario.run (Scenario.cfg None) Scenario.inbox_file
                     (Scenario.world Scenario.files [])
  with
  | (r, w') =>
      r = inr true /\
      fs w' !! Scenario.inbox_file = None /\
      fs w' !! Scenario.target_file = Some (File "mesh") /\
      git_calls w' =
        [["pull"];
         ["add"; "Assets/GameRes/GameRes/Character/Hero/GameRes_Character_Hero.fbx"];
         ["commit"; "-m"; "Update Character: Hero"];
         ["push"]] /\
      printed w' =
        [Succeeded Scenario.hero;
         Target ["Assets"; "GameRes"; "GameRes"; "Character"; "Hero"; Scenario.hero]]
  end.
Proof.
  split; [vm_compute; reflexivity|]. split; [vm_compute; reflexivity|].
  vm_compute. repeat split; reflexivity.
Qed.

(** C2, as stated, fails: with the working copy missing, and with a name
    that does not parse, the file does not stay in the inbox: [process]
    moves it to the failed directory. *)
Lemma pre_move_failure_moves_file_to_failed :
  match Scenario.run (Scenario.cfg None) Scenario.inbox_file
                     (Scenario.world Scenario.files_without_repo [])
  with
  | (r, w') =>
      r = inr false /\
      fs w' !! Scenario.inbox_file = None /\
      fs w' !! Scenario.failed_file = Some (File "mesh") /\
      git_calls w' = []
  end /\
  match Scenario.run
          (Scenario.cfg None) ["/"; "ws"; "inbox"; "bad name.fbx"]
          (Scenario.world
             (<[ ["/"; "ws"; "inbox"; "bad name.fbx"] := File "mesh" ]> Scenario.files)
             [])
  with
  | (r, w') =>
      r = inr false /\
      fs w' !! ["/"; "ws"; "inbox"; "bad name.fbx"] = None /\
      fs w' !! ["/"; "ws"; "failed"; "bad name.fbx"] = Some (File "mesh") /\
      git_calls w' = []
  end.
Proof. split; vm_compute; repeat split; reflexivity. Qed.

(** The amended C2 at the scenario without a working copy. *)
Lemma process_pre_move_failure_witness :
  exists e,
    is_ProcessError e = true /\
    FileProcessor.relocate
      (Scenario.processor (Scenario.cfg None)) Scenario.inbox_file
      (Scenario.world Scenario.files_without_repo [])
    = (inl e, Scenario.world Scenario.files_without_repo []) /\
    FileProcessor.process
      (Scenario.processor (Scenario.cfg None)) Scenario.inbox_file
      (Scenario.world Scenario.files_without_repo [])
    = (inr false,
       snd (FileProcessor._move_to_failed
              (Scenario.processor (Scenario.cfg None)) Scenario.inbox_file
              (snd (print (ProcessFailed e)
                          (Scenario.world Scenario.files_without_repo []))))) /\
    git_calls (snd (FileProcessor.process
                      (Scenario.processor (Scenario.cfg None)) Scenario.inbox_file
                      (Scenario.world Scenario.files_without_repo [])))
    = [] /\
    outside (snd (FileProcessor.process
                    (Scenario.processor (Scenario.cfg None)) Scenario.inbox_file
                    (Scenario.world Scenario.files_without_repo [])))
    = [] /\
    fs (snd (FileProcessor.process
               (Scenario.processor (Scenario.cfg None)) Scenario.inbox_file
               (Scenario.world Scenario.files_without_repo [])))
    = <[Scenario.failed_file := File "mesh"]>
        (delete Scenario.inbox_file
                (<[ ["/"; "ws"; "failed"] := Dir ]> Scenario.files_without_repo)).
Proof.
  destruct (process_pre_move_failure_goes_to_failure_sink
              (L := re_fragment) (H := scripted_host)
              (Scenario.processor (Scenario.cfg None)) Scenario.inbox_file
              (Scenario.world Scenario.files_without_repo []))
    as (e & He & Hrel & Hp & Hg & Ho & Hfs).
  - left. vm_compute. reflexivity.
  - exists e. repeat (split; [assumption|]).
    apply (Hfs (<[ ["/"; "ws"; "failed"] := Dir ]> Scenario.files_without_repo)
               "mesh").
    + by_decision.
    + vm_compute. reflexivity.
    + vm_compute. reflexivity.
    + vm_compute. reflexivity.
Defined.

(** C6 at three runs of the scenario.  A rejected push: the file is back
    in the inbox.  A failed pull that also removed the inbox directory: the
    file is in the failed directory.  A [git] that cannot be started: no
    recovery, the file stays in the working copy, in neither the inbox nor
    the failed directory. *)
Lemma process_git_failure_witness :
  (exists w3,
      FileProcessor.process
        (Scenario.processor (Scenario.cfg None)) Scenario.inbox_file
        (Scenario.world Scenario.files
                        [succeeds; succeeds; succeeds; fails_with 1 "" "rejected"])
      = (inr false, w3) /\
      fs w3 !! Scenario.inbox_file = Some (File "mesh") /\
      fs w3 !! Scenario.target_file = None) /\
  (exists w3,
      FileProcessor.process
        (Scenario.processor (Scenario.cfg None)) Scenario.inbox_file
        (Scenario.world
           Scenario.files
           [{| answer := inr {| returncode := 1; stdout := ""; stderr := "conflict" |};
               changes := [(["/"; "ws"; "inbox"], None)] |}])
      = (inr false, w3) /\
      fs w3 !! Scenario.failed_file = Some (File "mesh") /\
      fs w3 !! Scenario.target_file = None /\
      fs w3 !! Scenario.inbox_file = None) /\
  (fst (FileProcessor.process
          (Scenario.processor (Scenario.cfg None)) Scenario.inbox_file
          (Scenario.world
             (<[ ["/"; "ws"; "failed"] := Dir ]> Scenario.files)
             [{| answer := inl (OSError ENOENT); changes := [] |}]))
   = inr false /\
   fs (snd (FileProcessor.process
              (Scenario.processor (Scenario.cfg None)) Scenario.inbox_file
              (Scenario.world
                 (<[ ["/"; "ws"; "failed"] := Dir ]> Scenario.files)
                 [{| answer := inl (OSError ENOENT); changes := [] |}])))
   !! Scenario.target_file = Some (File "mesh") /\
   fs (snd (FileProcessor.process
              (Scenario.processor (Scenario.cfg None)) Scenario.inbox_file
              (Scenario.world
                 (<[ ["/"; "ws"; "failed"] := Dir ]> Scenario.files)
                 [{| answer := inl (OSError ENOENT); changes := [] |}])))
   !! Scenario.inbox_file = None /\
   fs (snd (FileProcessor.process
              (Scenario.processor (Scenario.cfg None)) Scenario.inbox_file
              (Scenario.world
                 (<[ ["/"; "ws"; "failed"] := Dir ]> Scenario.files)
                 [{| answer := inl (OSError ENOENT); changes := [] |}])))
   !! Scenario.failed_file = None).
Proof.
  split; [|split].
  - set (w := Scenario.world Scenario.files
                [succeeds; succeeds; succeeds; fails_with 1 "" "rejected"]).
    set (self := Scenario.processor (Scenario.cfg None)).
    set (w1 := snd (FileProcessor.relocate
                      (L := re_fragment) (H := scripted_host)
                      self Scenario.inbox_file w)).
    set (w2 := snd (FileProcessor.git_steps
                      (L := re_fragment) (H := scripted_host)
                      self Scenario.parsed_hero Scenario.target_file w1)).
    destruct (process_git_failure_recovers
                (L := re_fragment) (H := scripted_host)
                self Scenario.inbox_file w w1 w2
                Scenario.parsed_hero Scenario.target_file
                (GitError "Push失败：rejected"))
      as [Hgit _].
    + apply pair_with_snd. vm_compute. reflexivity.
    + apply pair_with_snd. vm_compute. reflexivity.
    + destruct (Hgit eq_refl) as (w3 & Hp & _ & _ & Hback & _).
      exists w3. split; [exact Hp|].
      rewrite (Hback "mesh") by (vm_compute; reflexivity).
      split; vm_compute; reflexivity.
  - set (w := Scenario.world
                Scenario.files
                [{| answer := inr {| returncode := 1; stdout := "";
                                     stderr := "conflict" |};
                    changes := [(["/"; "ws"; "inbox"], None)] |}]).
    set (self := Scenario.processor (Scenario.cfg None)).
    set (w1 := snd (FileProcessor.relocate
                      (L := re_fragment) (H := scripted_host)
                      self Scenario.inbox_file w)).
    set (w2 := snd (FileProcessor.git_steps
                      (L := re_fragment) (H := scripted_host)
                      self Scenario.parsed_hero Scenario.target_file w1)).
    destruct (process_git_failure_recovers
                (L := re_fragment) (H := scripted_host)
                self Scenario.inbox_file w w1 w2
                Scenario.parsed_hero Scenario.target_file
                (GitError "Pull失败：conflict"))
      as [Hgit _].
    + apply pair_with_snd. vm_compute. reflexivity.
    + apply pair_with_snd. vm_compute. reflexivity.
    + destruct (Hgit eq_refl) as (w3 & Hp & _ & _ & _ & Hsink).
      exists w3. split; [exact Hp|].
      set (files := match Fs.mkdir_parents
                            (fs w2) (Config.failed (FileProcessor.config self))
                    with inr files => files | inl _ => fs w2 end).
      assert (Hmk : Fs.mkdir_parents
                      (fs w2) (Config.failed (FileProcessor.config self))
                    = inr files) by by_decision.
      rewrite (Hsink files "mesh"); [|vm_compute; reflexivity|exact Hmk
                                     |vm_compute; reflexivity..].
      repeat split; vm_compute; reflexivity.
  - set (w := Scenario.world
                (<[ ["/"; "ws"; "failed"] := Dir ]> Scenario.files)
                [{| answer := inl (OSError ENOENT); changes := [] |}]).
    set (self := Scenario.processor (Scenario.cfg None)).
    set (w1 := snd (FileProcessor.relocate
                      (L := re_fragment) (H := scripted_host)
                      self Scenario.inbox_file w)).
    set (w2 := snd (FileProcessor.git_steps
                      (L := re_fragment) (H := scripted_host)
                      self Scenario.parsed_hero Scenario.target_file w1)).
    destruct (process_git_failure_recovers
                (L := re_fragment) (H := scripted_host)
                self Scenario.inbox_file w w1 w2
                Scenario.parsed_hero Scenario.target_file (OSError ENOENT))
      as [_ Hother].
    + apply pair_with_snd. vm_compute. reflexivity.
    + apply pair_with_snd. vm_compute. reflexivity.
    + destruct (Hother eq_refl) as [Hp Hfs].
      split; [rewrite Hp; reflexivity|].
      rewrite Hfs by (vm_compute; reflexivity).
      repeat split; vm_compute; reflexivity.
Defined.

(** C1: the inbox file of the scenario, under the commit template of
    [constants.py].  The file is moved, pulled and added; the template then
    raises [KeyError]; the handler calls the Failure Sink on the inbox
    path, where the file no longer is.  [process] answers [False] with the
    file in the working copy, neither committed nor pushed, and in neither
    the inbox nor the failed directory.  The same happens, under the
    default template, when the [git] executable cannot be started. *)
Theorem process_leaves_file_uncommitted_at_target :
  match Scenario.run (Scenario.cfg (Some DEFAULT_COMMIT_TEMPLATE))
                     Scenario.inbox_file
                     (Scenario.world Scenario.files [])
  with
  | (r, w') =>
      r = inr false /\
      fs w' !! Scenario.inbox_file = None /\
      fs w' !! Scenario.failed_file = None /\
      Fs.has_children (fs w') ["/"; "ws"; "failed"] = false /\
      fs w' !! Scenario.target_file = Some (File "mesh") /\
      git_calls w' =
        [["pull"];
         ["add"; "Assets/GameRes/GameRes/Character/Hero/GameRes_Character_Hero.fbx"]] /\
      printed w' = [UnknownError (KeyError "file_count");
                    CannotMoveToFailed (OSError ENOENT)]
  end /\
  match Scenario.run (Scenario.cfg None) Scenario.inbox_file
                     (Scenario.world Scenario.files
                                     [{| answer := inl (OSError ENOENT);
                                         changes := [] |}])
  with
  | (r, w') =>
      r = inr false /\
      fs w' !! Scenario.inbox_file = None /\
      Fs.has_children (fs w') ["/"; "ws"; "failed"] = false /\
      fs w' !! Scenario.target_file = Some (File "mesh") /\
      git_calls w' = [["pull"]] /\
      printed w' = [UnknownError (OSError ENOENT);
                    CannotMoveToFailed (OSError ENOENT)]
  end.
Proof. split; vm_compute; repeat split; reflexivity. Qed.

(** * Further properties of the code *)

Section MoreOrchestrator.
Context {L : PyLib} {H : Host}.
Implicit Types (self : FileProcessor.t Pattern) (w : World).

Lemma bind_inr_inv {A B} (m : M A) (k : A -> M B) (b : B) w w' :
  bind m k w = (inr b, w') ->
  exists a w1, m w = (inr a, w1) /\ k a w1 = (inr b, w').
Proof. unfold bind. destruct (m w) as [[e|a] w1]; [discriminate|]. eauto. Qed.

(** A [try] whose handlers only raise or return leaves the world its body
    left. *)
Lemma try_except_snd {A} (body : M A) (handler : exception -> option (M A)) w :
  (forall e h w0, handler e = Some h -> snd (h w0) = w0) ->
  snd (try_except body handler w) = snd (body w).
Proof.
  intros Hh. unfold try_except. destruct (body w) as [[e|a] w1]; [|reflexivity].
  destruct (handler e) as [h|] eqn:E; [|reflexivity]. simpl. apply (Hh e h w1 E).
Qed.

Lemma on_called_process_error_snd {A} (prefix : string) (e : exception)
      (h : M A) w :
  GitRepo.on_called_process_error prefix e = Some h -> snd (h w) = w.
Proof. destruct e; simpl; try discriminate. by intros [= <-]. Qed.

Lemma run_git_log (self : GitRepo.t) (args : list string) w :
  git_calls (snd (GitRepo._run_git self args w)) = git_calls w ++ [args] /\
  printed (snd (GitRepo._run_git self args w)) = printed w /\
  now (snd (GitRepo._run_git self args w)) = now w.
Proof.
  unfold GitRepo._run_git.
  destruct (subprocess_run _ _ _ _) as [[[e|p] files] o]; simpl;
    [|destruct (returncode p =? 0)%nat]; auto.
Qed.

Lemma then_ret_snd {A} (m : M A) w : snd (bind m (fun _ => ret tt) w) = snd (m w).
Proof. unfold bind, ret. destruct (m w) as [[e|a] w1]; reflexivity. Qed.

(** Each of [pull], [commit] and [push] runs [git] once, whatever the
    outcome. *)
Lemma pull_log (self : GitRepo.t) w :
  git_calls (snd (GitRepo.pull self w)) = git_calls w ++ [["pull"]].
Proof.
  unfold GitRepo.pull.
  rewrite try_except_snd by (intros e h w0; apply on_called_process_error_snd).
  rewrite then_ret_snd. apply run_git_log.
Qed.

Lemma commit_log (self : GitRepo.t) (message : string) w :
  git_calls (snd (GitRepo.commit self message w))
  = git_calls w ++ [["commit"; "-m"; message]].
Proof.
  unfold GitRepo.commit. rewrite try_except_snd.
  - rewrite then_ret_snd. apply run_git_log.
  - intros e h w0. destruct e; try discriminate.
    destruct (Str.contains _ _); by intros [= <-].
Qed.

Lemma push_log (self : GitRepo.t) (branch : option string) w :
  git_calls (snd (GitRepo.push self branch w))
  = git_calls w ++ [match branch with
                    | Some (String c b) => ["push"; "origin"; String c b]
                    | _ => ["push"]
                    end].
Proof.
  unfold GitRepo.push.
  rewrite try_except_snd by (intros e h w0; apply on_called_process_error_snd).
  destruct branch as [[|c b]|]; rewrite then_ret_snd; apply run_git_log.
Qed.

(** [add] returns only for a path under the repository root, after one
    [git add] of the rest of the path. *)
Lemma add_inr_inv (self : GitRepo.t) (file_path : path) w w' (u : unit) :
  GitRepo.add self file_path w = (inr u, w') ->
  exists rel,
    PurePath.relative_to file_path (GitRepo.repo_path self) = inr rel /\
    git_calls w' = git_calls w ++ [["add"; PurePath.to_string rel]].
Proof.
  unfold GitRepo.add. intros Hadd.
  destruct (PurePath.relative_to file_path (GitRepo.repo_path self))
    as [e|rel] eqn:Hrel.
  - exfalso. revert Hadd. unfold try_except, bind, lift, raise.
    assert (e = ValueError) as ->.
    { unfold PurePath.relative_to in Hrel.
      destruct (GitRepo.repo_path self);
        [destruct (PurePath.is_absolute file_path)|
         destruct (PurePath.strip_prefix _ _)]; congruence. }
    simpl. discriminate.
  - exists rel. split; [reflexivity|].
    assert (Hsnd : snd (GitRepo.add self file_path w)
                   = snd (GitRepo._run_git self ["add"; PurePath.to_string rel] w)).
    { unfold GitRepo.add. rewrite try_except_snd.
      - unfold bind at 1, lift. rewrite Hrel. apply then_ret_snd.
      - intros e h w0. destruct (is_ValueError e); [by intros [= <-]|].
        apply on_called_process_error_snd. }
    unfold GitRepo.add in Hsnd. rewrite Hrel in Hsnd.
    rewrite Hadd in Hsnd. simpl in Hsnd.
    rewrite Hsnd. apply run_git_log.
Qed.

(** The [git] steps return only after [pull], [add], [commit] and [push]
    ran, in this order. *)
Lemma git_steps_inr_inv self (parsed : ParsedFilename) (target_path : path)
      w1 w2 (u : unit) :
  FileProcessor.git_steps self parsed target_path w1 = (inr u, w2) ->
  exists rel msg,
    PurePath.relative_to target_path (GitRepo.repo_path (FileProcessor.repo self))
    = inr rel /\
    FileProcessor.commit_message self parsed = inr msg /\
    git_calls w2 = git_calls w1 ++
                   [["pull"]; ["add"; PurePath.to_string rel];
                    ["commit"; "-m"; msg]; ["push"]].
Proof.
  unfold FileProcessor.git_steps. intros Hsteps.
  apply bind_inr_inv in Hsteps as ([] & wa & Hpull & Hsteps).
  apply bind_inr_inv in Hsteps as ([] & wb & Hadd & Hsteps).
  apply bind_inr_inv in Hsteps as (msg & wb' & Hmsg & Hsteps).
  apply bind_inr_inv in Hsteps as ([] & wc & Hcommit & Hpush).
  unfold lift in Hmsg. injection Hmsg as Hmsg <-.
  apply add_inr_inv in Hadd as (rel & Hrel & Hlog_add).
  exists rel, msg. split; [exact Hrel|]. split; [exact Hmsg|].
  pose proof (pull_log (FileProcessor.repo self) w1) as Hlog_pull.
  rewrite Hpull in Hlog_pull. simpl in Hlog_pull.
  pose proof (commit_log (FileProcessor.repo self) msg wb) as Hlog_commit.
  rewrite Hcommit in Hlog_commit. simpl in Hlog_commit.
  pose proof (push_log (FileProcessor.repo self) None wc) as Hlog_push.
  rewrite Hpush in Hlog_push. simpl in Hlog_push.
  rewrite Hlog_push, Hlog_commit, Hlog_add, Hlog_pull.
  rewrite <- !app_assoc. reflexivity.
Qed.

(** What steps 1 to 4 did when they return. *)
Lemma relocate_inr_inv self (file_path : path) w w1
      (parsed : ParsedFilename) (target_path : path) :
  FileProcessor.relocate self file_path w = (inr (parsed, target_path), w1) ->
  Fs.exists_ (fs w)
             (PurePath.joinpath (GitRepo.repo_path (FileProcessor.repo self)) ".git")
  = true /\
  FilenameParser.parse (FileProcessor.parser self) (PurePath.name file_path)
  = inr parsed /\
  PathGenerator.generate (FileProcessor.path_gen self) parsed
                         (Config.repo (FileProcessor.config self))
  = inr target_path /\
  exists files,
    Fs.mkdir_parents (fs w) (PurePath.parent target_path) = inr files /\
    Fs.shutil_move files file_path target_path = inr (fs w1) /\
    outside w1 = outside w /\ now w1 = now w /\
    git_calls w1 = git_calls w /\ printed w1 = printed w.
Proof.
  unfold FileProcessor.relocate, GitRepo.exists_, path_exists, mkdir, shutil_move,
    fs_call, try_except, lift, raise, ret.
  unfold bind at 1.
  destruct (Fs.exists_ (fs w) _) eqn:Hex; simpl; [|discriminate].
  unfold bind at 1.
  destruct (FilenameParser.parse _ _) as [e|p] eqn:Hparse; simpl.
  { destruct (is_ParseError e); discriminate. }
  unfold bind at 1.
  destruct (PathGenerator.generate _ _ _) as [e|t] eqn:Hgen; simpl; [discriminate|].
  unfold bind at 1.
  destruct (Fs.mkdir_parents (fs w) (PurePath.parent t)) as [e|files] eqn:Hmk;
    simpl; [discriminate|].
  unfold bind at 1. simpl.
  destruct (Fs.shutil_move files file_path t) as [e|files'] eqn:Hmv;
    simpl; [discriminate|].
  intros [= <- <- <-]. simpl.
  split; [reflexivity|]. split; [reflexivity|]. split; [assumption|].
  exists files. repeat split; first [assumption|reflexivity].
Qed.

Lemma relocate_quiet self (file_path : path) :
  quiet (FileProcessor.relocate self file_path).
Proof.
  unfold FileProcessor.relocate, GitRepo.exists_, mkdir, shutil_move.
  apply quiet_bind; [auto with quiet|]. intros there.
  destruct (negb there); [auto with quiet|].
  apply quiet_bind.
  - apply quiet_try_except; [auto with quiet|].
    intros e h. destruct (is_ParseError e); [|discriminate].
    intros [= <-]. auto with quiet.
  - intros parsed.
    repeat (first [apply quiet_bind | intros ?]; auto with quiet).
Qed.

(** [process] as a table of its outcomes: which handler runs, with which
    path, and what is answered. *)
Lemma process_cases self (file_path : path) w :
  FileProcessor.process self file_path w =
  match FileProcessor.relocate self file_path w with
  | (inl e, w1) => (inr false, after_failure self file_path e w1)
  | (inr (parsed, target_path), w1) =>
      match FileProcessor.git_steps self parsed target_path w1 with
      | (inl e, w2) =>
          if is_GitError e
          then (inr false,
                snd (FileProcessor._handle_git_failure
                       self target_path file_path e w2))
          else (inr false, after_failure self file_path e w2)
      | (inr _, w2) =>
          match PurePath.relative_to target_path
                                     (Config.repo (FileProcessor.config self)) with
          | inr rel =>
              (inr true,
               {| fs := fs w2; outside := outside w2; now := now w2;
                  git_calls := git_calls w2;
                  printed := (printed w2 ++ [Succeeded (PurePath.name file_path)])
                               ++ [Target rel] |})
          | inl e =>
              (inr false,
               after_failure
                 self file_path e
                 {| fs := fs w2; outside := outside w2; now := now w2;
                    git_calls := git_calls w2;
                    printed := printed w2 ++ [Succeeded (PurePath.name file_path)] |})
          end
      end
  end.
Proof.
  destruct (FileProcessor.relocate self file_path w) as [[e|[parsed target_path]] w1]
    eqn:Hrel.
  { apply process_handles_relocate. exact Hrel. }
  destruct (FileProcessor.git_steps self parsed target_path w1) as [[e|[]] w2]
    eqn:Hgit.
  - destruct (is_GitError e) eqn:He.
    + unfold FileProcessor.process. unfold try_except at 1.
      rewrite (bind_returns _ _ (parsed, target_path)) by (rewrite Hrel; reflexivity).
      rewrite Hrel. simpl fst. simpl snd.
      unfold bind at 1. unfold try_except at 1.
      rewrite (bind_raises _ _ e) by (rewrite Hgit; reflexivity).
      rewrite Hgit. simpl snd. rewrite He.
      rewrite (bind_returns _ _ tt) by apply handle_git_failure_returns.
      reflexivity.
    + apply (process_unknown_error_after_move self file_path w w1 w2
               parsed target_path e Hrel Hgit He).
  - unfold FileProcessor.process. unfold try_except at 1.
    rewrite (bind_returns _ _ (parsed, target_path)) by (rewrite Hrel; reflexivity).
    rewrite Hrel. simpl fst. simpl snd.
    unfold bind at 1. unfold try_except at 1.
    rewrite (bind_returns _ _ tt) by (rewrite Hgit; reflexivity).
    rewrite Hgit. simpl snd. unfold ret at 1. simpl.
    unfold bind at 1. unfold print at 1. unfold bind at 1. unfold lift at 1.
    destruct (PurePath.relative_to target_path _) as [e|rel]; simpl.
    + pose proof (handler_answers_False self file_path e
                    {| fs := fs w2; outside := outside w2; now := now w2;
                       git_calls := git_calls w2;
                       printed := printed w2 ++
                                  [Succeeded (PurePath.name file_path)] |}) as Hh.
      destruct (is_ProcessError e); exact Hh.
    + reflexivity.
Qed.

(** X2: no [git] before the move.  When any of steps 1 to 4 raises (the
    working copy is missing, the name does not parse, the path template
    names an unknown field, a directory cannot be made, the file cannot be
    moved), [process] answers [False] and has run no [git] command and
    left the outside of the process alone. *)
Theorem process_runs_no_git_before_move
        self (file_path : path) w (e : exception) w1 :
  FileProcessor.relocate self file_path w = (inl e, w1) ->
  fst (FileProcessor.process self file_path w) = inr false /\
  git_calls (snd (FileProcessor.process self file_path w)) = git_calls w /\
  outside (snd (FileProcessor.process self file_path w)) = outside w.
Proof.
  intros Hrel. rewrite process_cases, Hrel. simpl.
  split; [reflexivity|].
  destruct (relocate_quiet self file_path w) as [Hg Ho].
  rewrite Hrel in Hg, Ho. simpl in Hg, Ho.
  unfold after_failure.
  destruct (move_to_failed_quiet
              self file_path
              (snd (print (if is_ProcessError e then ProcessFailed e
                           else UnknownError e) w1))) as [Hg' Ho'].
  rewrite Hg', Ho'. simpl. auto.
Qed.

(** X3: [process] answers [True] exactly when steps 1 to 4 moved the file,
    every [git] step returned and the target path is under the configured
    repository.  Then [git] was run four times since [process] began:
    pull, add of the target path relative to the repository, commit with
    the formatted message, push, in this order; the name and the relative
    target were printed, and nothing else was done after the push. *)
Theorem process_True_iff_pushed self (file_path : path) w :
  fst (FileProcessor.process self file_path w) = inr true <->
  exists parsed target_path rel msg rel' w1 w2,
    FileProcessor.relocate self file_path w = (inr (parsed, target_path), w1) /\
    FileProcessor.git_steps self parsed target_path w1 = (inr tt, w2) /\
    PurePath.relative_to target_path
                         (GitRepo.repo_path (FileProcessor.repo self)) = inr rel /\
    FileProcessor.commit_message self parsed = inr msg /\
    git_calls w2 = git_calls w ++
                   [["pull"]; ["add"; PurePath.to_string rel];
                    ["commit"; "-m"; msg]; ["push"]] /\
    PurePath.relative_to target_path (Config.repo (FileProcessor.config self))
    = inr rel' /\
    snd (FileProcessor.process self file_path w)
    = {| fs := fs w2; outside := outside w2; now := now w2;
         git_calls := git_calls w2;
         printed := (printed w2 ++ [Succeeded (PurePath.name file_path)])
                      ++ [Target rel'] |}.
Proof.
  rewrite process_cases. split.
  - destruct (FileProcessor.relocate self file_path w)
      as [[e|[parsed target]] w1] eqn:Hrel; [discriminate|].
    destruct (FileProcessor.git_steps self parsed target w1) as [[e|[]] w2] eqn:Hgit.
    { destruct (is_GitError e); discriminate. }
    destruct (PurePath.relative_to target _) as [e|rel'] eqn:Hrel'; [discriminate|].
    intros _.
    destruct (git_steps_inr_inv self parsed target w1 w2 tt Hgit)
      as (rel & msg & Hr & Hm & Hlog).
    destruct (relocate_inr_inv self file_path w w1 parsed target Hrel)
      as (_ & _ & _ & files & _ & _ & _ & _ & Hg1 & _).
    exists parsed, target, rel, msg, rel', w1, w2.
    rewrite Hlog, Hg1. repeat split; reflexivity || assumption.
  - intros (parsed & target & rel & msg & rel' & w1 & w2
            & Hrel & Hgit & _ & _ & _ & Hrel' & _).
    rewrite Hrel, Hgit, Hrel'. reflexivity.
Qed.

End MoreOrchestrator.

(** ** The filesystem calls of the pipeline *)

Lemma lookup_file_raw (files : FS) (p : path) (c : string) :
  Fs.lookup files p = Some (File c) -> files !! p = Some (File c).
Proof. unfold Fs.lookup. destruct (Fs.fixed p); [discriminate|done]. Qed.

Lemma lookup_None_raw (files : FS) (p : path) :
  Fs.lookup files p = None -> Fs.fixed p = false /\ files !! p = None.
Proof. unfold Fs.lookup. destruct (Fs.fixed p); [discriminate|done]. Qed.

Lemma lookup_insert_dir (files : FS) (p q : path) :
  Fs.lookup (<[p := Dir]> files) q
  = if bool_decide (p = q) then Some Dir else Fs.lookup files q.
Proof.
  unfold Fs.lookup. case_bool_decide as Heq.
  - subst q. rewrite lookup_insert_eq. by destruct (Fs.fixed p).
  - rewrite lookup_insert_ne by done. reflexivity.
Qed.

Lemma grows_refl (files : FS) : grows files files.
Proof. intros q. destruct (Fs.lookup files q); auto. Qed.

Lemma grows_trans (f1 f2 f3 : FS) : grows f1 f2 -> grows f2 f3 -> grows f1 f3.
Proof.
  intros H12 H23 q. specialize (H12 q). specialize (H23 q).
  destruct (Fs.lookup f1 q) as [n|].
  - rewrite H12 in H23. exact H23.
  - destruct H12 as [E|E]; rewrite E in H23; auto.
Qed.

Lemma grows_is_dir (f1 f2 : FS) (p : path) :
  grows f1 f2 -> Fs.is_dir f1 p = true -> Fs.is_dir f2 p = true.
Proof.
  intros Hg. specialize (Hg p). unfold Fs.is_dir.
  destruct (Fs.lookup f1 p) as [[|]|]; try discriminate. by rewrite Hg.
Qed.

Lemma os_mkdir_grows (files files' : FS) (p : path) :
  Fs.os_mkdir files p = inr files' ->
  Fs.is_dir files' p = true /\ grows files files'.
Proof.
  unfold Fs.os_mkdir.
  destruct (Fs.lookup files p) eqn:Hp; [discriminate|].
  destruct (Fs.lookup files (PurePath.parent p)) as [[|]|]; try discriminate.
  intros [= <-]. split.
  - unfold Fs.is_dir. rewrite lookup_insert_dir.
    by rewrite bool_decide_eq_true_2.
  - intros q. rewrite lookup_insert_dir. case_bool_decide as Heq.
    + subst q. rewrite Hp. by right.
    + destruct (Fs.lookup files q); auto.
Qed.

Lemma mkdir_exist_ok_grows (files files' : FS) (p : path) :
  Fs.mkdir_exist_ok files p = inr files' ->
  Fs.is_dir files' p = true /\ grows files files'.
Proof.
  unfold Fs.mkdir_exist_ok.
  destruct (Fs.os_mkdir files p) as [e|f1] eqn:Hmk.
  - destruct (Fs.is_dir files p) eqn:Hd; destruct e; try discriminate;
      intros [= <-]; split; auto using grows_refl.
  - intros [= <-]. by apply os_mkdir_grows.
Qed.

Lemma mkdir_parents_fuel_grows (fuel : nat) :
  forall (files files' : FS) (p : path),
    Fs.mkdir_parents_fuel fuel files p = inr files' ->
    Fs.is_dir files' p = true /\ grows files files'.
Proof.
  induction fuel as [|n IH]; intros files files' p; simpl.
  - destruct (Fs.os_mkdir files p) as [e|f1] eqn:Hmk.
    + destruct (Fs.is_dir files p) eqn:Hd, (Fs.path_eqb (PurePath.parent p) p);
        destruct e; try discriminate;
        intros [= <-]; split; auto using grows_refl.
    + intros [= <-]. by apply os_mkdir_grows.
  - destruct (Fs.os_mkdir files p) as [e|f1] eqn:Hmk.
    + assert (Hother : (if Fs.is_dir files p then inr files else inl e) = inr files' ->
                       Fs.is_dir files' p = true /\ grows files files').
      { destruct (Fs.is_dir files p) eqn:Hd; [|discriminate].
        intros [= <-]. split; auto using grows_refl. }
      destruct e; try exact Hother.
      destruct (Fs.path_eqb (PurePath.parent p) p); [discriminate|].
      destruct (Fs.mkdir_parents_fuel n files (PurePath.parent p)) as [e|f1] eqn:Hrec;
        [discriminate|].
      intros Hlast. destruct (IH _ _ _ Hrec) as [_ Hg1].
      destruct (mkdir_exist_ok_grows _ _ _ Hlast) as [Hd Hg2].
      split; [exact Hd|]. by apply (grows_trans _ f1).
    + intros [= <-]. by apply os_mkdir_grows.
Qed.

(** [Path.mkdir(parents=True, exist_ok=True)], when it returns: the path
    is a directory, and nothing that was there has changed. *)
Lemma mkdir_parents_grows (files files' : FS) (p : path) :
  Fs.mkdir_parents files p = inr files' ->
  Fs.is_dir files' p = true /\ grows files files'.
Proof. apply mkdir_parents_fuel_grows. Qed.

(** [shutil.move] of a regular file onto a path that is no directory,
    when it returns: the file is at the new path, whatever was there. *)
Lemma shutil_move_file_inr (files files' : FS) (src dst : path) (c : string) :
  Fs.lookup files src = Some (File c) ->
  Fs.is_dir files dst = false ->
  Fs.shutil_move files src dst = inr files' ->
  files' = <[dst := File c]> (delete src files).
Proof.
  intros Hsrc Hdst. unfold Fs.shutil_move. rewrite Hdst.
  unfold Fs.os_rename, Fs.move_fallback. rewrite Hsrc.
  unfold Fs.path_eqb. case_bool_decide as Heq.
  - intros [= <-]. subst dst.
    rewrite insert_delete_eq, insert_id; [reflexivity|].
    by apply lookup_file_raw.
  - unfold Fs.is_dir in Hdst.
    destruct (Fs.lookup files dst) as [[|]|]; try discriminate;
      destruct (Fs.lookup files (PurePath.parent dst)) as [[|]|];
      intros [=]; done.
Qed.

(** The same move returns when the parent of the new path is a
    directory. *)
Lemma shutil_move_file_over (files : FS) (src dst : path) (c : string) :
  Fs.lookup files src = Some (File c) ->
  Fs.is_dir files dst = false ->
  Fs.is_dir files (PurePath.parent dst) = true ->
  Fs.shutil_move files src dst = inr (<[dst := File c]> (delete src files)).
Proof.
  intros Hsrc Hdst Hpar.
  destruct (Fs.shutil_move files src dst) as [e|files'] eqn:Hmv.
  - exfalso. revert Hmv. unfold Fs.shutil_move. rewrite Hdst.
    unfold Fs.os_rename, Fs.move_fallback. rewrite Hsrc.
    unfold Fs.is_dir in *.
    destruct (Fs.path_eqb src dst); [discriminate|].
    destruct (Fs.lookup files dst) as [[|]|]; try discriminate;
      destruct (Fs.lookup files (PurePath.parent dst)) as [[|]|];
      discriminate.
  - f_equal. by apply shutil_move_file_inr.
Qed.

Section Handoff.
Context {L : PyLib} {H : Host}.
Implicit Types (self : FileProcessor.t Pattern) (w : World).

(** X4: steps 1 to 4 of [process] hand the file over.  The path given
    and the target path are canonical (from the root, without [..]), so
    that they name different files when they differ.  When the working
    copy is there, the name parses, the template renders, the directories
    up to the target can be made, the path given is a regular file and
    the target path is no directory, these steps return the parsed name
    and the target path; the missing directories were made, nothing else
    was touched, the file is at the target path and gone from where it
    was; no [git] was run and nothing was printed. *)
Theorem relocate_moves_file
        self (file_path : path) w (parsed : ParsedFilename)
        (target_path : path) (files : FS) (c : string) :
  canonical file_path = true ->
  canonical target_path = true ->
  Fs.exists_ (fs w)
             (PurePath.joinpath (GitRepo.repo_path (FileProcessor.repo self)) ".git")
  = true ->
  FilenameParser.parse (FileProcessor.parser self) (PurePath.name file_path)
  = inr parsed ->
  PathGenerator.generate (FileProcessor.path_gen self) parsed
                         (Config.repo (FileProcessor.config self))
  = inr target_path ->
  Fs.mkdir_parents (fs w) (PurePath.parent target_path) = inr files ->
  Fs.lookup (fs w) file_path = Some (File c) ->
  Fs.is_dir files target_path = false ->
  FileProcessor.relocate self file_path w
  = (inr (parsed, target_path),
     {| fs := <[target_path := File c]> (delete file_path files);
        outside := outside w; now := now w;
        git_calls := git_calls w; printed := printed w |}) /\
  grows (fs w) files /\
  Fs.is_dir files (PurePath.parent target_path) = true.
Proof.
  intros _ _ Hex Hparse Hgen Hmk Hfile Hnodir.
  destruct (mkdir_parents_grows _ _ _ Hmk) as [Hdir Hgrows].
  split; [|split; assumption].
  assert (Hfile' : Fs.lookup files file_path = Some (File c)).
  { specialize (Hgrows file_path). by rewrite Hfile in Hgrows. }
  unfold FileProcessor.relocate, GitRepo.exists_, path_exists, mkdir, shutil_move,
    fs_call, try_except, lift, raise, ret, bind. simpl.
  rewrite Hex. simpl. rewrite Hparse, Hgen. simpl. rewrite Hmk. simpl.
  rewrite (shutil_move_file_over _ _ _ c Hfile' Hnodir Hdir). reflexivity.
Qed.

(** X6: the Failure Sink when the name is taken in the failed directory.
    The file does not replace the one of the same name: it is moved to
    [stem_YYYYmmdd_HHMMSS.suffix], the time being that of the call.
    Whatever was at that second name is replaced without a warning (two
    failures of one name within one second leave one file).  Hypotheses:
    the failed directory can be made, the path given is a regular file,
    the timestamped path is no directory and its parent is one. *)
Theorem move_to_failed_adds_timestamp
        self (file_path : path) w (files : FS) (c : string) (n : node) :
  let failed := Config.failed (FileProcessor.config self) in
  let stamped :=
    PurePath.joinpath
      failed
      (PurePath.stem file_path +:+ "_" +:+ strftime (now w) +:+
       PurePath.suffix file_path) in
  Fs.mkdir_parents (fs w) failed = inr files ->
  Fs.lookup files file_path = Some (File c) ->
  Fs.lookup files (PurePath.joinpath failed (PurePath.name file_path)) = Some n ->
  Fs.is_dir files stamped = false ->
  Fs.is_dir files (PurePath.parent stamped) = true ->
  FileProcessor._move_to_failed self file_path w
  = (inr tt,
     {| fs := <[stamped := File c]> (delete file_path files);
        outside := outside w; now := now w; git_calls := git_calls w;
        printed := printed w ++ [MovedToFailed stamped] |}).
Proof.
  intros failed stamped Hmk Hfile Htaken Hnodir Hdir.
  unfold FileProcessor._move_to_failed, try_except, bind, mkdir, shutil_move,
    fs_call, path_exists, datetime_now, print, ret. simpl.
  fold failed. rewrite Hmk. simpl. unfold Fs.exists_. rewrite Htaken. simpl.
  fold stamped.
  rewrite (shutil_move_file_over _ _ _ c Hfile Hnodir Hdir). reflexivity.
Qed.

(** [ensure_dirs], when it returns. *)
Lemma ensure_dirs_inr_inv (c : Config.t) w w' (u : unit) :
  ensure_dirs c w = (inr u, w') ->
  exists f1 f2,
    Fs.mkdir_parents (fs w) (Config.inbox c) = inr f1 /\
    Fs.mkdir_parents f1 (Config.failed c) = inr f2 /\
    Fs.mkdir_parents f2 (Config.logs c) = inr (fs w') /\
    outside w' = outside w /\ now w' = now w /\
    git_calls w' = git_calls w /\ printed w' = printed w.
Proof.
  unfold ensure_dirs, mkdir, fs_call, bind.
  destruct (Fs.mkdir_parents (fs w) (Config.inbox c)) as [e|f1] eqn:E1;
    [discriminate|].
  simpl.
  destruct (Fs.mkdir_parents f1 (Config.failed c)) as [e|f2] eqn:E2;
    [discriminate|].
  simpl.
  destruct (Fs.mkdir_parents f2 (Config.logs c)) as [e|f3] eqn:E3;
    [discriminate|].
  intros [= _ <-]. exists f1, f2. cbn [fs outside now git_calls printed].
  repeat split; reflexivity || assumption.
Qed.

(** X7: [ensure_dirs], when it returns, has made the inbox, the failed
    directory and the log directory: the three are directories, every
    file and directory that was there is unchanged, what is new is
    directories only, and no [git] was run. *)
Theorem ensure_dirs_makes_directories (c : Config.t) w w' :
  ensure_dirs c w = (inr tt, w') ->
  Fs.is_dir (fs w') (Config.inbox c) = true /\
  Fs.is_dir (fs w') (Config.failed c) = true /\
  Fs.is_dir (fs w') (Config.logs c) = true /\
  grows (fs w) (fs w') /\
  git_calls w' = git_calls w /\ outside w' = outside w /\ printed w' = printed w.
Proof.
  intros Hrun.
  destruct (ensure_dirs_inr_inv c w w' tt Hrun)
    as (f1 & f2 & H1 & H2 & H3 & Ho & _ & Hg & Hp).
  destruct (mkdir_parents_grows _ _ _ H1) as [D1 G1].
  destruct (mkdir_parents_grows _ _ _ H2) as [D2 G2].
  destruct (mkdir_parents_grows _ _ _ H3) as [D3 G3].
  split; [|split; [|split; [|split]]].
  - apply (grows_is_dir f2); [exact G3|].
    apply (grows_is_dir f1); [exact G2|exact D1].
  - apply (grows_is_dir f2); [exact G3|exact D2].
  - exact D3.
  - apply (grows_trans _ f1); [exact G1|].
    apply (grows_trans _ f2); [exact G2|exact G3].
  - auto.
Qed.

End Handoff.

(** ** [mkdir(parents=True, exist_ok=True)] returns *)

Lemma os_mkdir_cases (files : FS) (p : path) :
  (exists files', Fs.os_mkdir files p = inr files') \/
  (Fs.os_mkdir files p = inl EEXIST /\ exists n, Fs.lookup files p = Some n) \/
  (Fs.os_mkdir files p = inl ENOTDIR /\
   exists c, Fs.lookup files (PurePath.parent p) = Some (File c)) \/
  (Fs.os_mkdir files p = inl ENOENT /\ Fs.lookup files p = None /\
   Fs.lookup files (PurePath.parent p) = None).
Proof.
  unfold Fs.os_mkdir.
  destruct (Fs.lookup files p) as [n|]; [right; left; eauto|].
  destruct (Fs.lookup files (PurePath.parent p)) as [[c|]|].
  - right. right. left. eauto.
  - left. eauto.
  - right. right. right. auto.
Qed.

Lemma rev_cons_inv {A} (p : list A) (z : A) (l : list A) :
  rev p = z :: l -> p = rev l ++ [z].
Proof. intros E. rewrite <- (rev_involutive p), E. reflexivity. Qed.

Lemma parent_prefix (p : path) : exists rest, p = PurePath.parent p ++ rest.
Proof.
  unfold PurePath.parent. destruct (rev p) as [|z l] eqn:E.
  - exists []. by rewrite app_nil_r.
  - destruct (PurePath.is_root z).
    + exists []. by rewrite app_nil_r.
    + apply rev_cons_inv in E. subst p. exists [z].
      by rewrite removelast_last.
Qed.

Lemma parent_fixed (p : path) :
  well_formed p = true -> PurePath.parent p = p -> Fs.fixed p = true.
Proof.
  unfold PurePath.parent, well_formed. destruct (rev p) as [|z l] eqn:E.
  - destruct p; [reflexivity|]. simpl in E. by destruct (rev p).
  - apply rev_cons_inv in E. subst p.
    destruct (PurePath.is_root z) eqn:Hz.
    + destruct (rev l) as [|a m]; simpl; [intros _ _; exact Hz|].
      rewrite forallb_app. simpl. rewrite Hz. simpl.
      rewrite andb_false_r. discriminate.
    + rewrite removelast_last. intros _ Heq.
      apply (f_equal (@length string)) in Heq. rewrite length_app in Heq.
      simpl in Heq. lia.
Qed.

Lemma parent_shorter (p : path) :
  PurePath.parent p <> p ->
  S (length (PurePath.parent p)) = length p /\
  (well_formed p = true -> well_formed (PurePath.parent p) = true).
Proof.
  unfold PurePath.parent, well_formed. destruct (rev p) as [|z l] eqn:E; [done|].
  apply rev_cons_inv in E. subst p.
  destruct (PurePath.is_root z); [done|]. intros _.
  rewrite removelast_last, length_app. simpl. split; [lia|].
  destruct (rev l) as [|a m]; simpl; [done|].
  rewrite forallb_app. by intros [? _]%andb_true_iff.
Qed.

Lemma no_file_above_parent (files : FS) (p : path) :
  no_file_above files p -> no_file_above files (PurePath.parent p).
Proof.
  intros Hno q rest c Heq. destruct (parent_prefix p) as [r0 Hp].
  apply (Hno q (rest ++ r0)). rewrite Hp at 1. rewrite Heq.
  by rewrite <- app_assoc.
Qed.

Lemma no_file_above_grows (f1 f2 : FS) (p : path) :
  grows f1 f2 -> no_file_above f1 p -> no_file_above f2 p.
Proof.
  intros Hg Hno q rest c Heq Hq. specialize (Hg q).
  destruct (Fs.lookup f1 q) as [n|] eqn:E.
  - rewrite Hg in Hq. injection Hq as ->. by apply (Hno q rest c Heq).
  - destruct Hg as [Hg|Hg]; rewrite Hg in Hq; discriminate.
Qed.

Lemma mkdir_parents_fuel_returns (fuel : nat) :
  forall (files : FS) (p : path),
    length p <= fuel ->
    well_formed p = true ->
    no_file_above files p ->
    exists files', Fs.mkdir_parents_fuel fuel files p = inr files'.
Proof.
  induction fuel as [|n IH]; intros files p Hlen Hwf Hno.
  - destruct p; [|simpl in Hlen; lia]. simpl. by eexists.
  - simpl.
    destruct (os_mkdir_cases files p)
      as [[f' ->]|[[-> [x Hx]]|[[-> [c Hc]]|(-> & Hp & Hpar)]]].
    + by eexists.
    + destruct x as [c|]; [exfalso; apply (Hno p [] c); [by rewrite app_nil_r|done]|].
      unfold Fs.is_dir. rewrite Hx. by eexists.
    + exfalso. by apply (no_file_above_parent files p Hno (PurePath.parent p) [] c);
        [rewrite app_nil_r|].
    + unfold Fs.path_eqb. case_bool_decide as Heq.
      { apply (parent_fixed p Hwf) in Heq. unfold Fs.lookup in Hp.
        rewrite Heq in Hp. discriminate. }
      destruct (parent_shorter p Heq) as [Hlen' Hwf'].
      destruct (IH files (PurePath.parent p)) as [f1 Hrec];
        [lia|by apply Hwf'|by apply no_file_above_parent|].
      rewrite Hrec.
      destruct (mkdir_parents_fuel_grows _ _ _ _ Hrec) as [Hd Hg].
      unfold Fs.mkdir_exist_ok.
      destruct (os_mkdir_cases f1 p)
        as [[f' ->]|[[-> [x Hx]]|[[-> [c Hc]]|(-> & Hp1 & Hpar1)]]].
      * by eexists.
      * specialize (Hg p). rewrite Hp in Hg.
        unfold Fs.is_dir. destruct Hg as [Hg|Hg]; rewrite Hg in Hx |- *;
          [discriminate|by eexists].
      * unfold Fs.is_dir in Hd. rewrite Hc in Hd. discriminate.
      * unfold Fs.is_dir in Hd. rewrite Hpar1 in Hd. discriminate.
Qed.

(** [Path.mkdir(parents=True, exist_ok=True)] returns whenever no regular
    file stands at the path or at one of its ancestors. *)
Lemma mkdir_parents_returns (files : FS) (p : path) :
  well_formed p = true -> no_file_above files p ->
  exists files', Fs.mkdir_parents files p = inr files'.
Proof. intros. by apply mkdir_parents_fuel_returns. Qed.

Lemma clear_way_no_file (files : FS) (p : path) :
  clear_way files p = true -> no_file_above files p.
Proof.
  unfold clear_way. intros Hb q rest c Heq Hq. subst p.
  rewrite forallb_forall in Hb. specialize (Hb (length q)).
  rewrite take_app_length, Hq in Hb.
  assert (Hin : In (length q) (seq 0 (S (length (q ++ rest))))).
  { apply in_seq. rewrite length_app. lia. }
  specialize (Hb Hin). discriminate.
Qed.

Lemma workspace_child (base : path) (x : string) :
  PurePath.is_absolute (PurePath.of_string x) = false ->
  PurePath.joinpath base x = base ++ PurePath.of_string x.
Proof. unfold PurePath.joinpath, PurePath.join. by intros ->. Qed.

Lemma well_formed_child (base : path) (x : string) :
  well_formed base = true -> PurePath.is_root x = false ->
  well_formed (base ++ [x]) = true.
Proof.
  unfold well_formed. destruct base as [|a m]; simpl; [done|].
  intros Hm Hx. rewrite forallb_app, Hm. simpl. by rewrite Hx.
Qed.

Lemma plain_inv (x : string) :
  plain x = true ->
  PurePath.keep_segment x = true /\ Str.mem "/" x = false /\
  exists a r, x = String a r /\ a <> "/"%char.
Proof.
  unfold plain, PurePath.keep_segment.
  intros [[H1 H2]%andb_true_iff H3%negb_true_iff]%andb_true_iff.
  split; [by rewrite H1, H2|]. split; [exact H3|].
  destruct x as [|a r]; [discriminate|]. exists a, r. split; [reflexivity|].
  change (Ascii.eqb "/" a || Str.mem "/" r = false) in H3.
  apply orb_false_elim in H3 as [Ha _].
  apply Ascii.eqb_neq in Ha. congruence.
Qed.

Lemma prefix_cons (c : ascii) (s : string) (a : ascii) (r : string) :
  c <> a -> String.prefix (String c s) (String a r) = false.
Proof.
  intros Hne. cbn [String.prefix].
  destruct (Ascii.ascii_dec c a); [done|reflexivity].
Qed.

Lemma root_of_relative (a : ascii) (r : string) :
  a <> "/"%char -> PurePath.root_of (String a r) = [].
Proof.
  intros Ha. unfold PurePath.root_of.
  rewrite !prefix_cons by congruence. reflexivity.
Qed.

Lemma is_root_plain (x : string) : plain x = true -> PurePath.is_root x = false.
Proof.
  intros (_ & _ & a & r & -> & Ha)%plain_inv.
  unfold PurePath.is_root. apply prefix_cons. congruence.
Qed.

Lemma canonical_well_formed (p : path) :
  canonical p = true -> well_formed p = true.
Proof.
  unfold canonical, well_formed. destruct p as [|root segments]; [discriminate|].
  intros [_ Hs]%andb_true_iff. simpl.
  induction segments as [|x l IH]; [reflexivity|]. simpl in *.
  apply andb_true_iff in Hs as [[Hx _]%andb_true_iff Hl].
  by rewrite (is_root_plain x Hx), IH.
Qed.

Section Workspace.
Context {H : Host}.
Implicit Types (w : World).

(** X8: [ensure_dirs] returns, with the inbox, the failed directory and
    the log directory made, when the base of the workspace is canonical
    (from the root, without [..]) and no regular file stands at one of
    the three paths or at an ancestor of the workspace.  This is said of
    the files as they are modelled here: no links, and no directory that
    refuses to be written to. *)
Theorem ensure_dirs_returns (c : Config.t) w :
  canonical (Config.workspace_base c) = true ->
  clear_way (fs w) (Config.inbox c) = true ->
  clear_way (fs w) (Config.failed c) = true ->
  clear_way (fs w) (Config.logs c) = true ->
  exists files,
    ensure_dirs c w
    = (inr tt, {| fs := files; outside := outside w; now := now w;
                  git_calls := git_calls w; printed := printed w |}) /\
    Fs.is_dir files (Config.inbox c) = true /\
    Fs.is_dir files (Config.failed c) = true /\
    Fs.is_dir files (Config.logs c) = true /\
    grows (fs w) files.
Proof.
  intros Hwf%canonical_well_formed
         Hi%clear_way_no_file Hf%clear_way_no_file Hl%clear_way_no_file.
  assert (Wi : well_formed (Config.inbox c) = true)
    by (by apply well_formed_child).
  assert (Wf : well_formed (Config.failed c) = true)
    by (by apply well_formed_child).
  assert (Wl : well_formed (Config.logs c) = true)
    by (by apply well_formed_child).
  destruct (mkdir_parents_returns (fs w) _ Wi Hi) as [f1 H1].
  destruct (mkdir_parents_grows _ _ _ H1) as [D1 G1].
  destruct (mkdir_parents_returns f1 _ Wf (no_file_above_grows _ _ _ G1 Hf))
    as [f2 H2].
  destruct (mkdir_parents_grows _ _ _ H2) as [D2 G2].
  destruct (mkdir_parents_returns
              f2 _ Wl (no_file_above_grows _ _ _ G2 (no_file_above_grows _ _ _ G1 Hl)))
    as [f3 H3].
  destruct (mkdir_parents_grows _ _ _ H3) as [D3 G3].
  exists f3. split; [|split; [|split; [|split]]].
  - unfold ensure_dirs, mkdir, fs_call, bind. rewrite H1. simpl.
    rewrite H2. simpl. rewrite H3. reflexivity.
  - apply (grows_is_dir f2); [exact G3|].
    apply (grows_is_dir f1); [exact G2|exact D1].
  - apply (grows_is_dir f2); [exact G3|exact D2].
  - exact D3.
  - apply (grows_trans _ f1); [exact G1|].
    apply (grows_trans _ f2); [exact G2|exact G3].
Qed.

End Workspace.

(** ** The theorems above at runs of the scenario *)

(** X2 at a file that is not in the inbox: the move raises, no [git]. *)
Lemma process_runs_no_git_before_move_witness :
  fst (FileProcessor.process
         (Scenario.processor (Scenario.cfg None))
         ["/"; "ws"; "inbox"; "Lost_Character_Hero.fbx"]
         (Scenario.world Scenario.files [succeeds])) = inr false /\
  git_calls (snd (FileProcessor.process
                    (Scenario.processor (Scenario.cfg None))
                    ["/"; "ws"; "inbox"; "Lost_Character_Hero.fbx"]
                    (Scenario.world Scenario.files [succeeds]))) = [] /\
  outside (snd (FileProcessor.process
                  (Scenario.processor (Scenario.cfg None))
                  ["/"; "ws"; "inbox"; "Lost_Character_Hero.fbx"]
                  (Scenario.world Scenario.files [succeeds]))) = [succeeds].
Proof.
  apply (process_runs_no_git_before_move
           (L := re_fragment) (H := scripted_host)
           (Scenario.processor (Scenario.cfg None))
           ["/"; "ws"; "inbox"; "Lost_Character_Hero.fbx"]
           (Scenario.world Scenario.files [succeeds])
           (OSError ENOENT)
           (snd (FileProcessor.relocate
                   (L := re_fragment) (H := scripted_host)
                   (Scenario.processor (Scenario.cfg None))
                   ["/"; "ws"; "inbox"; "Lost_Character_Hero.fbx"]
                   (Scenario.world Scenario.files [succeeds])))).
  apply pair_with_snd. vm_compute. reflexivity.
Defined.

(** X4 at the scenario. *)
Lemma relocate_moves_file_witness :
  FileProcessor.relocate
    (Scenario.processor (Scenario.cfg None)) Scenario.inbox_file
    (Scenario.world Scenario.files [])
  = (inr (Scenario.parsed_hero, Scenario.target_file),
     {| fs := <[Scenario.target_file := File "mesh"]>
                (delete Scenario.inbox_file scenario_files_with_target_dir);
        outside := []; now := Scenario.noon; git_calls := []; printed := [] |}) /\
  grows Scenario.files scenario_files_with_target_dir /\
  Fs.is_dir scenario_files_with_target_dir (PurePath.parent Scenario.target_file)
  = true.
Proof.
  apply (relocate_moves_file
           (L := re_fragment) (H := scripted_host)
           (Scenario.processor (Scenario.cfg None)) Scenario.inbox_file
           (Scenario.world Scenario.files [])
           Scenario.parsed_hero Scenario.target_file
           scenario_files_with_target_dir "mesh").
  - vm_compute. reflexivity.
  - vm_compute. reflexivity.
  - vm_compute. reflexivity.
  - vm_compute. reflexivity.
  - vm_compute. reflexivity.
  - by_decision.
  - vm_compute. reflexivity.
  - vm_compute. reflexivity.
Defined.

(** X6 at the scenario: a third failure within the second keeps the
    first file and replaces the second. *)
Lemma move_to_failed_adds_timestamp_witness :
  exists w',
    FileProcessor._move_to_failed
      (Scenario.processor (Scenario.cfg None)) Scenario.inbox_file
      (Scenario.world scenario_files_after_failures [])
    = (inr tt, w') /\
    fs w' !! Scenario.inbox_file = None /\
    fs w' !! Scenario.failed_file = Some (File "first") /\
    fs w' !! ["/"; "ws"; "failed"; "GameRes_Character_Hero_20240517_120000.fbx"]
    = Some (File "mesh") /\
    printed w'
    = [MovedToFailed
         ["/"; "ws"; "failed"; "GameRes_Character_Hero_20240517_120000.fbx"]].
Proof.
  eexists. split.
  - apply (move_to_failed_adds_timestamp
             (L := re_fragment) (H := scripted_host)
             (Scenario.processor (Scenario.cfg None)) Scenario.inbox_file
             (Scenario.world scenario_files_after_failures [])
             scenario_files_after_failures "mesh" (File "first")).
    + by_decision.
    + vm_compute. reflexivity.
    + vm_compute. reflexivity.
    + vm_compute. reflexivity.
    + vm_compute. reflexivity.
  - vm_compute. repeat split; reflexivity.
Defined.

(** X7 at the workspace of the scenario. *)
Lemma ensure_dirs_makes_directories_witness :
  Fs.is_dir (fs (snd (ensure_dirs (Scenario.cfg None)
                                  (Scenario.world Scenario.files []))))
            ["/"; "ws"; "inbox"] = true /\
  Fs.is_dir (fs (snd (ensure_dirs (Scenario.cfg None)
                                  (Scenario.world Scenario.files []))))
            ["/"; "ws"; "failed"] = true /\
  Fs.is_dir (fs (snd (ensure_dirs (Scenario.cfg None)
                                  (Scenario.world Scenario.files []))))
            ["/"; "ws"; "logs"] = true /\
  grows Scenario.files
        (fs (snd (ensure_dirs (Scenario.cfg None)
                              (Scenario.world Scenario.files [])))) /\
  git_calls (snd (ensure_dirs (Scenario.cfg None)
                              (Scenario.world Scenario.files []))) = [] /\
  outside (snd (ensure_dirs (Scenario.cfg None)
                            (Scenario.world Scenario.files []))) = [] /\
  printed (snd (ensure_dirs (Scenario.cfg None)
                            (Scenario.world Scenario.files []))) = [].
Proof.
  apply (ensure_dirs_makes_directories
           (H := scripted_host) (Scenario.cfg None)
           (Scenario.world Scenario.files [])).
  apply pair_with_snd. vm_compute. reflexivity.
Defined.

(** X8 at the workspace of the scenario. *)
Lemma ensure_dirs_returns_witness :
  exists files,
    ensure_dirs (Scenario.cfg None) (Scenario.world Scenario.files [])
    = (inr tt, {| fs := files; outside := []; now := Scenario.noon;
                  git_calls := []; printed := [] |}) /\
    Fs.is_dir files ["/"; "ws"; "inbox"] = true /\
    Fs.is_dir files ["/"; "ws"; "failed"] = true /\
    Fs.is_dir files ["/"; "ws"; "logs"] = true /\
    grows Scenario.files files.
Proof.
  apply (ensure_dirs_returns
           (H := scripted_host) (Scenario.cfg None)
           (Scenario.world Scenario.files []));
    vm_compute; reflexivity.
Defined.

(** ** The sanitizer *)

Lemma len_replace (old new : ascii) (s : string) :
  Str.is_continuation old = false -> Str.is_continuation new = false ->
  Str.len (Str.replace old new s) = Str.len s.
Proof.
  intros Ho Hn. induction s as [|c s IH]; [reflexivity|].
  cbn [Str.replace Str.len]. rewrite IH.
  destruct (Ascii.eqb c old) eqn:E; [|reflexivity].
  apply Ascii.eqb_eq in E as ->. by rewrite Ho, Hn.
Qed.

Lemma replace_absent (old new : ascii) (s : string) :
  Str.mem old s = false -> Str.replace old new s = s.
Proof.
  induction s as [|c s IH]; simpl; [reflexivity|].
  intros [Hc Hs]%orb_false_elim. rewrite (IH Hs).
  rewrite Ascii.eqb_sym in Hc. by rewrite Hc.
Qed.

Lemma sanitize_unchanged (component : string) :
  (forall ch, In ch PathGenerator.unsafe_chars -> Str.mem ch component = false) ->
  Str.len component <= 100 ->
  PathGenerator.sanitize_path_component component = component.
Proof.
  intros Hsafe Hlen.
  unfold PathGenerator.sanitize_path_component, PathGenerator.unsafe_chars.
  cbn [fold_left].
  repeat match goal with
         | |- context [Str.replace ?a ?b component] =>
             rewrite (replace_absent a b component)
               by (apply Hsafe; unfold PathGenerator.unsafe_chars; simpl; tauto)
         end.
  apply Nat.ltb_ge in Hlen. by rewrite Hlen.
Qed.

(** X9: [sanitize_path_component] is a projection onto the safe
    components.  Its result has the number of characters of its argument
    cut at 100 ([len] and the slice count characters of Python, not
    bytes) and none of the nine unsafe characters; a component that is
    safe and no longer than 100 characters is returned as it is; so
    sanitizing twice is sanitizing once. *)
Theorem sanitize_path_component_projects (component : string) :
  Str.len (PathGenerator.sanitize_path_component component)
  = Nat.min 100 (Str.len component) /\
  (forall ch, In ch PathGenerator.unsafe_chars ->
              Str.mem ch (PathGenerator.sanitize_path_component component)
              = false) /\
  ((forall ch, In ch PathGenerator.unsafe_chars ->
               Str.mem ch component = false) ->
   Str.len component <= 100 ->
   PathGenerator.sanitize_path_component component = component) /\
  PathGenerator.sanitize_path_component
    (PathGenerator.sanitize_path_component component)
  = PathGenerator.sanitize_path_component component.
Proof.
  destruct (sanitize_path_component_safe component) as [Hlen Hsafe].
  split; [|split; [exact Hsafe|split; [apply sanitize_unchanged|]]].
  - unfold PathGenerator.sanitize_path_component, PathGenerator.unsafe_chars.
    cbn [fold_left].
    set (cleaned := Str.replace _ _ _).
    assert (Hc : Str.len cleaned = Str.len component).
    { subst cleaned. by rewrite !len_replace. }
    destruct (100 <? Str.len cleaned)%nat eqn:E.
    + rewrite len_head. lia.
    + apply Nat.ltb_ge in E. lia.
  - apply sanitize_unchanged; assumption.
Qed.

(** ** Where the generator puts a file *)

Lemma append_assoc (a b c : string) : (a +:+ b) +:+ c = a +:+ (b +:+ c).
Proof.
  induction a as [|x a IH]; [reflexivity|].
  change (String x ((a +:+ b) +:+ c) = String x (a +:+ b +:+ c)). by rewrite IH.
Qed.

Lemma append_empty_r (a : string) : a +:+ "" = a.
Proof.
  induction a as [|x a IH]; [reflexivity|].
  change (String x (a +:+ "") = String x a). by rewrite IH.
Qed.

Lemma join_relative (p q : path) :
  PurePath.is_absolute q = false -> PurePath.join p q = p ++ q.
Proof. unfold PurePath.join. by intros ->. Qed.

Lemma join_absolute (p q : path) :
  PurePath.is_absolute q = true -> PurePath.join p q = q.
Proof. unfold PurePath.join. by intros ->. Qed.

Section Generator.
Context {L : PyLib}.

(** X10: the target path stays in the working copy when nothing in the
    settings is absolute.  If the asset root, the rendered template and
    the name of the file do not begin with a slash, the target path is
    the repository path followed by their segments, and the test of
    [GitRepo.add] on it ([relative_to] the repository path) answers those
    segments. *)
Theorem generate_stays_under_repository
        (self : PathGenerator.t) (parsed : ParsedFilename)
        (repo_base : path) (rel_dir : string) :
  Format.format (PathGenerator.path_template self) (PathGenerator.fields parsed)
  = inr rel_dir ->
  PurePath.is_absolute (PurePath.of_string (PathGenerator.asset_root self)) = false ->
  PurePath.is_absolute (PurePath.of_string rel_dir) = false ->
  PurePath.is_absolute (PurePath.of_string (original_name parsed)) = false ->
  repo_base <> [] ->
  let inside :=
    PurePath.of_string (PathGenerator.asset_root self) ++
    PurePath.of_string rel_dir ++
    PurePath.of_string (original_name parsed) in
  PathGenerator.generate self parsed repo_base = inr (repo_base ++ inside) /\
  PurePath.relative_to (repo_base ++ inside) repo_base = inr inside.
Proof.
  intros Hfmt Ha Hr Hn Hne inside. split.
  - unfold PathGenerator.generate, PurePath.joinpath. rewrite Hfmt.
    rewrite !join_relative by assumption.
    subst inside. by rewrite <- !app_assoc.
  - by apply relative_to_app.
Qed.

(** X11: a template that renders to an absolute path takes the file out
    of the working copy.  When the rendered template begins with a slash
    (and the name of the file does not), the repository path and the
    asset root take no part in the target path: it is the rendered
    template followed by the name, as [pathlib] joins paths. *)
Theorem generate_absolute_template_ignores_repository
        (self : PathGenerator.t) (parsed : ParsedFilename)
        (repo_base : path) (rel_dir : string) :
  Format.format (PathGenerator.path_template self) (PathGenerator.fields parsed)
  = inr rel_dir ->
  PurePath.is_absolute (PurePath.of_string rel_dir) = true ->
  PurePath.is_absolute (PurePath.of_string (original_name parsed)) = false ->
  PathGenerator.generate self parsed repo_base
  = inr (PurePath.of_string rel_dir ++ PurePath.of_string (original_name parsed)).
Proof.
  intros Hfmt Hr Hn.
  unfold PathGenerator.generate, PurePath.joinpath. rewrite Hfmt.
  by rewrite (join_absolute _ _ Hr), (join_relative _ _ Hn).
Qed.

End Generator.

(** X10 at the scenario. *)
Lemma generate_stays_under_repository_witness :
  PathGenerator.generate
    (PathGenerator.init "{module}/{category}/{feature}/" "Assets/GameRes/")
    Scenario.parsed_hero ["/"; "ws"; ".repo"]
  = inr (["/"; "ws"; ".repo"] ++
         ["Assets"; "GameRes"; "GameRes"; "Character"; "Hero"; Scenario.hero]) /\
  PurePath.relative_to
    (["/"; "ws"; ".repo"] ++
     ["Assets"; "GameRes"; "GameRes"; "Character"; "Hero"; Scenario.hero])
    ["/"; "ws"; ".repo"]
  = inr ["Assets"; "GameRes"; "GameRes"; "Character"; "Hero"; Scenario.hero].
Proof.
  apply (generate_stays_under_repository
           (L := re_fragment)
           (PathGenerator.init "{module}/{category}/{feature}/" "Assets/GameRes/")
           Scenario.parsed_hero ["/"; "ws"; ".repo"] "GameRes/Character/Hero/");
    [vm_compute; reflexivity..|discriminate].
Defined.

(** X11 at a template that begins with a slash. *)
Lemma generate_absolute_template_witness :
  PathGenerator.generate
    (PathGenerator.init "/{module}/{category}/" "Assets/GameRes/")
    Scenario.parsed_hero ["/"; "ws"; ".repo"]
  = inr (["/"; "GameRes"; "Character"] ++ [Scenario.hero]).
Proof.
  apply (generate_absolute_template_ignores_repository
           (L := re_fragment)
           (PathGenerator.init "/{module}/{category}/" "Assets/GameRes/")
           Scenario.parsed_hero ["/"; "ws"; ".repo"] "/GameRes/Character/");
    vm_compute; reflexivity.
Defined.

(** ** The shipped templates *)

Lemma split_acc_app (sep : ascii) (x : string) :
  forall (cur rest : string),
    Str.mem sep x = false ->
    Str.split_acc sep cur (x +:+ rest) = Str.split_acc sep (cur +:+ x) rest.
Proof.
  induction x as [|c x IH]; intros cur rest.
  - intros _. by rewrite append_empty_r.
  - simpl. intros [Hc Hx]%orb_false_elim.
    change (String c x +:+ rest) with (String c (x +:+ rest)). simpl.
    rewrite Ascii.eqb_sym, Hc, (IH _ _ Hx), append_assoc. reflexivity.
Qed.

Lemma split_acc_sep (sep : ascii) (cur r : string) :
  Str.split_acc sep cur (String sep r) = cur :: Str.split_acc sep "" r.
Proof. simpl. by rewrite Ascii.eqb_refl. Qed.

Lemma of_string_plain (x : string) :
  plain x = true -> PurePath.of_string x = [x].
Proof.
  intros (Hk & Hm & a & r & -> & Ha)%plain_inv.
  unfold PurePath.of_string. rewrite (root_of_relative a r Ha).
  unfold Str.split.
  rewrite <- (append_empty_r (String a r)) at 1.
  rewrite (split_acc_app _ _ _ _ Hm).
  change (String.append "" (String a r)) with (String a r).
  cbn [Str.split_acc List.filter]. by rewrite Hk.
Qed.

Lemma of_string_three (m c f : string) :
  plain m = true -> plain c = true -> plain f = true ->
  PurePath.of_string (m +:+ "/" +:+ c +:+ "/" +:+ f +:+ "/") = [m; c; f].
Proof.
  intros (Hkm & Hm & a & r & Em & Ha)%plain_inv
         (Hkc & Hc & _)%plain_inv (Hkf & Hf & _)%plain_inv.
  unfold PurePath.of_string.
  assert (Hroot : PurePath.root_of (m +:+ "/" +:+ c +:+ "/" +:+ f +:+ "/") = []).
  { subst m. apply (root_of_relative a _ Ha). }
  rewrite Hroot. unfold Str.split.
  rewrite (split_acc_app _ _ _ _ Hm).
  change ("/" +:+ c +:+ "/" +:+ f +:+ "/")
    with (String "/" (c +:+ "/" +:+ f +:+ "/")).
  rewrite split_acc_sep, (split_acc_app _ _ _ _ Hc).
  change ("/" +:+ f +:+ "/") with (String "/" (f +:+ "/")).
  rewrite split_acc_sep, (split_acc_app _ _ _ _ Hf), split_acc_sep.
  change (String.append "" m) with m.
  change (String.append "" c) with c.
  change (String.append "" f) with f.
  cbn [Str.split_acc List.filter]. rewrite Hkm, Hkc, Hkf. reflexivity.
Qed.

Section Shipped.
Context {L : PyLib}.

Lemma format_path_template (parsed : ParsedFilename) :
  Format.format "{module}/{category}/{feature}/" (PathGenerator.fields parsed)
  = inr (module parsed +:+ "/" +:+ category parsed +:+ "/" +:+
         feature parsed +:+ "/").
Proof.
  unfold Format.format. simpl. rewrite !append_assoc. reflexivity.
Qed.

(** X12: the commit message when the configuration sets no template.
    For every parsed name it is [Update <category>: <feature>]; the
    formatting cannot raise. *)
Theorem default_commit_message
        (self : FileProcessor.t Pattern) (parsed : ParsedFilename) :
  Config.commit_template (FileProcessor.config self) = None ->
  FileProcessor.commit_message self parsed
  = inr ("Update " +:+ category parsed +:+ ": " +:+ feature parsed).
Proof.
  intros Hnone.
  unfold FileProcessor.commit_message, Config.git_commit_template.
  rewrite Hnone. unfold Format.format. simpl.
  rewrite !append_assoc. reflexivity.
Qed.

(** X13: the layout under the template of the shipped configuration,
    [{module}/{category}/{feature}/].  When the module, the category, the
    feature and the name of the file are plain segments (not empty, not a
    dot, without a slash) and the asset root is relative, the target path
    is the repository path, the segments of the asset root, then the
    module, the category, the feature and the name. *)
Theorem generate_default_layout
        (self : PathGenerator.t) (parsed : ParsedFilename) (repo_base : path) :
  PathGenerator.path_template self = "{module}/{category}/{feature}/" ->
  PurePath.is_absolute (PurePath.of_string (PathGenerator.asset_root self)) = false ->
  plain (module parsed) = true ->
  plain (category parsed) = true ->
  plain (feature parsed) = true ->
  plain (original_name parsed) = true ->
  PathGenerator.generate self parsed repo_base
  = inr (repo_base ++ PurePath.of_string (PathGenerator.asset_root self) ++
         [module parsed; category parsed; feature parsed; original_name parsed]).
Proof.
  intros Ht Ha Hm Hc Hf Hn.
  unfold PathGenerator.generate, PurePath.joinpath.
  rewrite Ht, format_path_template.
  rewrite (of_string_three _ _ _ Hm Hc Hf), (of_string_plain _ Hn).
  rewrite (join_relative _ _ Ha).
  rewrite !join_relative by (by apply is_root_plain).
  by rewrite <- !app_assoc.
Qed.

End Shipped.

(** X12 at the scenario. *)
Lemma default_commit_message_witness :
  FileProcessor.commit_message
    (Scenario.processor (Scenario.cfg None)) Scenario.parsed_hero
  = inr ("Update " +:+ "Character" +:+ ": " +:+ "Hero").
Proof.
  apply (default_commit_message
           (L := re_fragment)
           (Scenario.processor (Scenario.cfg None)) Scenario.parsed_hero).
  reflexivity.
Defined.

(** X13 at the scenario. *)
Lemma generate_default_layout_witness :
  PathGenerator.generate
    (PathGenerator.init "{module}/{category}/{feature}/" "Assets/GameRes/")
    Scenario.parsed_hero ["/"; "ws"; ".repo"]
  = inr (["/"; "ws"; ".repo"] ++ ["Assets"; "GameRes"] ++
         ["GameRes"; "Character"; "Hero"; Scenario.hero]).
Proof.
  apply (generate_default_layout
           (L := re_fragment)
           (PathGenerator.init "{module}/{category}/{feature}/" "Assets/GameRes/")
           Scenario.parsed_hero ["/"; "ws"; ".repo"]);
    vm_compute; reflexivity.
Defined.

(** ** The repository adapter, method by method *)

Section Adapter.
Context {H : Host}.
Implicit Types (self : GitRepo.t) (w : World).

Lemma converts_on_called_process_error {A} (prefix : string) :
  converts (@GitRepo.on_called_process_error H A prefix).
Proof.
  intros e. destruct e; simpl; try reflexivity.
  intros w. split; [reflexivity|]. by intros e' [= <-].
Qed.

Lemma guarded_run self (args : list string) {A} (k : CompletedProcess -> A)
      (handler : exception -> option (M A)) :
  converts handler ->
  one_git_run self
    (try_except (let* r := GitRepo._run_git self args in ret (k r)) handler).
Proof.
  intros Hconv w.
  assert (Hlog : git_calls
                   (snd (try_except
                           (let* r := GitRepo._run_git self args in ret (k r))
                           handler w))
                 = git_calls w ++ [args]).
  { unfold try_except, bind, ret.
    pose proof (run_git_log self args w) as [Hg _].
    destruct (GitRepo._run_git self args w) as [[e|p] w1]; simpl in *; [|exact Hg].
    specialize (Hconv e). destruct (handler e) as [h|]; [|exact Hg].
    destruct (Hconv w1) as [-> _]. exact Hg. }
  split; [right; eauto|].
  intros e He.
  unfold try_except, bind in He.
  destruct (GitRepo._run_git self args w) as [[e0|p] w1] eqn:Hg;
    [|discriminate He].
  pose proof (Hconv e0) as Hc. destruct (handler e0) as [h|].
  - left. destruct (Hc w1) as [_ Hc']. apply Hc'. exact He.
  - injection He as <-. right. exists args.
    split; [exact Hlog|]. split; [|exact Hc].
    revert Hg. unfold GitRepo._run_git.
    destruct (subprocess_run _ _ _ _) as [[[e1|p] files] o]; simpl.
    + by intros [= -> _].
    + destruct (returncode p =? 0)%nat; [discriminate|].
      intros [= <- _]. discriminate Hc.
Qed.

Lemma guarded_path_run self (file_path : path) (verb : string)
      (handler : exception -> option (M unit)) :
  converts handler ->
  handler ValueError
  = Some (raise (GitError ("文件不在仓库中：" +:+ PurePath.to_string file_path))) ->
  one_git_run self
    (try_except
       (let* rel_path := lift (PurePath.relative_to file_path
                                                    (GitRepo.repo_path self)) in
        GitRepo._run_git self [verb; PurePath.to_string rel_path] ;;;
        ret tt)
       handler).
Proof.
  intros Hconv Hval w.
  destruct (PurePath.relative_to file_path (GitRepo.repo_path self))
    as [e|rel] eqn:Hrel.
  - assert (e = ValueError) as ->.
    { revert Hrel. unfold PurePath.relative_to.
      destruct (GitRepo.repo_path self);
        [destruct (PurePath.is_absolute file_path)|
         destruct (PurePath.strip_prefix _ _)]; congruence. }
    unfold try_except, bind, lift. simpl. rewrite Hval. simpl.
    split; [by left|]. intros e [= <-]. by left.
  - pose proof (guarded_run self [verb; PurePath.to_string rel]
                            (fun _ => tt) handler Hconv w) as Hrun.
    unfold try_except, bind, lift in *. simpl in *. exact Hrun.
Qed.

(** X14: every method of [GitRepo] that works in the working copy runs
    [git] at most once and lets out nothing but [GitError], or what
    [subprocess.run] itself raised when that is no exit status (the
    executable is missing, say).  An exit status other than zero never
    reaches the caller as [CalledProcessError]. *)
Theorem git_repo_methods_raise_GitError
        self (file_path : path) (message : string) (branch : option string) :
  one_git_run self (GitRepo.pull self) /\
  one_git_run self (GitRepo.add self file_path) /\
  one_git_run self (GitRepo.commit self message) /\
  one_git_run self (GitRepo.push self branch) /\
  one_git_run self (GitRepo.remove self file_path) /\
  one_git_run self (GitRepo.status self).
Proof.
  split; [|split; [|split; [|split; [|split]]]].
  - apply (guarded_run self ["pull"] (fun _ => tt)).
    apply converts_on_called_process_error.
  - apply (guarded_path_run self file_path "add"); [|reflexivity].
    intros e. destruct e; simpl; try reflexivity;
      intros w; (split; [reflexivity|]); by intros e' [= <-].
  - apply (guarded_run self ["commit"; "-m"; message] (fun _ => tt)).
    intros e. destruct e; simpl; try reflexivity.
    destruct (Str.contains _ _); intros w; (split; [reflexivity|]);
      intros e'; [discriminate|by intros [= <-]].
  - unfold GitRepo.push. destruct branch as [[|c b]|].
    + apply (guarded_run self ["push"] (fun _ => tt)).
      apply converts_on_called_process_error.
    + apply (guarded_run self ["push"; "origin"; String c b] (fun _ => tt)).
      apply converts_on_called_process_error.
    + apply (guarded_run self ["push"] (fun _ => tt)).
      apply converts_on_called_process_error.
  - apply (guarded_path_run self file_path "rm"); [|reflexivity].
    intros e. destruct e; simpl; try reflexivity;
      intros w; (split; [reflexivity|]); by intros e' [= <-].
  - apply (guarded_run self ["status"; "--short"] stdout).
    apply converts_on_called_process_error.
Qed.

(** X15: [clone].  On a path that holds a repository already it raises
    [GitError] and runs nothing.  Otherwise it runs [git clone -b branch
    --single-branch url path] once, from the current directory; when that
    run ends with exit status zero [clone] returns, and with any other
    status it raises [GitError] with what [git] wrote on its standard
    error.  The files are then as [git] left them. *)
Theorem clone_runs_git_clone_once self (git_url branch : string) w :
  let argv := ["clone"; "-b"; branch; "--single-branch"; git_url;
               PurePath.to_string (GitRepo.repo_path self)] in
  (Fs.exists_ (fs w) (PurePath.joinpath (GitRepo.repo_path self) ".git") = true ->
   GitRepo.clone self git_url branch w
   = (inl (GitError ("仓库已存在：" +:+
                     PurePath.to_string (GitRepo.repo_path self))), w)) /\
  (Fs.exists_ (fs w) (PurePath.joinpath (GitRepo.repo_path self) ".git") = false ->
   git_calls (snd (GitRepo.clone self git_url branch w)) = git_calls w ++ [argv] /\
   forall p files' outside',
     subprocess_run ("git" :: argv) [] (fs w) (outside w)
     = (inr p, files', outside') ->
     fst (GitRepo.clone self git_url branch w)
     = (if (returncode p =? 0)%nat then inr tt
        else inl (GitError ("Clone失败：" +:+ stderr p))) /\
     fs (snd (GitRepo.clone self git_url branch w)) = files' /\
     outside (snd (GitRepo.clone self git_url branch w)) = outside').
Proof.
  intros argv. subst argv. split; intros Hex.
  - unfold GitRepo.clone, GitRepo.exists_, path_exists, bind. by rewrite Hex.
  - unfold GitRepo.clone, GitRepo.exists_, path_exists. unfold bind at 1.
    rewrite Hex. split.
    + rewrite try_except_snd
        by (intros e h w0; apply on_called_process_error_snd).
      rewrite then_ret_snd. unfold GitRepo.run_here.
      destruct (subprocess_run _ _ _ _) as [[[e|p] files] o]; simpl;
        [|destruct (returncode p =? 0)%nat]; reflexivity.
    + intros p files' outside' Hrun.
      unfold try_except, bind, ret, GitRepo.run_here. rewrite Hex, Hrun.
      destruct (returncode p =? 0)%nat; simpl; auto.
Qed.

End Adapter.

(** ** The configuration *)

Lemma walk_one (data : yaml) (a : string) :
  ConfigFile.truthy (ConfigFile.walk data [a]) = true ->
  exists d v, data = YDict d /\ ConfigFile.entry d a = Some v /\
              ConfigFile.truthy v = true.
Proof.
  destruct data as [| | | | | |d|]; simpl; try discriminate.
  destruct (ConfigFile.entry d a) as [v|] eqn:E; [|discriminate].
  intros Hv. by exists d, v.
Qed.

Lemma walk_two (data : yaml) (a b : string) :
  ConfigFile.truthy (ConfigFile.walk data [a; b]) = true ->
  exists d d' v, data = YDict d /\ ConfigFile.entry d a = Some (YDict d') /\
                 ConfigFile.entry d' b = Some v /\ ConfigFile.truthy v = true.
Proof.
  destruct data as [| | | | | |d|]; simpl; try discriminate.
  destruct (ConfigFile.entry d a) as [[| | | | | |d'|]|] eqn:E; simpl;
    try discriminate.
  destruct (ConfigFile.entry d' b) as [v|] eqn:E'; [|discriminate].
  intros Hv. by exists d, d', v.
Qed.

Lemma check_required_inr (data : yaml) :
  ConfigFile.check_required data ConfigFile.required_fields = inr tt <->
  ConfigFile.truthy (ConfigFile.walk data ["project"; "name"]) = true /\
  ConfigFile.truthy (ConfigFile.walk data ["git"; "repository"]) = true /\
  ConfigFile.truthy (ConfigFile.walk data ["path_template"]) = true /\
  ConfigFile.truthy (ConfigFile.walk data ["naming"; "pattern"]) = true.
Proof.
  unfold ConfigFile.required_fields, ConfigFile.check_required.
  change (ConfigFile._get_nested data "project.name")
    with (ConfigFile.walk data ["project"; "name"]).
  change (ConfigFile._get_nested data "git.repository")
    with (ConfigFile.walk data ["git"; "repository"]).
  change (ConfigFile._get_nested data "path_template")
    with (ConfigFile.walk data ["path_template"]).
  change (ConfigFile._get_nested data "naming.pattern")
    with (ConfigFile.walk data ["naming"; "pattern"]).
  set (a := ConfigFile.truthy (ConfigFile.walk data ["project"; "name"])).
  set (b := ConfigFile.truthy (ConfigFile.walk data ["git"; "repository"])).
  set (c := ConfigFile.truthy (ConfigFile.walk data ["path_template"])).
  set (d := ConfigFile.truthy (ConfigFile.walk data ["naming"; "pattern"])).
  destruct a, b, c, d; cbn [negb];
    (split; [intros E; try discriminate E; auto
            |intros (? & ? & ? & ?); try discriminate; auto]).
Qed.

Lemma check_required_raises (data : yaml) (e : exception) :
  ConfigFile.check_required data ConfigFile.required_fields = inl e ->
  is_ConfigError e = true.
Proof.
  unfold ConfigFile.required_fields, ConfigFile.check_required.
  repeat (destruct (negb _); [by intros [= <-]|]). discriminate.
Qed.

Lemma validate_basic_shape (data : yaml) :
  ConfigFile._validate_basic data = inr tt ->
  exists name template pattern url d project git naming,
    valid_shape data name template pattern url d project git naming.
Proof.
  unfold ConfigFile._validate_basic.
  destruct (ConfigFile.check_required data ConfigFile.required_fields)
    as [e|[]] eqn:Hreq; [discriminate|].
  apply check_required_inr in Hreq as (Hn & Hg & Ht & Hp).
  apply walk_two in Hn as (d & project & name & -> & Hproject & Hname & Tname).
  apply walk_two in Hg as (d1 & git & repo & [= <-] & Hgit & Hrepo & Trepo).
  apply walk_one in Ht as (d2 & template & [= <-] & Htemplate & Ttemplate).
  apply walk_two in Hp as (d3 & naming & pattern & [= <-] & Hnaming & Hpattern & Tp).
  unfold ConfigFile.git_url, ConfigFile.subscript. rewrite Hgit, Hrepo.
  destruct repo as [| | |url| | | |]; try discriminate.
  destruct (ConfigFile.supported url) eqn:Hs; [|discriminate]. intros _.
  exists name, template, pattern, url, d, project, git, naming.
  repeat split; assumption.
Qed.

Lemma supported_nonempty (url : string) :
  ConfigFile.supported url = true -> ConfigFile.truthy (YStr url) = true.
Proof. by destruct url. Qed.

(** X16: what [_validate_basic] accepts.  It returns exactly for a
    mapping with a true [project.name], a [git.repository] that is a
    string beginning with [https://github.com] or [https://gitee.com], a
    true [path_template] and a true [naming.pattern], the dotted names
    being read through mappings.  Nothing else about the address is
    tested: any text may follow the prefix. *)
Theorem validate_basic_accepts_iff (data : yaml) :
  ConfigFile._validate_basic data = inr tt <->
  exists name template pattern url d project git naming,
    data = YDict d /\
    ConfigFile.entry d "project" = Some (YDict project) /\
    ConfigFile.entry project "name" = Some name /\
    ConfigFile.truthy name = true /\
    ConfigFile.entry d "git" = Some (YDict git) /\
    ConfigFile.entry git "repository" = Some (YStr url) /\
    (String.prefix "https://github.com" url = true \/
     String.prefix "https://gitee.com" url = true) /\
    ConfigFile.entry d "path_template" = Some template /\
    ConfigFile.truthy template = true /\
    ConfigFile.entry d "naming" = Some (YDict naming) /\
    ConfigFile.entry naming "pattern" = Some pattern /\
    ConfigFile.truthy pattern = true.
Proof.
  split.
  - intros (name & template & pattern & url & d & project & git & naming & Hv)
           %validate_basic_shape.
    destruct Hv as (? & ? & ? & ? & ? & ? & Hs & ? & ? & ? & ? & ?).
    exists name, template, pattern, url, d, project, git, naming.
    apply orb_true_iff in Hs. repeat split; assumption.
  - intros (name & template & pattern & url & d & project & git & naming
            & -> & Hproject & Hname & Tname & Hgit & Hrepo & Hs
            & Htemplate & Ttemplate & Hnaming & Hpattern & Tpattern).
    assert (Hs' : ConfigFile.supported url = true) by (by apply orb_true_iff).
    unfold ConfigFile._validate_basic.
    assert (Hreq : ConfigFile.check_required (YDict d) ConfigFile.required_fields
                   = inr tt).
    { apply check_required_inr. simpl.
      rewrite Hproject, Hname, Hgit, Hrepo, Htemplate, Hnaming, Hpattern.
      repeat split; try assumption. by apply supported_nonempty. }
    rewrite Hreq. unfold ConfigFile.git_url, ConfigFile.subscript.
    by rewrite Hgit, Hrepo, Hs'.
Qed.

(** X17: a configuration that passed [_validate_basic] answers every
    property.  The four required properties return the values that were
    tested, the repository address being a supported string; the
    properties with a default ([git_branch], [git_commit_template],
    [asset_root], [naming_example], [language]) return as well: none of
    them can raise [KeyError] or [TypeError] after the validation. *)
Theorem validated_properties_return (data : yaml) :
  ConfigFile._validate_basic data = inr tt ->
  (exists v, ConfigFile.project_name data = inr v /\ ConfigFile.truthy v = true) /\
  (exists url, ConfigFile.git_url data = inr (YStr url) /\
               ConfigFile.supported url = true) /\
  (exists v, ConfigFile.path_template data = inr v /\ ConfigFile.truthy v = true) /\
  (exists v, ConfigFile.naming_pattern data = inr v /\
             ConfigFile.truthy v = true) /\
  (exists v, ConfigFile.git_branch data = inr v) /\
  (exists v, ConfigFile.git_commit_template data = inr v) /\
  (exists v, ConfigFile.asset_root data = inr v) /\
  (exists v, ConfigFile.naming_example data = inr v) /\
  (exists v, ConfigFile.language data = inr v).
Proof.
  intros (name & template & pattern & url & d & project & git & naming & Hv)
         %validate_basic_shape.
  destruct Hv as (-> & Hproject & Hname & Tname & Hgit & Hrepo & Hs
                  & Htemplate & Ttemplate & Hnaming & Hpattern & Tpattern).
  unfold ConfigFile.project_name, ConfigFile.git_url, ConfigFile.path_template,
    ConfigFile.naming_pattern, ConfigFile.git_branch,
    ConfigFile.git_commit_template, ConfigFile.asset_root,
    ConfigFile.naming_example, ConfigFile.language,
    ConfigFile.subscript, ConfigFile.get.
  rewrite Hproject, Hname, Hgit, Hrepo, Htemplate, Hnaming, Hpattern.
  repeat split; eauto.
Qed.

Lemma validate_basic_inl (data : yaml) (e : exception) :
  ConfigFile._validate_basic data = inl e ->
  is_ConfigError e = true \/
  (e = OtherError "AttributeError" /\
   ConfigFile.truthy (ConfigFile._get_nested data "git.repository") = true /\
   (forall url, ConfigFile._get_nested data "git.repository" <> YStr url) /\
   (forall b, ConfigFile._get_nested data "git.repository" <> YBytes b)) \/
  (e = OtherError "TypeError" /\
   exists b, ConfigFile._get_nested data "git.repository" = YBytes b /\
             b <> "").
Proof.
  unfold ConfigFile._validate_basic.
  destruct (ConfigFile.check_required data ConfigFile.required_fields)
    as [e0|[]] eqn:Hreq.
  { intros [= <-]. left. by apply (check_required_raises data). }
  apply check_required_inr in Hreq as (_ & Hg & _).
  change (ConfigFile._get_nested data "git.repository")
    with (ConfigFile.walk data ["git"; "repository"]).
  pose proof Hg as Hg'.
  apply walk_two in Hg as (d & git & repo & -> & Hgit & Hrepo & Trepo).
  unfold ConfigFile.git_url, ConfigFile.subscript. rewrite Hgit, Hrepo.
  simpl in Hg' |- *. rewrite Hgit in Hg' |- *. simpl in Hg' |- *.
  rewrite Hrepo in Hg' |- *.
  destruct repo as [|b|n|url|bytes|l|d'|t];
    try (intros [= <-]; right; left; split; [reflexivity|];
         split; [exact Trepo|split; discriminate]).
  - destruct (ConfigFile.supported url); [discriminate|].
    intros [= <-]. by left.
  - intros [= <-]. right. right. split; [reflexivity|].
    exists bytes. split; [reflexivity|]. by destruct bytes.
Qed.

(** X18: what [_validate_basic] raises.  For every document it returns,
    or raises [ConfigError] (a required field is missing or false, or the
    address is not supported), or, when the repository address is true
    but no string, what [startswith] raises on it: [TypeError] for a byte
    string, [AttributeError] for anything else (a number, a list, a
    mapping).  It raises nothing else: no [KeyError] from reading the
    address. *)
Theorem validate_basic_raises_ConfigError (data : yaml) :
  match ConfigFile._validate_basic data with
  | inr _ => True
  | inl e =>
      is_ConfigError e = true \/
      (e = OtherError "AttributeError" /\
       ConfigFile.truthy (ConfigFile._get_nested data "git.repository") = true /\
       (forall url, ConfigFile._get_nested data "git.repository" <> YStr url) /\
       (forall b, ConfigFile._get_nested data "git.repository" <> YBytes b)) \/
      (e = OtherError "TypeError" /\
       exists b, ConfigFile._get_nested data "git.repository" = YBytes b /\
                 b <> "")
  end.
Proof.
  destruct (ConfigFile._validate_basic data) as [e|u] eqn:E; [|exact I].
  by apply validate_basic_inl.
Qed.

Section Base.
Variable resolve : path -> path.

(** X19: the base of the workspace.  A configuration that is no mapping
    (an empty file, a list) makes the constructor raise [AttributeError],
    not [ConfigError]: the paths are resolved before anything is
    validated.  With no [workspace] section the base is the directory of
    the configuration file, resolved.  An absolute [workspace.base] is
    taken as it is, wherever the configuration file lies. *)
Theorem resolve_paths_base (data : yaml) (config_file : path) :
  ((forall d, data <> YDict d) ->
   ConfigFile.init resolve data config_file = inl (OtherError "AttributeError")) /\
  (forall d, data = YDict d -> ConfigFile.entry d "workspace" = None ->
             ConfigFile._resolve_paths resolve data config_file
             = inr (resolve (PurePath.parent config_file))) /\
  (forall d workspace base,
      data = YDict d ->
      ConfigFile.entry d "workspace" = Some (YDict workspace) ->
      ConfigFile.entry workspace "base" = Some (YStr base) ->
      PurePath.is_absolute (PurePath.of_string base) = true ->
      ConfigFile._resolve_paths resolve data config_file
      = inr (PurePath.of_string base)).
Proof.
  split; [|split].
  - intros Hno. unfold ConfigFile.init, ConfigFile._resolve_paths, ConfigFile.get.
    destruct data as [| | | | | |d|]; try reflexivity. by destruct (Hno d).
  - intros d -> Hnone.
    unfold ConfigFile._resolve_paths, ConfigFile.get. rewrite Hnone. simpl.
    unfold PurePath.join. simpl. by rewrite app_nil_r.
  - intros d workspace base -> Hw Hb Habs.
    unfold ConfigFile._resolve_paths, ConfigFile.get. by rewrite Hw, Hb, Habs.
Qed.

End Base.

(** X17 at that configuration. *)
Lemma validated_properties_return_witness :
  (exists v, ConfigFile.project_name example_config = inr v /\
             ConfigFile.truthy v = true) /\
  (exists url, ConfigFile.git_url example_config = inr (YStr url) /\
               ConfigFile.supported url = true) /\
  (exists v, ConfigFile.path_template example_config = inr v /\
             ConfigFile.truthy v = true) /\
  (exists v, ConfigFile.naming_pattern example_config = inr v /\
             ConfigFile.truthy v = true) /\
  (exists v, ConfigFile.git_branch example_config = inr v) /\
  (exists v, ConfigFile.git_commit_template example_config = inr v) /\
  (exists v, ConfigFile.asset_root example_config = inr v) /\
  (exists v, ConfigFile.naming_example example_config = inr v) /\
  (exists v, ConfigFile.language example_config = inr v).
Proof.
  apply (validated_properties_return example_config). vm_compute. reflexivity.
Defined.

(** ** The constructor's processor *)

Section Constructed.
Context {L : PyLib} {H : Host}.
Implicit Types (self : FileProcessor.t Pattern) (w : World).

Lemma init_inr_inv (c : Config.t) self :
  FileProcessor.init c = inr self ->
  FileProcessor.config self = c /\
  GitRepo.repo_path (FileProcessor.repo self) = Config.repo c /\
  FileProcessor.path_gen self
  = PathGenerator.init (Config.path_template c) (Config.asset_root c) /\
  FilenameParser.init (Config.naming_pattern c) = inr (FileProcessor.parser self).
Proof.
  unfold FileProcessor.init.
  destruct (FilenameParser.init (Config.naming_pattern c)) as [e|p];
    [discriminate|].
  by intros [= <-].
Qed.

(** X20: the path of the success report.  For the processor
    [FileProcessor(config)] builds, when the four [git] steps returned,
    [target_path.relative_to(self.config.repo)] of the success report
    returns and raises no [ValueError]: the repository of the
    configuration is the working copy of the [GitRepo], and the relative
    path is the one [add] handed to [git]. *)
Theorem success_report_path_is_staged_path
        (c : Config.t) self w1 w2
        (parsed : ParsedFilename) (target_path : path) :
  FileProcessor.init c = inr self ->
  FileProcessor.git_steps self parsed target_path w1 = (inr tt, w2) ->
  exists rel msg,
    PurePath.relative_to target_path (Config.repo (FileProcessor.config self))
    = inr rel /\
    PurePath.relative_to target_path (Config.repo c) = inr rel /\
    git_calls w2 = git_calls w1 ++
                   [["pull"]; ["add"; PurePath.to_string rel];
                    ["commit"; "-m"; msg]; ["push"]].
Proof.
  intros (Hc & Hrepo & _)%init_inr_inv Hgit.
  destruct (git_steps_inr_inv self parsed target_path w1 w2 tt Hgit)
    as (rel & msg & Hr & _ & Hlog).
  rewrite Hrepo in Hr. exists rel, msg. rewrite Hc. by repeat split.
Qed.

End Constructed.

(** X20 at the scenario. *)
Lemma success_report_path_witness :
  exists rel msg,
    PurePath.relative_to
      Scenario.target_file
      (Config.repo (FileProcessor.config (Scenario.processor (Scenario.cfg None))))
    = inr rel /\
    PurePath.relative_to Scenario.target_file (Config.repo (Scenario.cfg None))
    = inr rel /\
    git_calls
      (snd (FileProcessor.git_steps
              (Scenario.processor (Scenario.cfg None))
              Scenario.parsed_hero Scenario.target_file
              (snd (FileProcessor.relocate
                      (Scenario.processor (Scenario.cfg None))
                      Scenario.inbox_file
                      (Scenario.world Scenario.files [])))))
    = [] ++ [["pull"]; ["add"; PurePath.to_string rel];
             ["commit"; "-m"; msg]; ["push"]].
Proof.
  set (self := Scenario.processor (Scenario.cfg None)).
  set (w1 := snd (FileProcessor.relocate
                    (L := re_fragment) (H := scripted_host)
                    self Scenario.inbox_file
                    (Scenario.world Scenario.files []))).
  apply (success_report_path_is_staged_path
           (L := re_fragment) (H := scripted_host)
           (Scenario.cfg None) self w1 _
           Scenario.parsed_hero Scenario.target_file).
  - apply scenario_processor_init.
  - apply pair_with_snd. vm_compute. reflexivity.
Defined.

(** ** The name a file takes in the failed directory *)

Lemma take_drop (i : nat) (s : string) : Str.take i s +:+ Str.drop i s = s.
Proof.
  revert s. induction i as [|i IH]; intros [|c s]; try reflexivity.
  change (String c (Str.take i s +:+ Str.drop i s) = String c s).
  by rewrite IH.
Qed.

(** The timestamp goes between the stem and the suffix: for every path
    the stem followed by the suffix is the name. *)
Lemma stem_suffix_name (p : path) :
  PurePath.stem p +:+ PurePath.suffix p = PurePath.name p /\
  (PurePath.suffix p = "" -> PurePath.stem p = PurePath.name p).
Proof.
  unfold PurePath.stem, PurePath.suffix.
  destruct (Str.rfind "." (PurePath.name p)) as [i|].
  - destruct ((0 <? i) && (i <? String.length (PurePath.name p) - 1))%nat.
    + split; [apply take_drop|].
      intros Hd. rewrite <- (take_drop i (PurePath.name p)) at 2.
      by rewrite Hd, append_empty_r.
    + split; [apply append_empty_r|reflexivity].
  - split; [apply append_empty_r|reflexivity].
Qed.

(** ** The way back to the inbox *)

Section WayBack.
Context {L : PyLib} {H : Host}.
Implicit Types (self : FileProcessor.t Pattern) (w : World).

(** X21: the recovery after a failed [git] step takes the file back
    whatever is at its old path.  When the file is at the target path,
    the directory of the original path exists and the original path is no
    directory, [_handle_git_failure] moves the file to the original path,
    says so and returns; a file that was put at the original path in the
    meantime is replaced without a warning. *)
Theorem handle_git_failure_moves_back
        self (target_path original_path : path) (error : exception) w
        (c : string) :
  Fs.lookup (fs w) target_path = Some (File c) ->
  Fs.is_dir (fs w) original_path = false ->
  Fs.is_dir (fs w) (PurePath.parent original_path) = true ->
  FileProcessor._handle_git_failure self target_path original_path error w
  = (inr tt,
     {| fs := <[original_path := File c]> (delete target_path (fs w));
        outside := outside w; now := now w; git_calls := git_calls w;
        printed := printed w ++ [MovedBackToInbox error] |}).
Proof.
  intros Hfile Hnodir Hdir.
  assert (Hex : Fs.exists_ (fs w) (PurePath.parent original_path) = true).
  { unfold Fs.exists_, Fs.is_dir in *.
    destruct (Fs.lookup (fs w) (PurePath.parent original_path)); done. }
  unfold FileProcessor._handle_git_failure, try_except, bind, path_exists,
    shutil_move, fs_call, print.
  rewrite Hex, (shutil_move_file_over _ _ _ c Hfile Hnodir Hdir). reflexivity.
Qed.

End WayBack.

(** X21 at the scenario, with a newer file of the same name in the inbox. *)
Lemma handle_git_failure_moves_back_witness :
  exists w',
    FileProcessor._handle_git_failure
      (Scenario.processor (Scenario.cfg None))
      Scenario.target_file Scenario.inbox_file (GitError "Push失败：rejected")
      (Scenario.world scenario_files_redropped [])
    = (inr tt, w') /\
    fs w' !! Scenario.inbox_file = Some (File "mesh") /\
    fs w' !! Scenario.target_file = None /\
    printed w' = [MovedBackToInbox (GitError "Push失败：rejected")].
Proof.
  eexists. split.
  - apply (handle_git_failure_moves_back
             (L := re_fragment) (H := scripted_host)
             (Scenario.processor (Scenario.cfg None))
             Scenario.target_file Scenario.inbox_file
             (GitError "Push失败：rejected")
             (Scenario.world scenario_files_redropped []) "mesh");
      vm_compute; reflexivity.
  - vm_compute. repeat split; reflexivity.
Defined.

(** ** The order of a batch *)

Section Announcements.
Context {L : PyLib} {H : Host}.
Implicit Types (self : FileProcessor.t Pattern) (w : World).

Lemma silent_same {A} (m : M A) :
  (forall w, printed (snd (m w)) = printed w) -> prints_no_announcement m.
Proof. intros Hm w. exists []. by rewrite app_nil_r, Hm. Qed.

Lemma silent_bind {A B} (m : M A) (k : A -> M B) :
  prints_no_announcement m -> (forall a, prints_no_announcement (k a)) ->
  prints_no_announcement (bind m k).
Proof.
  intros Hm Hk w. unfold bind. destruct (Hm w) as (e1 & H1 & F1).
  destruct (m w) as [[e|a] w1]; simpl in *; [eauto|].
  destruct (Hk a w1) as (e2 & H2 & F2). exists (e1 ++ e2).
  by rewrite H2, H1, <- app_assoc, List.filter_app, F1, F2.
Qed.

Lemma silent_try_except {A} (body : M A) (handler : exception -> option (M A)) :
  prints_no_announcement body ->
  (forall e h, handler e = Some h -> prints_no_announcement h) ->
  prints_no_announcement (try_except body handler).
Proof.
  intros Hb Hh w. unfold try_except. destruct (Hb w) as (e1 & H1 & F1).
  destruct (body w) as [[e|a] w1]; simpl in *; [|eauto].
  destruct (handler e) as [h|] eqn:E; [|eauto].
  destruct (Hh e h E w1) as (e2 & H2 & F2). exists (e1 ++ e2).
  by rewrite H2, H1, <- app_assoc, List.filter_app, F1, F2.
Qed.

Lemma silent_print (r : report) :
  is_Processing r = false -> prints_no_announcement (print r).
Proof. intros Hr w. exists [r]. simpl. by rewrite Hr. Qed.

Lemma silent_ret {A} (a : A) : prints_no_announcement (ret a).
Proof. by apply silent_same. Qed.

Lemma silent_raise {A} (e : exception) : prints_no_announcement (@raise H A e).
Proof. by apply silent_same. Qed.

Lemma silent_lift {A} (r : result A) : prints_no_announcement (lift r).
Proof. by apply silent_same. Qed.

Lemma silent_path_exists (p : path) : prints_no_announcement (path_exists p).
Proof. by apply silent_same. Qed.

Lemma silent_datetime_now : prints_no_announcement datetime_now.
Proof. by apply silent_same. Qed.

Lemma silent_fs_call (f : FS -> errno + FS) : prints_no_announcement (fs_call f).
Proof.
  apply silent_same. intros w. unfold fs_call. by destruct (f (fs w)).
Qed.

Lemma silent_run_git (repo : GitRepo.t) (args : list string) :
  prints_no_announcement (GitRepo._run_git repo args).
Proof. apply silent_same. intros w. apply run_git_log. Qed.

Lemma silent_on_called_process_error {A} (prefix : string) (e : exception)
      (h : M A) :
  GitRepo.on_called_process_error prefix e = Some h -> prints_no_announcement h.
Proof.
  destruct e; simpl; try discriminate. intros [= <-]. apply silent_raise.
Qed.

Lemma silent_move_to_failed self (file_path : path) :
  prints_no_announcement (FileProcessor._move_to_failed self file_path).
Proof.
  unfold FileProcessor._move_to_failed, mkdir, shutil_move.
  apply silent_try_except.
  - apply silent_bind; [apply silent_fs_call|]. intros _.
    apply silent_bind; [apply silent_path_exists|]. intros taken.
    apply silent_bind.
    + destruct taken; [|apply silent_ret].
      apply silent_bind; [apply silent_datetime_now|]. intros d. apply silent_ret.
    + intros failed_path.
      apply silent_bind; [apply silent_fs_call|]. intros _.
      by apply silent_print.
  - intros e h [= <-]. by apply silent_print.
Qed.

Lemma silent_handle_git_failure self (target_path original_path : path)
      (error : exception) :
  prints_no_announcement
    (FileProcessor._handle_git_failure self target_path original_path error).
Proof.
  unfold FileProcessor._handle_git_failure, shutil_move.
  apply silent_try_except.
  - apply silent_bind; [apply silent_path_exists|]. intros there.
    destruct there.
    + apply silent_bind; [apply silent_fs_call|]. intros _. by apply silent_print.
    + apply silent_bind; [apply silent_move_to_failed|]. intros _.
      by apply silent_print.
  - intros e h [= <-]. by apply silent_print.
Qed.

Lemma silent_guarded (repo : GitRepo.t) (args : list string) (prefix : string) :
  prints_no_announcement
    (try_except (GitRepo._run_git repo args ;;; ret tt)
                (GitRepo.on_called_process_error prefix)).
Proof.
  apply silent_try_except.
  - apply silent_bind; [apply silent_run_git|]. intros _. apply silent_ret.
  - apply silent_on_called_process_error.
Qed.

Lemma silent_git_steps self (parsed : ParsedFilename) (target_path : path) :
  prints_no_announcement (FileProcessor.git_steps self parsed target_path).
Proof.
  unfold FileProcessor.git_steps.
  apply silent_bind; [apply silent_guarded|]. intros _.
  apply silent_bind.
  { unfold GitRepo.add. apply silent_try_except.
    - apply silent_bind; [apply silent_lift|]. intros rel.
      apply silent_bind; [apply silent_run_git|]. intros _. apply silent_ret.
    - intros e h. destruct (is_ValueError e).
      + intros [= <-]. apply silent_raise.
      + apply silent_on_called_process_error. }
  intros _. apply silent_bind; [apply silent_lift|]. intros msg.
  apply silent_bind.
  { unfold GitRepo.commit. apply silent_try_except.
    - apply silent_bind; [apply silent_run_git|]. intros _. apply silent_ret.
    - intros e h. destruct e; try discriminate.
      destruct (Str.contains _ _); intros [= <-];
        [apply silent_ret|apply silent_raise]. }
  intros _. apply silent_guarded.
Qed.

Lemma silent_relocate self (file_path : path) :
  prints_no_announcement (FileProcessor.relocate self file_path).
Proof.
  unfold FileProcessor.relocate, GitRepo.exists_, mkdir, shutil_move.
  apply silent_bind; [apply silent_path_exists|]. intros there.
  destruct (negb there); [apply silent_raise|].
  apply silent_bind.
  - apply silent_try_except; [apply silent_lift|].
    intros e h. destruct (is_ParseError e); [|discriminate].
    intros [= <-]. apply silent_raise.
  - intros parsed. apply silent_bind; [apply silent_lift|]. intros target.
    apply silent_bind; [apply silent_fs_call|]. intros _.
    apply silent_bind; [apply silent_fs_call|]. intros _. apply silent_ret.
Qed.

Lemma silent_process self (file_path : path) :
  prints_no_announcement (FileProcessor.process self file_path).
Proof.
  unfold FileProcessor.process. apply silent_try_except.
  - apply silent_bind; [apply silent_relocate|]. intros moved.
    apply silent_bind.
    + apply silent_try_except.
      * apply silent_bind; [apply silent_git_steps|]. intros _. apply silent_ret.
      * intros e h. destruct (is_GitError e); [|discriminate].
        intros [= <-].
        apply silent_bind; [apply silent_handle_git_failure|]. intros _.
        apply silent_ret.
    + intros git_failed. destruct git_failed; [apply silent_ret|].
      apply silent_bind; [by apply silent_print|]. intros _.
      apply silent_bind; [apply silent_lift|]. intros rel.
      apply silent_bind; [by apply silent_print|]. intros _. apply silent_ret.
  - intros e h. destruct (is_ProcessError e); intros [= <-].
    + apply silent_bind; [by apply silent_print|]. intros _.
      apply silent_bind; [apply silent_move_to_failed|]. intros _.
      apply silent_ret.
    + apply silent_bind; [by apply silent_print|]. intros _.
      apply silent_bind; [apply silent_move_to_failed|]. intros _.
      apply silent_ret.
Qed.

Lemma process_loop_run self (total : nat) (files : list path) :
  forall (i success failed s f : nat) w w',
    FileProcessor.process_loop self total i files success failed w
    = (inr (s, f), w') <->
    exists steps,
      batch_run self total i files w steps w' /\
      s = success + successes steps /\ f = failed + failures steps.
Proof.
  unfold successes, failures.
  induction files as [|file_path rest IH]; intros i success failed s f w w'.
  - simpl. unfold ret. split.
    + intros [= <- <- <-]. exists []. split; [constructor|]. simpl. lia.
    + intros (steps & Hrun & -> & ->). inversion Hrun; subst. simpl.
      by rewrite !Nat.add_0_r.
  - cbn [FileProcessor.process_loop].
    unfold bind at 1. unfold print at 1. unfold bind at 1.
    set (w0 := {| fs := fs w; outside := outside w; now := now w;
                  git_calls := git_calls w;
                  printed := printed w ++
                             [Processing i total (PurePath.name file_path)] |}).
    split.
    + destruct (silent_process self file_path w0) as (said & Hsaid & _).
      destruct (FileProcessor.process self file_path w0) as [[e|ok] w1] eqn:Hp;
        [discriminate|].
      simpl in Hsaid. destruct ok.
      * intros (steps & Hrun & -> & ->)%IH.
        exists ((true, said) :: steps). split.
        -- by apply (batch_next self total i file_path rest w true said w1).
        -- simpl. lia.
      * intros (steps & Hrun & -> & ->)%IH.
        exists ((false, said) :: steps). split.
        -- by apply (batch_next self total i file_path rest w false said w1).
        -- simpl. lia.
    + intros (steps & Hrun & -> & ->). inversion Hrun; subst.
      match goal with
      | Hp : FileProcessor.process _ _ _ = (_, ?w1) |- _ =>
          change (FileProcessor.process self file_path w0 = (inr ok, w1)) in Hp;
          rewrite Hp
      end.
      destruct ok; apply IH; eexists; (split; [eassumption|]); simpl; lia.
Qed.

Lemma batch_run_transcript self (total : nat) (files : list path) :
  forall i w steps w',
    batch_run self total i files w steps w' ->
    printed w' = printed w ++ transcript total i files steps /\
    Forall (fun st => List.filter is_Processing (snd st) = []) steps.
Proof.
  induction files as [|file_path rest IH]; intros i w steps w' Hrun;
    inversion Hrun; subst.
  - simpl. by rewrite app_nil_r.
  - match goal with
    | Hnext : batch_run _ _ _ rest _ _ _ |- _ =>
        destruct (IH _ _ _ _ Hnext) as [Hprinted Hall]
    end.
    match goal with
    | Hp : FileProcessor.process _ _ _ = _, Hsaid : printed _ = _ ++ said |- _ =>
        pose proof (silent_process self file_path
                      (snd (print (Processing i total (PurePath.name file_path)) w)))
          as (extra & Hextra & Hnone);
        rewrite Hp in Hextra; simpl in Hextra;
        rewrite Hsaid in Hextra; apply app_inv_head in Hextra; subst extra;
        split;
        [rewrite Hprinted, Hsaid; simpl; by rewrite <- !app_assoc
        |constructor; [exact Hnone|exact Hall]]
    end.
Qed.

(** X5: [process_batch] tries every file, once, in the order given.  It
    returns the counts [(s, f)] exactly when there is a run of its loop
    over the whole list: each file is announced and then handed to
    [process], in the world the call for the file before it left, and
    [process] answers; [s] is the number of files for which it answered
    [True] and [f] the number for which it answered [False].  A file that
    fails does not end the batch. *)
Theorem process_batch_counts_every_file
        self (files : list path) w (s f : nat) w' :
  FileProcessor.process_batch self files w = (inr (s, f), w') <->
  exists steps,
    batch_run self (length files) 1 files w steps w' /\
    length steps = length files /\
    s = successes steps /\ f = failures steps.
Proof.
  unfold FileProcessor.process_batch. rewrite process_loop_run. split.
  - intros (steps & Hrun & -> & ->). exists steps.
    split; [exact Hrun|]. split; [|split; reflexivity].
    clear -Hrun. induction Hrun; simpl; congruence.
  - intros (steps & Hrun & _ & -> & ->). by exists steps.
Qed.

(** X22: what a batch prints.  When [process_batch] returns, what it
    added to the output is, for each file in the order given, the
    announcement of the file, numbered from 1 with the length of the list
    as the total, followed by what the call of [process] on that file
    printed.  The announcement comes before the call, and no call of
    [process] prints an announcement, so what stands between two
    announcements was printed for the file announced first. *)
Theorem process_batch_announces_in_order self (files : list path) w :
  match FileProcessor.process_batch self files w with
  | (inr _, w') =>
      exists steps,
        batch_run self (length files) 1 files w steps w' /\
        printed w' = printed w ++ transcript (length files) 1 files steps /\
        Forall (fun st => List.filter is_Processing (snd st) = []) steps
  | (inl _, _) => True
  end.
Proof.
  destruct (FileProcessor.process_batch self files w) as [[e|[s f]] w'] eqn:Hb;
    [exact I|].
  unfold FileProcessor.process_batch in Hb.
  apply process_loop_run in Hb as (steps & Hrun & _).
  exists steps. split; [exact Hrun|].
  by apply (batch_run_transcript self (length files) files 1 w).
Qed.

End Announcements.
